(** * Agila Audit: tiered cache facade and dedup guard

    A shallow embedding of the hybrid cache utility (Redis over a persistent
    connection, Upstash over REST, in-process LRU) and of the dedup service,
    with the properties their specification states.  The validation utility,
    the role access filter and the API keys (service and middleware) follow,
    with properties read off the code.

    Conventions.
    - A JavaScript string is a [string]; one [ascii] stands for one code unit,
      so the model covers the code units 0..255 and [String.length] is the
      JavaScript [length].
    - A JavaScript number is a [Z]: [VNum n] stands for the double nearest to
      the integer [n], which is [n] itself up to 2^53.
    - Time is a [Z], milliseconds since the epoch.  A call does not advance
      the clock: what the specification calls "immediately". *)

From stdpp Require Import gmap strings list fin_maps sorting pretty.
From Stdlib Require Import ZArith Ascii String Lia.

Set Warnings "-register-all".
Open Scope string_scope.

(* ===================================================================== *)
(** ** JavaScript values, property order and [JSON.stringify] *)
(* ===================================================================== *)

Module JS.

(** The values that flow through the cache: JSON data plus [undefined],
    which property bags such as query filters carry for absent fields. *)
Inductive value : Type :=
| VUndefined
| VNull
| VBool (b : bool)
| VNum (n : Z)
| VStr (s : string)
| VArr (xs : list value)
| VObj (ps : list (string * value)).

(** The own enumerable string-keyed properties of an ordinary object, in
    the order [Object.keys], spread and [JSON.stringify] enumerate them. *)
Definition props : Type := list (string * value).

(** [x === null] *)
Definition is_null (v : value) : bool :=
  match v with VNull => true | _ => false end.

(** JavaScript truthiness of a string: only the empty string is falsy. *)
Definition truthy_string (s : string) : bool :=
  match s with "" => false | _ => true end.

(** Truthiness of a [string | null | undefined]. *)
Definition truthy (o : option string) : bool :=
  match o with Some s => truthy_string s | None => false end.

(** A template literal prints an absent value as [undefined]. *)
Definition template (o : option string) : string := default "undefined" o.

(** *** Array indices

    A property key is an array index when it is the canonical decimal
    spelling of an integer below 2^32 - 1: [ToString(ToNumber(k)) = k]. *)

Definition digit_of (c : ascii) : option N :=
  let n := N_of_ascii c in
  if ((48 <=? n) && (n <=? 57))%N then Some (n - 48)%N else None.

Fixpoint parse_digits (acc : N) (s : string) : option N :=
  match s with
  | "" => Some acc
  | String c s' =>
      match digit_of c with
      | Some d => parse_digits (10 * acc + d)%N s'
      | None => None
      end
  end.

Definition array_index (k : string) : option N :=
  match k with
  | "" => None
  | _ =>
      match parse_digits 0 k with
      | Some n =>
          if bool_decide (pretty n = k) && (n <? 2 ^ 32 - 1)%N
          then Some n else None
      | None => None
      end
  end.

(** *** Defining a property

    [OrdinaryOwnPropertyKeys]: array indices first, in ascending numeric
    order, then the other string keys in the order they were created.
    Writing an existing key keeps its place. *)

Fixpoint obj_replace (o : props) (k : string) (v : value) : props :=
  match o with
  | [] => []
  | (k', v') :: o' =>
      if String.eqb k' k then (k', v) :: o' else (k', v') :: obj_replace o' k v
  end.

Fixpoint obj_insert_index (n : N) (k : string) (v : value) (o : props) : props :=
  match o with
  | [] => [(k, v)]
  | (k', v') :: o' =>
      match array_index k' with
      | Some n' =>
          if (n' <? n)%N then (k', v') :: obj_insert_index n k v o'
          else (k, v) :: o
      | None => (k, v) :: o
      end
  end.

Definition obj_has (o : props) (k : string) : bool :=
  existsb (fun p => String.eqb p.1 k) o.

Definition obj_set (o : props) (k : string) (v : value) : props :=
  if obj_has o k then obj_replace o k v
  else match array_index k with
       | Some n => obj_insert_index n k v o
       | None => (o ++ [(k, v)])%list
       end.

(** [params[key]] *)
Fixpoint obj_get (o : props) (k : string) : value :=
  match o with
  | [] => VUndefined
  | (k', v) :: o' => if String.eqb k' k then v else obj_get o' k
  end.

(** [{ ...acc }]: a fresh object that receives the properties of [acc] one
    by one, in the order [acc] enumerates them. *)
Definition obj_spread (acc : props) : props :=
  foldl (fun o p => obj_set o p.1 p.2) [] acc.

Definition Object_keys (o : props) : list string := o.*1.

(** [Array.prototype.sort] without a comparator orders strings by code
    units. *)
Definition Array_sort (ks : list string) : list string :=
  merge_sort String.le ks.

(** *** Numbers as text *)

(** The integer nearest to [z] that a double holds, ties to even; [None]
    beyond the largest double, where the number is an infinity. *)
Definition nearest_double (z : Z) : option Z :=
  let a := Z.abs z in
  if (a <? 2 ^ 53)%Z then Some z
  else
    let e := (Z.log2 a - 52)%Z in
    let q := (a / 2 ^ e)%Z in
    let r := (a mod 2 ^ e)%Z in
    let half := (2 ^ (e - 1))%Z in
    let q' := if (half <? r)%Z || ((r =? half)%Z && Z.odd q) then (q + 1)%Z else q in
    let m := (q' * 2 ^ e)%Z in
    if (2 ^ 1024 <=? m)%Z then None
    else Some (if (z <? 0)%Z then - m else m)%Z.

(** Whether the integer [m] reads back as the double [a]. *)
Definition reads_back (a m : Z) : bool := bool_decide (nearest_double m = Some a).

(** The integer with [k] significant digits, for the first [k] of [ks]
    that has one, which reads back as [a]: [a] cut to [k] digits or the
    next such integer, whichever is closer to [a], the even one on a tie.
    [nd] is the number of digits of [a]. *)
Fixpoint shortest_from (a nd : Z) (ks : list Z) : Z :=
  match ks with
  | [] => a
  | k :: ks' =>
      let unit := (10 ^ Z.max 0 (nd - k))%Z in
      let lo := (a / unit * unit)%Z in
      let hi := (lo + unit)%Z in
      if reads_back a lo && reads_back a hi
      then if (a - lo <? hi - a)%Z || ((a - lo =? hi - a)%Z && Z.even (a / unit))
           then lo else hi
      else if reads_back a lo then lo
      else if reads_back a hi then hi
      else shortest_from a nd ks'
  end.

(** Seventeen significant digits tell any two doubles apart. *)
Definition shortest (a : Z) : Z :=
  shortest_from a (Z.of_nat (String.length (pretty a))) (Z.of_nat <$> seq 1 17).

Fixpoint strip_zeros (s : string) : string :=
  match s with
  | "" => ""
  | String c s' =>
      match strip_zeros s' with
      | "" => if Ascii.eqb c "0" then "" else String c ""
      | t => String c t
      end
  end.

(** The form with an exponent: [1e+21], [1.1805916207174113e+21]. *)
Definition exponent_form (m : Z) : string :=
  let ds := pretty m in
  match strip_zeros ds with
  | String d rest => String d (match rest with "" => "" | _ => "." ++ rest end)
  | "" => "0"
  end ++ "e+" ++ pretty (String.length ds - 1).

(** [Number::toString] in radix 10 on the number [n] stands for: the
    fewest digits that read back as the same double, written out in full
    below 10^21 and with an exponent from there on. *)
Definition Number_toString (n : Z) : string :=
  match nearest_double n with
  | None => if (n <? 0)%Z then "-Infinity" else "Infinity"
  | Some d =>
      let m := shortest (Z.abs d) in
      (if (d <? 0)%Z then "-" else "")
      ++ (if (m <? 10 ^ 21)%Z then pretty m else exponent_form m)
  end.

(** *** [JSON.stringify] *)

(** The double quote, code unit 34. *)
Definition dquote : string := String (ascii_of_N 34) "".

Definition hex_digit (n : N) : ascii :=
  ascii_of_N (if (n <? 10)%N then 48 + n else 87 + n).

(** [QuoteJSONString] on one code unit. *)
Definition quote_char (c : ascii) : string :=
  let n := N_of_ascii c in
  if (n =? 34)%N then "\" ++ dquote
  else if (n =? 92)%N then "\\"
  else if (n =? 8)%N then "\b"
  else if (n =? 12)%N then "\f"
  else if (n =? 10)%N then "\n"
  else if (n =? 13)%N then "\r"
  else if (n =? 9)%N then "\t"
  else if (n <? 32)%N
       then "\u00" ++ String (hex_digit (n / 16)) (String (hex_digit (n mod 16)) "")
  else String c "".

Fixpoint quote_body (s : string) : string :=
  match s with
  | "" => ""
  | String c s' => quote_char c ++ quote_body s'
  end.

Definition quote (s : string) : string := dquote ++ quote_body s ++ dquote.

(** A text with every apostrophe turned into a double quote: a way to
    write JSON texts down. *)
Fixpoint js (s : string) : string :=
  match s with
  | "" => ""
  | String c s' => String (if Ascii.eqb c "'" then ascii_of_N 34 else c) (js s')
  end.

Fixpoint join (sep : string) (xs : list string) : string :=
  match xs with
  | [] => ""
  | [x] => x
  | x :: xs' => x ++ sep ++ join sep xs'
  end.

(** [None] is JavaScript's [undefined]: what [JSON.stringify] returns for
    [undefined] itself.  Inside an array [undefined] prints as [null];
    inside an object the property is left out.  A number that is not
    finite prints as [null]. *)
Fixpoint JSON_stringify (v : value) : option string :=
  match v with
  | VUndefined => None
  | VNull => Some "null"
  | VBool true => Some "true"
  | VBool false => Some "false"
  | VNum n =>
      Some (match nearest_double n with
            | Some _ => Number_toString n
            | None => "null"
            end)
  | VStr s => Some (quote s)
  | VArr xs =>
      Some ("[" ++ join "," (map (fun x => default "null" (JSON_stringify x)) xs) ++ "]")
  | VObj ps =>
      Some ("{" ++
            join "," (omap (fun p => match JSON_stringify p.2 with
                                     | Some s => Some (quote p.1 ++ ":" ++ s)
                                     | None => None
                                     end) ps)
            ++ "}")
  end.

End JS.

Export JS.

(* ===================================================================== *)
(** ** A reference decoder for JSON text *)
(* ===================================================================== *)

(** The cache facade below is stated over an arbitrary [JSON.parse].  This
    decoder instantiates it on concrete inputs: it reads the JSON texts
    whose numbers are integers written without an exponent and whose
    string escapes stay below code unit 256, which covers what
    [JSON_stringify] writes for values whose numbers are below 10^21. *)
Module JSONRef.

Definition is_ws (c : ascii) : bool :=
  let n := N_of_ascii c in
  ((n =? 32) || (n =? 9) || (n =? 10) || (n =? 13))%N.

Fixpoint skip_ws (s : string) : string :=
  match s with
  | String c s' => if is_ws c then skip_ws s' else s
  | "" => ""
  end.

Definition hex_val (c : ascii) : option N :=
  let n := N_of_ascii c in
  if ((48 <=? n) && (n <=? 57))%N then Some (n - 48)%N
  else if ((97 <=? n) && (n <=? 102))%N then Some (n - 87)%N
  else if ((65 <=? n) && (n <=? 70))%N then Some (n - 55)%N
  else None.

Definition unescape (e : ascii) : option ascii :=
  let n := N_of_ascii e in
  if (n =? 34)%N then Some e
  else if (n =? 92)%N then Some e
  else if (n =? 47)%N then Some e
  else if (n =? 98)%N then Some (ascii_of_N 8)
  else if (n =? 102)%N then Some (ascii_of_N 12)
  else if (n =? 110)%N then Some (ascii_of_N 10)
  else if (n =? 114)%N then Some (ascii_of_N 13)
  else if (n =? 116)%N then Some (ascii_of_N 9)
  else None.

(** The text after an opening quote: the decoded string and what follows
    the closing quote. *)
Fixpoint string_body (s : string) : option (string * string) :=
  match s with
  | "" => None
  | String c s' =>
      if (N_of_ascii c =? 34)%N then Some ("", s')
      else if (N_of_ascii c =? 92)%N then
        match s' with
        | String e s'' =>
            if (N_of_ascii e =? 117)%N then
              match s'' with
              | String h1 (String h2 (String h3 (String h4 s5))) =>
                  match hex_val h1, hex_val h2, hex_val h3, hex_val h4 with
                  | Some 0%N, Some 0%N, Some a, Some b =>
                      match string_body s5 with
                      | Some (r, rest) => Some (String (ascii_of_N (16 * a + b)) r, rest)
                      | None => None
                      end
                  | _, _, _, _ => None
                  end
              | _ => None
              end
            else
              match unescape e with
              | Some ch =>
                  match string_body s'' with
                  | Some (r, rest) => Some (String ch r, rest)
                  | None => None
                  end
              | None => None
              end
        | "" => None
        end
      else if (N_of_ascii c <? 32)%N then None
      else
        match string_body s' with
        | Some (r, rest) => Some (String c r, rest)
        | None => None
        end
  end.

Fixpoint digits (acc : N) (s : string) : N * string :=
  match s with
  | String c s' =>
      match digit_of c with
      | Some d => digits (10 * acc + d)%N s'
      | None => (acc, s)
      end
  | "" => (acc, "")
  end.

(** An integer without a fraction or an exponent. *)
Definition unsigned (s : string) : option (N * string) :=
  match s with
  | String c s' =>
      match digit_of c with
      | Some 0%N =>
          match s' with
          | String d _ =>
              match digit_of d with
              | Some _ => None
              | None => Some (0%N, s')
              end
          | "" => Some (0%N, "")
          end
      | Some d => Some (digits d s')
      | None => None
      end
  | "" => None
  end.

Definition number_end (rest : string) : bool :=
  match rest with
  | String c _ =>
      let n := N_of_ascii c in
      negb ((n =? 46) || (n =? 101) || (n =? 69))%N
  | "" => true
  end.

Definition number (s : string) : option (Z * string) :=
  match s with
  | String c s' =>
      if (N_of_ascii c =? 45)%N then
        match unsigned s' with
        | Some (n, rest) => if number_end rest then Some ((- Z.of_N n)%Z, rest) else None
        | None => None
        end
      else
        match unsigned s with
        | Some (n, rest) => if number_end rest then Some (Z.of_N n, rest) else None
        | None => None
        end
  | "" => None
  end.

Definition literal (word : string) (v : value) (s : string) : option (value * string) :=
  if String.prefix word s
  then Some (v, String.substring (String.length word) (String.length s - String.length word) s)
  else None.

Fixpoint value_at (fuel : nat) (s : string) : option (value * string) :=
  match fuel with
  | O => None
  | S fuel' =>
      match skip_ws s with
      | "" => None
      | String c s' =>
          let n := N_of_ascii c in
          if (n =? 34)%N then
            match string_body s' with
            | Some (str, rest) => Some (VStr str, rest)
            | None => None
            end
          else if (n =? 91)%N then
            match skip_ws s' with
            | String d r =>
                if (N_of_ascii d =? 93)%N then Some (VArr [], r)
                else match elements_at fuel' s' with
                     | Some (xs, rest) => Some (VArr xs, rest)
                     | None => None
                     end
            | "" => None
            end
          else if (n =? 123)%N then
            match skip_ws s' with
            | String d r =>
                if (N_of_ascii d =? 125)%N then Some (VObj [], r)
                else match members_at fuel' [] s' with
                     | Some (ps, rest) => Some (VObj ps, rest)
                     | None => None
                     end
            | "" => None
            end
          else if (n =? 110)%N then literal "null" VNull (String c s')
          else if (n =? 116)%N then literal "true" (VBool true) (String c s')
          else if (n =? 102)%N then literal "false" (VBool false) (String c s')
          else
            match number (String c s') with
            | Some (z, rest) => Some (VNum z, rest)
            | None => None
            end
      end
  end
with elements_at (fuel : nat) (s : string) : option (list value * string) :=
  match fuel with
  | O => None
  | S fuel' =>
      match value_at fuel' s with
      | Some (x, rest) =>
          match skip_ws rest with
          | String d r =>
              if (N_of_ascii d =? 93)%N then Some ([x], r)
              else if (N_of_ascii d =? 44)%N then
                match elements_at fuel' r with
                | Some (xs, rest') => Some (x :: xs, rest')
                | None => None
                end
              else None
          | "" => None
          end
      | None => None
      end
  end
with members_at (fuel : nat) (acc : props) (s : string) : option (props * string) :=
  match fuel with
  | O => None
  | S fuel' =>
      match skip_ws s with
      | String q s1 =>
          if (N_of_ascii q =? 34)%N then
            match string_body s1 with
            | Some (k, s2) =>
                match skip_ws s2 with
                | String colon s3 =>
                    if (N_of_ascii colon =? 58)%N then
                      match value_at fuel' s3 with
                      | Some (x, rest) =>
                          let acc' := obj_set acc k x in
                          match skip_ws rest with
                          | String d r =>
                              if (N_of_ascii d =? 125)%N then Some (acc', r)
                              else if (N_of_ascii d =? 44)%N then members_at fuel' acc' r
                              else None
                          | "" => None
                          end
                      | None => None
                      end
                    else None
                | "" => None
                end
            | None => None
            end
          else None
      | "" => None
      end
  end.

Definition JSON_parse (s : string) : option value :=
  match value_at (2 * String.length s + 2) s with
  | Some (v, rest) => match skip_ws rest with "" => Some v | _ => None end
  | None => None
  end.

End JSONRef.

(* ===================================================================== *)
(** ** Effects: exceptions, the process state and the storage tiers *)
(* ===================================================================== *)

Module Eff.

Inductive exn : Type :=
| NetworkError (tier : string)   (* transport failure of a networked tier *)
| ReplyError (msg : string)      (* error reply of the Redis server *)
| Unauthorized                   (* the REST endpoint refuses the token *)
| SyntaxError                    (* JSON.parse *)
| TypeError (msg : string)
| PrismaError (code : string)    (* durable tier; P2002 is the unique constraint *)
| Failure (msg : string).        (* raised by a caller-supplied computation *)

Inductive result (A : Type) : Type :=
| Ok (a : A)
| Throw (e : exn).
Arguments Ok {A} a.
Arguments Throw {A} e.

(** An async function: it reads and writes the state [S] and either returns
    or throws.  What was written before a throw stays written. *)
Definition M (S A : Type) : Type := S -> result A * S.

Definition ret {S A} (a : A) : M S A := fun s => (Ok a, s).

Definition throw {S A} (e : exn) : M S A := fun s => (Throw e, s).

Definition bind {S A B} (m : M S A) (k : A -> M S B) : M S B :=
  fun s =>
    match m s with
    | (Ok a, s') => k a s'
    | (Throw e, s') => (Throw e, s')
    end.

(** [try { m } catch (error) { h error }] *)
Definition try_catch {S A} (m : M S A) (h : exn -> M S A) : M S A :=
  fun s =>
    match m s with
    | (Ok a, s') => (Ok a, s')
    | (Throw e, s') => h e s'
    end.

Definition gets {S A} (f : S -> A) : M S A := fun s => (Ok (f s), s).

Definition modify {S} (f : S -> S) : M S unit := fun s => (Ok tt, f s).

Definition when {S} (b : bool) (m : M S unit) : M S unit :=
  if b then m else ret tt.

(** State after a run, and its outcome. *)
Definition exec {S A} (m : M S A) (s : S) : S := (m s).2.
Definition eval {S A} (m : M S A) (s : S) : result A := (m s).1.

End Eff.

Export Eff.

Declare Scope eff_scope.
Delimit Scope eff_scope with eff.
Notation "x <- m ;; k" := (bind m (fun x => k))
  (at level 100, m at next level, k at level 200, right associativity) : eff_scope.
Notation "m ;; k" := (bind m (fun _ => k))
  (at level 100, k at level 200, right associativity) : eff_scope.
Open Scope eff_scope.

(* ===================================================================== *)
(** ** The process state *)
(* ===================================================================== *)

Module Tiers.

(** [process.env], as the two modules read it at load time. *)
Record Config : Type := {
  ENABLE_CACHE : bool;                      (* ENABLE_CACHE === 'true' *)
  UPSTASH_REST_URL : option string;
  UPSTASH_REST_TOKEN : option string;
  DEFAULT_TTL : Z                           (* CACHE_TTL_SECONDS, default 300 *)
}.

Inductive CacheMode : Type := redis | lru | disabled.

Definition mode_eqb (a b : CacheMode) : bool :=
  match a, b with
  | redis, redis | lru, lru | disabled, disabled => true
  | _, _ => false
  end.

(** A key of a Redis database: the text and, when set with [EX], the time
    at which it expires. *)
Record entry : Type := { e_value : string; e_expires : option Z }.

(** An entry of the LRU cache: [l_start] is when its age was last reset,
    [l_ttl] its time to live in milliseconds (0: it never expires). *)
Record lru_entry : Type := {
  l_key : string; l_value : string; l_start : Z; l_ttl : Z
}.

(** A row of the [eventDedup] table. *)
Record DedupRecord : Type := {
  eventId : string; sourceService : string; expiresAt : Z
}.

Inductive tier : Type := Redis | Rest | Lru | Db.

(** One operation on a tier and whether it succeeded. *)
Record event : Type := Call {
  ev_tier : tier; ev_op : string; ev_key : string; ev_ok : bool
}.

Inductive line : Type :=
| Log (msg : string)
| Error (msg : string) (e : exn).

Record World : Type := {
  currentCacheMode : CacheMode;
  redisClient : bool;                 (* the ioredis client, or null *)
  redis_db : gmap string entry;       (* behind REDIS_URL *)
  upstash_db : gmap string entry;     (* behind UPSTASH_REDIS_REST_URL *)
  lruCache : list lru_entry;          (* most recently used first *)
  eventDedup : list DedupRecord;      (* the durable tier *)
  now : Z;
  faults : list bool;                 (* outcome of the next remote calls: true fails *)
  trace : list event;                 (* tier operations, newest first *)
  console : list line                 (* newest first *)
}.

Definition with_redis_db (f : gmap string entry -> gmap string entry) (w : World) : World :=
  {| currentCacheMode := currentCacheMode w; redisClient := redisClient w;
     redis_db := f (redis_db w); upstash_db := upstash_db w;
     lruCache := lruCache w; eventDedup := eventDedup w; now := now w;
     faults := faults w; trace := trace w; console := console w |}.

Definition with_upstash_db (f : gmap string entry -> gmap string entry) (w : World) : World :=
  {| currentCacheMode := currentCacheMode w; redisClient := redisClient w;
     redis_db := redis_db w; upstash_db := f (upstash_db w);
     lruCache := lruCache w; eventDedup := eventDedup w; now := now w;
     faults := faults w; trace := trace w; console := console w |}.

Definition with_lruCache (f : list lru_entry -> list lru_entry) (w : World) : World :=
  {| currentCacheMode := currentCacheMode w; redisClient := redisClient w;
     redis_db := redis_db w; upstash_db := upstash_db w;
     lruCache := f (lruCache w); eventDedup := eventDedup w; now := now w;
     faults := faults w; trace := trace w; console := console w |}.

Definition with_eventDedup (f : list DedupRecord -> list DedupRecord) (w : World) : World :=
  {| currentCacheMode := currentCacheMode w; redisClient := redisClient w;
     redis_db := redis_db w; upstash_db := upstash_db w;
     lruCache := lruCache w; eventDedup := f (eventDedup w); now := now w;
     faults := faults w; trace := trace w; console := console w |}.

Definition with_faults (f : list bool -> list bool) (w : World) : World :=
  {| currentCacheMode := currentCacheMode w; redisClient := redisClient w;
     redis_db := redis_db w; upstash_db := upstash_db w;
     lruCache := lruCache w; eventDedup := eventDedup w; now := now w;
     faults := f (faults w); trace := trace w; console := console w |}.

Definition with_trace (f : list event -> list event) (w : World) : World :=
  {| currentCacheMode := currentCacheMode w; redisClient := redisClient w;
     redis_db := redis_db w; upstash_db := upstash_db w;
     lruCache := lruCache w; eventDedup := eventDedup w; now := now w;
     faults := faults w; trace := f (trace w); console := console w |}.

Definition with_console (f : list line -> list line) (w : World) : World :=
  {| currentCacheMode := currentCacheMode w; redisClient := redisClient w;
     redis_db := redis_db w; upstash_db := upstash_db w;
     lruCache := lruCache w; eventDedup := eventDedup w; now := now w;
     faults := faults w; trace := trace w; console := f (console w) |}.

(** *** Bookkeeping *)

Definition emit (t : tier) (op key : string) (ok : bool) : M World unit :=
  modify (with_trace (cons (Call t op key ok))).

(** [console.log] and [console.error]: the newest line is first.  The
    texts are those of the source without the pictograph that starts some
    of them. *)
Definition console_log (msg : string) : M World unit :=
  modify (with_console (cons (Log msg))).

Definition console_error (msg : string) (e : exn) : M World unit :=
  modify (with_console (cons (Error msg e))).

(** Whether the next call to a remote tier fails in transport.  Once the
    schedule is used up every call goes through. *)
Definition draw : M World bool :=
  fun w => (Ok (default false (head (faults w))), with_faults tail w).

(** A remote call on tier [t]: it throws [e] when transport fails, and
    otherwise runs [body]. *)
Definition remote {A} (t : tier) (op key : string) (e : exn) (body : M World A) : M World A :=
  failed <- draw ;;
  if failed then emit t op key false ;; throw e
  else body.

(** *** A Redis database *)

Definition live (t : Z) (e : entry) : bool :=
  match e_expires e with
  | Some x => (t <? x)%Z
  | None => true
  end.

Definition db_get (t : Z) (db : gmap string entry) (key : string) : option string :=
  match db !! key with
  | Some e => if live t e then Some (e_value e) else None
  | None => None
  end.

Definition db_keys (t : Z) (db : gmap string entry) : list string :=
  (filter (fun p => live t p.2 = true) (map_to_list db)).*1.

(** Glob patterns of the [KEYS] command: [*], [?], [[...]] with ranges and
    [^], and [\] to quote. *)
Definition ascii_leb (a b : ascii) : bool := (N_of_ascii a <=? N_of_ascii b)%N.

Fixpoint glob_class (p : string) (c : ascii) (hit : bool) : bool * string :=
  match p with
  | "" => (hit, "")
  | String a p1 =>
      match p1 with
      | String b p2 =>
          if Ascii.eqb a "\" then glob_class p2 c (hit || Ascii.eqb b c)
          else if Ascii.eqb a "]" then (hit, p1)
          else if Ascii.eqb b "-" then
            match p2 with
            | String z p3 =>
                let lo := if ascii_leb a z then a else z in
                let hi := if ascii_leb a z then z else a in
                glob_class p3 c (hit || (ascii_leb lo c && ascii_leb c hi))
            | "" => glob_class p1 c (hit || Ascii.eqb a c)
            end
          else glob_class p1 c (hit || Ascii.eqb a c)
      | "" =>
          if Ascii.eqb a "]" then (hit, "") else (hit || Ascii.eqb a c, "")
      end
  end.

Fixpoint skip_stars (p : string) : string :=
  match p with
  | String a p' => if Ascii.eqb a "*" then skip_stars p' else p
  | "" => ""
  end.

Fixpoint glob_go (fuel : nat) (p s : string) : bool :=
  match fuel with
  | O => false
  | S fuel' =>
      match p with
      | "" => match s with "" => true | _ => false end
      | String a p' =>
          if Ascii.eqb a "*" then
            match skip_stars p' with
            | "" => true
            | rest =>
                (fix try (s : string) : bool :=
                   glob_go fuel' rest s ||
                   match s with "" => false | String _ s' => try s' end) s
            end
          else
            match s with
            | "" => false
            | String c s' =>
                if Ascii.eqb a "?" then glob_go fuel' p' s'
                else if Ascii.eqb a "[" then
                  let neg := match p' with String x _ => Ascii.eqb x "^" | "" => false end in
                  let body := if neg then match p' with String _ r => r | "" => "" end else p' in
                  let '(hit, rest) := glob_class body c false in
                  if xorb hit neg then glob_go fuel' rest s' else false
                else
                  match p' with
                  | String e p'' =>
                      if Ascii.eqb a "\" then Ascii.eqb e c && glob_go fuel' p'' s'
                      else Ascii.eqb a c && glob_go fuel' p' s'
                  | "" => Ascii.eqb a c && glob_go fuel' p' s'
                  end
            end
      end
  end.

(** The server's matcher does not enter its loop on an empty key, which
    therefore matches the empty pattern only. *)
Definition glob (p s : string) : bool :=
  match s with
  | "" => match p with "" => true | _ => false end
  | _ => glob_go (S (String.length p)) p s
  end.

(** *** The persistent-connection tier (ioredis) *)

(** ioredis sends an absent argument as the empty string. *)
Definition wire (o : option string) : string := default "" o.

Definition redis_get (key : string) : M World (option string) :=
  remote Redis "get" key (NetworkError "redis")
    (emit Redis "get" key true ;;
     w <- gets (fun w => w) ;;
     ret (db_get (now w) (redis_db w) key)).

(** [SET key value EX ttl]; the server refuses a time to live that is not
    positive. *)
Definition redis_set (key : string) (value : option string) (ttl : Z) : M World unit :=
  remote Redis "set" key (NetworkError "redis")
    (if (ttl <=? 0)%Z
     then emit Redis "set" key false ;;
          throw (ReplyError "ERR invalid expire time in 'set' command")
     else emit Redis "set" key true ;;
          t <- gets now ;;
          modify (with_redis_db
                    (insert key {| e_value := wire value;
                                   e_expires := Some (t + ttl * 1000)%Z |}))).

Definition redis_keys (pattern : string) : M World (list string) :=
  remote Redis "keys" pattern (NetworkError "redis")
    (emit Redis "keys" pattern true ;;
     w <- gets (fun w => w) ;;
     ret (filter (fun k => glob pattern k = true) (db_keys (now w) (redis_db w)))).

Definition redis_del (keys : list string) : M World unit :=
  remote Redis "del" (join " " keys) (NetworkError "redis")
    (emit Redis "del" (join " " keys) true ;;
     modify (with_redis_db (fun db => foldr delete db keys))).

(** *** The REST endpoint, as [fetch] reaches it

    [fetch] throws on a transport failure only; an error reply of the
    server is an ordinary response without a [result]. *)

(** GET {url}/get/{key}, then [data.result].  The key goes into the path
    of the URL as it is, so the endpoint is not always asked for [key]:
    [fetch] drops what follows a [#], the endpoint takes what follows a
    [?] for a query, splits the path at every [/] (and [fetch] turns a [\]
    into a [/]) and decodes [%xx].  [path_key key] is the key the endpoint
    looks up; it is [None] when the request is not a GET of one key and
    the reply carries no [result]. *)
Definition fetch_get (path_key : string -> option string) (key : string)
  : M World (option string) :=
  remote Rest "GET" key (NetworkError "fetch")
    (emit Rest "GET" key true ;;
     w <- gets (fun w => w) ;;
     ret (match path_key key with
          | Some k => db_get (now w) (upstash_db w) k
          | None => None
          end)).

(** POST of [["SET", key, value]] or [["SET", key, value, "EX", ttl]].  A
    missing value or a time to live that is not positive is answered with
    an error and stores nothing. *)
Definition fetch_set (key : string) (value : option string) (ex : option Z) : M World unit :=
  remote Rest "SET" key (NetworkError "fetch")
    (t <- gets now ;;
     match value, ex with
     | Some v, None =>
         emit Rest "SET" key true ;;
         modify (with_upstash_db (insert key {| e_value := v; e_expires := None |}))
     | Some v, Some ttl =>
         if (ttl <=? 0)%Z then emit Rest "SET" key false
         else emit Rest "SET" key true ;;
              modify (with_upstash_db
                        (insert key {| e_value := v;
                                       e_expires := Some (t + ttl * 1000)%Z |}))
     | None, _ => emit Rest "SET" key false
     end).

(** *** The same endpoint through the @upstash/redis client

    The client throws on a transport failure and when the server refuses
    the token; the dedup service passes the empty token when none is
    configured. *)

Definition upstash_get (token : option string) (key : string) : M World (option string) :=
  remote Rest "get" key (NetworkError "upstash")
    (if truthy token
     then emit Rest "get" key true ;;
          w <- gets (fun w => w) ;;
          ret (db_get (now w) (upstash_db w) key)
     else emit Rest "get" key false ;; throw Unauthorized).

Definition upstash_set (token : option string) (key value : string) (ex : Z) : M World unit :=
  remote Rest "set" key (NetworkError "upstash")
    (if truthy token
     then emit Rest "set" key true ;;
          t <- gets now ;;
          modify (with_upstash_db
                    (insert key {| e_value := value;
                                   e_expires := Some (t + ex * 1000)%Z |}))
     else emit Rest "set" key false ;; throw Unauthorized).

(** The client decodes what it reads as JSON; these texts decode to a
    falsy value. *)
Definition truthy_decoded (o : option string) : bool :=
  match o with
  | Some s => negb (bool_decide (s ∈ [""; "0"; "-0"; "false"; "null"; dquote ++ dquote]))
  | None => false
  end.

(** *** The in-process tier (lru-cache)

    Configured with [max: 500], [maxSize: 50 * 1024 * 1024],
    [sizeCalculation: value => value.length] and [updateAgeOnGet: true]. *)

Definition lru_max : nat := 500.
Definition lru_maxSize : Z := 50 * 1024 * 1024.

Definition lru_size (e : lru_entry) : Z := Z.of_nat (String.length (l_value e)).

(** An entry is stale once it is older than its time to live. *)
Definition lru_stale (t : Z) (e : lru_entry) : bool :=
  negb (l_ttl e =? 0)%Z && (l_ttl e <? t - l_start e)%Z.

Definition lru_remove (key : string) (c : list lru_entry) : list lru_entry :=
  filter (fun e => l_key e <> key) c.

Definition lru_find (key : string) (c : list lru_entry) : option lru_entry :=
  List.find (fun e => String.eqb (l_key e) key) c.

(** What is left after evicting from the least recently used end until
    there is room for one more entry and [budget] units of size. *)
Fixpoint lru_fit (room : nat) (budget : Z) (c : list lru_entry) : list lru_entry :=
  match c, room with
  | e :: c', S room' =>
      if (lru_size e <=? budget)%Z
      then e :: lru_fit room' (budget - lru_size e) c'
      else []
  | _, _ => []
  end.

(** [lruCache.get(key)]: a stale entry is dropped and reads as absent; a
    fresh one becomes the most recently used and its age is reset. *)
Definition lru_get (key : string) : M World (option string) :=
  emit Lru "get" key true ;;
  w <- gets (fun w => w) ;;
  match lru_find key (lruCache w) with
  | None => ret None
  | Some e =>
      if lru_stale (now w) e
      then modify (with_lruCache (lru_remove key)) ;; ret None
      else modify (with_lruCache
                     (fun c => {| l_key := key; l_value := l_value e;
                                  l_start := now w; l_ttl := l_ttl e |}
                               :: lru_remove key c)) ;;
           ret (Some (l_value e))
  end.

(** [lruCache.set(key, value, { ttl })].  An [undefined] value deletes the
    key; a size that is not positive is a [TypeError]; an entry larger than
    [maxSize] is not stored and the key is deleted. *)
Definition lru_set (key : string) (value : option string) (ttl : Z) : M World unit :=
  match value with
  | None => emit Lru "set" key true ;; modify (with_lruCache (lru_remove key))
  | Some v =>
      let size := Z.of_nat (String.length v) in
      if (size =? 0)%Z
      then emit Lru "set" key false ;;
           throw (TypeError "sizeCalculation return invalid (expect positive integer)")
      else if (lru_maxSize <? size)%Z
      then emit Lru "set" key true ;; modify (with_lruCache (lru_remove key))
      else emit Lru "set" key true ;;
           t <- gets now ;;
           modify (with_lruCache
                     (fun c => {| l_key := key; l_value := v; l_start := t; l_ttl := ttl |}
                               :: lru_fit (lru_max - 1) (lru_maxSize - size) (lru_remove key c)))
  end.

Definition lru_delete (key : string) : M World unit :=
  emit Lru "delete" key true ;; modify (with_lruCache (lru_remove key)).

(** [lruCache.keys()]: the keys that are not stale, most recent first. *)
Definition lru_keys : M World (list string) :=
  emit Lru "keys" "" true ;;
  w <- gets (fun w => w) ;;
  ret (l_key <$> filter (fun e => lru_stale (now w) e = false) (lruCache w)).

(** [key.includes(pattern)] *)
Fixpoint includes (s pattern : string) : bool :=
  String.prefix pattern s ||
  match s with
  | "" => false
  | String _ s' => includes s' pattern
  end.

(** *** The durable tier (Prisma, table [eventDedup]) *)

Definition prisma_findUnique (id : string) : M World (option DedupRecord) :=
  remote Db "findUnique" id (PrismaError "P1001")
    (emit Db "findUnique" id true ;;
     rows <- gets eventDedup ;;
     ret (List.find (fun r => String.eqb (eventId r) id) rows)).

(** Modelled from the spec: the schema of [eventDedup] is not part of the
    sources; the specification names the unique-key constraint on
    [eventId] as what refuses a second insert of the same id. *)
Definition prisma_create (r : DedupRecord) : M World unit :=
  remote Db "create" (eventId r) (PrismaError "P1001")
    (rows <- gets eventDedup ;;
     if existsb (fun x => String.eqb (eventId x) (eventId r)) rows
     then emit Db "create" (eventId r) false ;; throw (PrismaError "P2002")
     else emit Db "create" (eventId r) true ;;
          modify (with_eventDedup (fun rows => (rows ++ [r])%list))).

(** [deleteMany({ where: { expiresAt: { lt } } })]; returns [count]. *)
Definition prisma_deleteMany_lt (t : Z) : M World Z :=
  remote Db "deleteMany" "" (PrismaError "P1001")
    (emit Db "deleteMany" "" true ;;
     rows <- gets eventDedup ;;
     modify (with_eventDedup (filter (fun r => (expiresAt r <? t)%Z = false))) ;;
     ret (Z.of_nat (List.length (filter (fun r => (expiresAt r <? t)%Z = true) rows)))).

End Tiers.

Export Tiers.

(* ===================================================================== *)
(** ** The cache utility (hybrid Redis + LRU) *)
(* ===================================================================== *)

Module Cache.

(** [generateCacheKey(namespace, params)] *)
Definition generateCacheKey (namespace : string) (params : props) : string :=
  let sortedParams :=
    foldl (fun acc key => obj_set (obj_spread acc) key (obj_get params key))
          [] (Array_sort (Object_keys params)) in
  "audit:" ++ namespace ++ ":" ++ template (JSON_stringify (VObj sortedParams)).

(** [generateUserCacheKey(namespace, userId, userRole, params = {})] *)
Definition generateUserCacheKey (namespace userId userRole : string) (params : props) : string :=
  generateCacheKey namespace
    (obj_set (obj_set (obj_spread params) "userId" (VStr userId)) "userRole" (VStr userRole)).

(** [a || b] on numbers: [undefined] and 0 are falsy. *)
Definition or_default (o : option Z) (d : Z) : Z :=
  match o with
  | Some 0%Z => d
  | Some t => t
  | None => d
  end.

Fixpoint forEach {A} (f : A -> M World unit) (xs : list A) : M World unit :=
  match xs with
  | [] => ret tt
  | x :: xs' => f x ;; forEach f xs'
  end.

Section Facade.

Context (cfg : Config).

(** The key the REST endpoint is asked for when [key] is put in the path
    of the URL, see [fetch_get]. *)
Context (path_key : string -> option string).

(** [JSON.parse]: [None] stands for the [SyntaxError] it throws. *)
Context (JSON_parse : string -> option value).

Definition parse (text : option string) : M World value :=
  match text with
  | Some s =>
      match JSON_parse s with
      | Some v => ret v
      | None => throw SyntaxError
      end
  | None => throw SyntaxError
  end.

Definition rest_configured : bool :=
  truthy (UPSTASH_REST_URL cfg) && truthy (UPSTASH_REST_TOKEN cfg).

Definition restGet (key : string) : M World (option string) :=
  if negb (truthy (UPSTASH_REST_URL cfg)) || negb (truthy (UPSTASH_REST_TOKEN cfg))
  then ret None
  else
    try_catch
      (result <- fetch_get path_key key ;;
       ret (if truthy result then result else None))
      (fun error => console_error "REST GET error:" error ;; ret None).

Definition restSet (key : string) (value : option string) (ttl : option Z) : M World unit :=
  if negb (truthy (UPSTASH_REST_URL cfg)) || negb (truthy (UPSTASH_REST_TOKEN cfg))
  then ret tt
  else
    try_catch
      (fetch_set key value
         (match ttl with
          | Some 0%Z => None
          | Some t => Some t
          | None => None
          end))
      (fun error => console_error "REST SET error:" error).

Definition getCache (key : string) : M World value :=
  if negb (ENABLE_CACHE cfg) then ret VNull
  else
    try_catch
      ((* Try Redis first *)
       mode <- gets currentCacheMode ;;
       client <- gets redisClient ;;
       hit <- (if mode_eqb mode redis && client
               then value <- redis_get key ;;
                    if truthy value
                    then console_log ("Cache hit (Redis): " ++ key) ;;
                         v <- parse value ;;
                         ret (Some v)
                    else ret None
               else ret None) ;;
       match hit with
       | Some v => ret v
       | None =>
           (* Try REST API fallback *)
           mode <- gets currentCacheMode ;;
           hit <- (if mode_eqb mode lru && truthy (UPSTASH_REST_URL cfg)
                   then value <- restGet key ;;
                        if truthy value
                        then console_log ("Cache hit (REST): " ++ key) ;;
                             v <- parse value ;;
                             ret (Some v)
                        else ret None
                   else ret None) ;;
           match hit with
           | Some v => ret v
           | None =>
               (* Try LRU cache *)
               lruValue <- lru_get key ;;
               if truthy lruValue
               then console_log ("Cache hit (LRU): " ++ key) ;;
                    parse lruValue
               else console_log ("Cache miss: " ++ key) ;;
                    ret VNull
           end
       end)
      (fun error => console_error "Cache get error:" error ;; ret VNull).

Definition setCache (key : string) (value : value) (ttlInSeconds : option Z) : M World unit :=
  if negb (ENABLE_CACHE cfg) then ret tt
  else
    try_catch
      (let stringValue := JSON_stringify value in
       let ttl := or_default ttlInSeconds (DEFAULT_TTL cfg) in
       (* Set in Redis *)
       mode <- gets currentCacheMode ;;
       client <- gets redisClient ;;
       when (mode_eqb mode redis && client)
            (redis_set key stringValue ttl ;;
             console_log ("Cached (Redis): " ++ key ++ " [TTL: " ++ pretty ttl ++ "s]")) ;;
       (* Set in REST API *)
       mode <- gets currentCacheMode ;;
       when (mode_eqb mode lru && truthy (UPSTASH_REST_URL cfg))
            (restSet key stringValue (Some ttl) ;;
             console_log ("Cached (REST): " ++ key ++ " [TTL: " ++ pretty ttl ++ "s]")) ;;
       (* Always set in LRU as additional fallback *)
       lru_set key stringValue (ttl * 1000) ;;
       mode <- gets currentCacheMode ;;
       when (mode_eqb mode lru)
            (console_log ("Cached (LRU): " ++ key ++ " [TTL: " ++ pretty ttl ++ "s]")))
      (fun error => console_error "Cache set error:" error).

Definition invalidatePattern (pattern : string) : M World Z :=
  mode <- gets currentCacheMode ;;
  client <- gets redisClient ;;
  if negb (ENABLE_CACHE cfg) || negb (mode_eqb mode redis) || negb client
  then
    (* For LRU, clear all matching keys *)
    if mode_eqb mode lru
    then all <- lru_keys ;;
         let keys := filter (fun key => includes key pattern = true) all in
         forEach lru_delete keys ;;
         console_log ("Invalidated " ++ pretty (List.length keys)
                      ++ " cache keys (LRU) matching: " ++ pattern) ;;
         ret (Z.of_nat (List.length keys))
    else ret 0%Z
  else
    try_catch
      (keys <- redis_keys pattern ;;
       when (0 <? List.length keys)%nat
            (redis_del keys ;;
             console_log ("Invalidated " ++ pretty (List.length keys)
                          ++ " cache keys (Redis) matching: " ++ pattern)) ;;
       ret (Z.of_nat (List.length keys)))
      (fun error => console_error "Cache invalidation error:" error ;; ret 0%Z).

Definition invalidateService (serviceName : string) : M World Z :=
  invalidatePattern ("audit:*serviceName*" ++ serviceName ++ "*").

Definition invalidateSummaries : M World Z := invalidatePattern "audit:summaries:*".

Definition invalidateStats : M World Z := invalidatePattern "audit:stats:*".

Definition invalidateRecent : M World Z := invalidatePattern "audit:recent:*".

(** [withCache(key, fetchFunction, ttl)]: what [fetchFunction] throws is
    not caught here. *)
Definition withCache (key : string) (fetchFunction : M World value) (ttl : option Z) : M World value :=
  cached <- getCache key ;;
  if negb (is_null cached) then ret cached
  else
    data <- fetchFunction ;;
    setCache key data ttl ;;
    ret data.

End Facade.

End Cache.

(* ===================================================================== *)
(** ** The dedup service *)
(* ===================================================================== *)

Module Dedup.

(** [expiresAt.setDate(expiresAt.getDate() + days)], in a time zone
    without clock changes. *)
Definition addDays (t days : Z) : Z := (t + days * 86400000)%Z.

Section Service.

Context (cfg : Config).

(** The @upstash/redis client, created when caching is enabled and the
    REST URL is set. *)
Definition redisClient : bool :=
  ENABLE_CACHE cfg && truthy (UPSTASH_REST_URL cfg).

Definition token : option string := UPSTASH_REST_TOKEN cfg.

Definition isDuplicate (eventId sourceService : string) : M World bool :=
  if negb (truthy_string eventId) then ret false
  else
    try_catch
      (hit <- (if redisClient
               then let key := "audit:dedup:" ++ eventId in
                    exists_ <- upstash_get token key ;;
                    if truthy_decoded exists_
                    then console_log ("[Dedup] Duplicate event detected (Redis): " ++ eventId) ;;
                         ret true
                    else ret false
               else ret false) ;;
       if hit : bool then ret true
       else
         existing <- prisma_findUnique eventId ;;
         match existing with
         | Some _ =>
             console_log ("[Dedup] Duplicate event detected (DB): " ++ eventId) ;;
             when redisClient
                  (let key := "audit:dedup:" ++ eventId in
                   upstash_set token key "1" 3600) ;;
             ret true
         | None => ret false
         end)
      (fun error => console_error "[Dedup] Error checking duplicate:" error ;; ret false).

Definition markAsProcessed (eventId sourceService : string) : M World unit :=
  if negb (truthy_string eventId) then ret tt
  else
    try_catch
      (t <- gets now ;;
       let expiresAt := addDays t 7 in
       prisma_create {| Tiers.eventId := eventId;
                        Tiers.sourceService := sourceService;
                        Tiers.expiresAt := expiresAt |} ;;
       when redisClient
            (let key := "audit:dedup:" ++ eventId in
             upstash_set token key "1" 604800) ;;
       console_log ("[Dedup] Event marked as processed: " ++ eventId))
      (fun error => console_error "[Dedup] Error marking event as processed:" error).

Definition cleanupExpired : M World Z :=
  try_catch
    (t <- gets now ;;
     count <- prisma_deleteMany_lt t ;;
     console_log ("[Dedup] Cleaned up " ++ pretty count ++ " expired dedup records") ;;
     ret count)
    (fun error => console_error "[Dedup] Error cleaning up expired records:" error ;; ret 0%Z).

End Service.

End Dedup.

(* ===================================================================== *)
(** ** What the specification talks about *)
(* ===================================================================== *)

Module Spec.

Import Cache.

(** The order in which an object built from scratch enumerates its keys:
    array indices first, by numeric value; then the other keys, here by
    code units because that is the order in which they get created. *)
Definition key_le (k1 k2 : string) : Prop :=
  match array_index k1, array_index k2 with
  | Some a, Some b => (a <= b)%N
  | Some _, None => True
  | None, Some _ => False
  | None, None => String.le k1 k2
  end.

Definition pair_le (p q : string * value) : Prop := key_le p.1 q.1.

#[global] Instance key_le_dec : RelDecision key_le.
Proof.
  intros k1 k2. unfold key_le.
  destruct (array_index k1), (array_index k2); apply _.
Defined.

#[global] Instance pair_le_dec : RelDecision pair_le.
Proof. intros p q. unfold pair_le. apply _. Defined.

(** The properties of [params] in enumeration order. *)
Definition property_order (params : props) : props := merge_sort pair_le params.

(** The specification's wording: the parameters with their keys sorted
    lexicographically. *)
Definition sorted_by_key (params : props) : props :=
  (fun k => (k, obj_get params k)) <$> Array_sort (Object_keys params).

Definition generateCacheKey_spec (namespace : string) (params : props) : string :=
  "audit:" ++ namespace ++ ":" ++ template (JSON_stringify (VObj (sorted_by_key params))).

(** *** Runs and tiers *)

(** No remote call is scheduled to fail. *)
Definition quiet (w : World) : Prop := Forall (fun b => b = false) (faults w).

Definition failed (e : event) : Prop := ev_ok e = false.

(** Some tier operation failed between [w] and [w']. *)
Definition raised (w w' : World) : Prop :=
  exists new, trace w' = (new ++ trace w)%list /\ Exists failed new.

(** The trace [cur] is [old] plus newer events that all satisfy [P]. *)
Definition grown (P : event -> Prop) (old cur : list event) : Prop :=
  exists new, cur = (new ++ old)%list /\ Forall P new.

(** Tier operations ran between [w] and [w'], and none failed. *)
Definition clean (w w' : World) : Prop :=
  grown (fun e => ev_ok e = true) (trace w) (trace w').

(** A hit is a text that is not empty. *)
Definition hit (o : option string) : option string :=
  if truthy o then o else None.

(** What the in-process tier holds for [key] and has not gone stale. *)
Definition lru_peek (t : Z) (c : list lru_entry) (key : string) : option string :=
  match lru_find key c with
  | Some e => if lru_stale t e then None else Some (l_value e)
  | None => None
  end.

Section Order.

Context (cfg : Config).

(** The first hit in the order the code consults the tiers. *)
Definition first_hit (w : World) (key : string) : option string :=
  let primary :=
    if mode_eqb (currentCacheMode w) redis && redisClient w
    then hit (db_get (now w) (redis_db w) key) else None in
  match primary with
  | Some s => Some s
  | None =>
      let http :=
        if mode_eqb (currentCacheMode w) lru && rest_configured cfg
        then hit (db_get (now w) (upstash_db w) key) else None in
      match http with
      | Some s => Some s
      | None => hit (lru_peek (now w) (lruCache w) key)
      end
  end.

(** The first hit in the order the specification words it: the HTTP tier
    is tried whenever the persistent-connection tier gave nothing and the
    HTTP tier is configured. *)
Definition first_hit_claimed (w : World) (key : string) : option string :=
  let primary :=
    if mode_eqb (currentCacheMode w) redis && redisClient w
    then hit (db_get (now w) (redis_db w) key) else None in
  match primary with
  | Some s => Some s
  | None =>
      let http :=
        if rest_configured cfg
        then hit (db_get (now w) (upstash_db w) key) else None in
      match http with
      | Some s => Some s
      | None => hit (lru_peek (now w) (lruCache w) key)
      end
  end.

(** The HTTP tier, when [getCache] asks it at all, is asked for [key]
    itself: in Fallback mode with the HTTP tier configured the key goes
    through the URL unchanged. *)
Definition own_key (path_key : string -> option string) (mode : CacheMode) (key : string)
  : Prop :=
  mode = lru -> rest_configured cfg = true -> path_key key = Some key.

(** The value [getCache] owes for a first hit. *)
Definition deserialized (JSON_parse : string -> option value) (h : option string) : value :=
  match h with
  | Some s => default VNull (JSON_parse s)
  | None => VNull
  end.

End Order.

(** A reference for [path_key] on the keys of the scenarios.  A key made
    of letters, digits, [:], [-] and [_] reaches the endpoint as it is.
    When such a text is followed by [#] or [?] the endpoint is asked for
    the text before it.  Every other key is left without an answer here:
    the scenarios use none. *)
Definition path_char (c : ascii) : bool :=
  let n := N_of_ascii c in
  ((48 <=? n) && (n <=? 58) || (65 <=? n) && (n <=? 90) || (97 <=? n) && (n <=? 122)
   || (n =? 45) || (n =? 95))%N.

Fixpoint path_cut (s : string) : option string :=
  match s with
  | "" => Some ""
  | String c s' =>
      if path_char c
      then match path_cut s' with Some k => Some (String c k) | None => None end
      else if Ascii.eqb c "#" || Ascii.eqb c "?" then Some ""
      else None
  end.

Definition path_key_ref (key : string) : option string :=
  match path_cut key with
  | Some "" => None
  | o => o
  end.

(** A text the in-process tier accepts. *)
Definition fits (s : string) : Prop := (Z.of_nat (String.length s) <= lru_maxSize)%Z.

(** *** Scenarios *)

Definition cfg_plain : Config :=
  {| ENABLE_CACHE := true; UPSTASH_REST_URL := None; UPSTASH_REST_TOKEN := None;
     DEFAULT_TTL := 300 |}.

Definition cfg_rest : Config :=
  {| ENABLE_CACHE := true;
     UPSTASH_REST_URL := Some "https://cache.example.upstash.io";
     UPSTASH_REST_TOKEN := Some "token";
     DEFAULT_TTL := 300 |}.

(** A process that has just started in the given mode, with every tier
    empty and the given schedule of transport failures. *)
Definition boot (mode : CacheMode) (fs : list bool) : World :=
  {| currentCacheMode := mode;
     redisClient := mode_eqb mode redis;
     redis_db := ∅; upstash_db := ∅; lruCache := []; eventDedup := [];
     now := 1700000000000; faults := fs; trace := []; console := [] |}.

Definition sample_value : value :=
  VObj [("total", VNum 3); ("services", VArr [VStr "finance"; VStr "hr"])].

Definition sample_text : string := js "{'total':3,'services':['finance','hr']}".

(** A text of [n] times the letter x. *)
Fixpoint filler (n : nat) : string :=
  match n with
  | O => ""
  | S n' => String "x" (filler n')
  end.

(** A string whose JSON text is longer than the in-process tier takes. *)
Definition oversized_value : value := VStr (filler (N.to_nat 52428801)).

(** Three keys, as the specification's example sets them. *)
Definition three_keys (cfg : Config) (mode : CacheMode) : World :=
  exec (Cache.setCache cfg "audit:stats:a" (VNum 1) None ;;
        Cache.setCache cfg "audit:stats:b" (VNum 2) None ;;
        Cache.setCache cfg "audit:other:c" (VNum 3) None)
       (boot mode []).

(** A table with one record past its expiry, one expiring now and one
    still to expire. *)
Definition sweep_world : World :=
  with_eventDedup
    (fun _ => [ {| eventId := "evt-old"; sourceService := "finance";
                   expiresAt := 1699999999999 |};
                {| eventId := "evt-now"; sourceService := "hr";
                   expiresAt := 1700000000000 |};
                {| eventId := "evt-new"; sourceService := "finance";
                   expiresAt := 1700604800000 |} ])
    (boot lru []).

End Spec.

Export Spec.

(* ===================================================================== *)
(** ** The cache utility: deleting and clearing *)
(* ===================================================================== *)

Module CacheOps.

Import Cache.

(** POST of [["DEL", key]] to the REST endpoint. *)
Definition fetch_del (key : string) : M World unit :=
  remote Rest "DEL" key (NetworkError "fetch")
    (emit Rest "DEL" key true ;;
     modify (with_upstash_db (delete key))).

(** [redisClient.flushdb()] *)
Definition redis_flushdb : M World unit :=
  remote Redis "flushdb" "" (NetworkError "redis")
    (emit Redis "flushdb" "" true ;;
     modify (with_redis_db (fun _ => ∅))).

(** [lruCache.clear()] *)
Definition lru_clear : M World unit :=
  emit Lru "clear" "" true ;; modify (with_lruCache (fun _ => [])).

(** The same process at time [t]: the clock is the only thing that moved. *)
Definition later (t : Z) (w : World) : World :=
  {| currentCacheMode := currentCacheMode w; redisClient := redisClient w;
     redis_db := redis_db w; upstash_db := upstash_db w;
     lruCache := lruCache w; eventDedup := eventDedup w; now := t;
     faults := faults w; trace := trace w; console := console w |}.

Section Facade.

Context (cfg : Config).

Definition restDel (key : string) : M World unit :=
  if negb (truthy (UPSTASH_REST_URL cfg)) || negb (truthy (UPSTASH_REST_TOKEN cfg))
  then ret tt
  else
    try_catch
      (fetch_del key)
      (fun error => console_error "REST DEL error:" error).

Definition deleteCache (key : string) : M World unit :=
  if negb (ENABLE_CACHE cfg) then ret tt
  else
    try_catch
      ((* Delete from Redis *)
       mode <- gets currentCacheMode ;;
       client <- gets redisClient ;;
       when (mode_eqb mode redis && client) (redis_del [key]) ;;
       (* Delete from REST API *)
       mode <- gets currentCacheMode ;;
       when (mode_eqb mode lru && truthy (UPSTASH_REST_URL cfg)) (restDel key) ;;
       (* Delete from LRU *)
       lru_delete key ;;
       console_log ("Deleted cache: " ++ key))
      (fun error => console_error "Cache delete error:" error).

Definition clearAll : M World unit :=
  if negb (ENABLE_CACHE cfg) then ret tt
  else
    try_catch
      ((* Clear Redis *)
       mode <- gets currentCacheMode ;;
       client <- gets redisClient ;;
       when (mode_eqb mode redis && client)
            (redis_flushdb ;;
             console_log "Cleared all Redis cache") ;;
       (* Clear LRU *)
       lru_clear ;;
       console_log "Cleared all LRU cache")
      (fun error => console_error "Cache clear error:" error).

End Facade.

End CacheOps.

(* ===================================================================== *)
(** ** Glob patterns and user keys: auxiliary notions *)
(* ===================================================================== *)

Module Patterns.

(** A character that stands for itself in a glob pattern. *)
Definition plain_char (a : ascii) : bool :=
  negb (Ascii.eqb a "*" || Ascii.eqb a "?" || Ascii.eqb a "[" || Ascii.eqb a "\").

(** A text without glob metacharacters. *)
Fixpoint plain (s : string) : bool :=
  match s with
  | "" => true
  | String a s' => plain_char a && plain s'
  end.

(** What an invalidation by prefix owes in the persistent-connection
    tier: between [w] and [w'] every key that starts with [prefix] is
    gone and every other key is as it was. *)
Definition cleared (prefix : string) (w w' : World) : Prop :=
  (forall rest, db_get (now w') (redis_db w') (prefix ++ rest) = None) /\
  (forall k, (forall rest, k <> prefix ++ rest) -> redis_db w' !! k = redis_db w !! k).

End Patterns.

Module UserKeys.

(** The two properties [generateUserCacheKey] adds. *)
Definition user_entries (userId userRole : string) : props :=
  [("userId", VStr userId); ("userRole", VStr userRole)].

(** The properties of [params] other than [userId] and [userRole]. *)
Definition own_params (params : list (string * value)) : props :=
  filter (fun q => q.1 <> "userId" /\ q.1 <> "userRole") params.

(** The text of one property, as [JSON.stringify] prints it. *)
Definition entry_text (p : string * value) : option string :=
  match JSON_stringify p.2 with
  | Some s => Some (quote p.1 ++ ":" ++ s)
  | None => None
  end.

(** The user of a property list replaced by another. *)
Definition as_user (u r : string) (p : string * value) : string * value :=
  if String.eqb p.1 "userId" then (p.1, VStr u)
  else if String.eqb p.1 "userRole" then (p.1, VStr r)
  else p.

(** Two lists of texts that agree except where both hold a quoted string
    after a common beginning. *)
Definition same_but_quoted (a b : string) : Prop :=
  a = b \/ exists pre x y, a = pre ++ quote x /\ b = pre ++ quote y.

End UserKeys.

(* ===================================================================== *)
(** ** JavaScript: coercions, numbers, [parseInt] and text classes *)
(* ===================================================================== *)

Module Coerce.

(** [typeof v === 'string'] *)
Definition is_string (v : value) : bool :=
  match v with VStr _ => true | _ => false end.

(** Truthiness of a value. *)
Definition truthy_value (v : value) : bool :=
  match v with
  | VUndefined | VNull => false
  | VBool b => b
  | VNum n => negb (n =? 0)%Z
  | VStr s => truthy_string s
  | VArr _ | VObj _ => true
  end.

(** [data.key] on a value that is not null or undefined, for a key that is
    neither an array index nor the name of a built-in property: the
    field names this service reads.  Only an object has such a property. *)
Definition member (data : value) (key : string) : value :=
  match data with
  | VObj ps => obj_get ps key
  | _ => VUndefined
  end.

(** [String(v)].  An array prints its elements separated by commas, null
    and undefined as nothing. *)
Fixpoint ToString (v : value) : string :=
  match v with
  | VUndefined => "undefined"
  | VNull => "null"
  | VBool true => "true"
  | VBool false => "false"
  | VNum n => Number_toString n
  | VStr s => s
  | VArr xs =>
      join "," (map (fun x => match x with
                              | VUndefined | VNull => ""
                              | _ => ToString x
                              end) xs)
  | VObj _ => "[object Object]"
  end.

(** *** Numbers

    The results of [parseInt], [Math.max] and [Math.min]: not-a-number, an
    integer (both zeros are [Int 0]) or an infinity. *)
Inductive number : Type :=
| NaN
| Int (z : Z)
| Inf (negative : bool).

(** The double nearest to an integer, ties to even. *)
Definition to_double (z : Z) : number :=
  match nearest_double z with
  | Some d => Int d
  | None => Inf (z <? 0)%Z
  end.

(** [x || d] *)
Definition num_or (x d : number) : number :=
  match x with
  | NaN | Int 0 => d
  | _ => x
  end.

(** [Math.max(a, x)] and [Math.min(a, x)] for an integer [a]. *)
Definition Math_max (a : Z) (x : number) : number :=
  match x with
  | NaN => NaN
  | Int z => Int (Z.max a z)
  | Inf true => Int a
  | Inf false => Inf false
  end.

Definition Math_min (a : Z) (x : number) : number :=
  match x with
  | NaN => NaN
  | Int z => Int (Z.min a z)
  | Inf true => Inf true
  | Inf false => Int a
  end.

(** *** Character classes, on the code units 0..255 *)

(** White space and line terminators: what [parseInt] skips and [\s]
    matches. *)
Definition is_space (c : ascii) : bool :=
  let n := N_of_ascii c in
  ((9 <=? n) && (n <=? 13) || (n =? 32) || (n =? 160))%N.

(** [\d] *)
Definition is_digit (c : ascii) : bool :=
  let n := N_of_ascii c in ((48 <=? n) && (n <=? 57))%N.

(** [\w] *)
Definition is_word (c : ascii) : bool :=
  let n := N_of_ascii c in
  ((48 <=? n) && (n <=? 57) || (65 <=? n) && (n <=? 90) || (n =? 95)
   || (97 <=? n) && (n <=? 122))%N.


(** The longest prefix made of characters of a class, and the rest. *)
Fixpoint span (f : ascii -> bool) (s : string) : string * string :=
  match s with
  | String c s' =>
      if f c then let '(a, b) := span f s' in (String c a, b) else ("", s)
  | "" => ("", "")
  end.

(** [toLowerCase] of one code unit. *)
Definition lower (c : ascii) : ascii :=
  let n := N_of_ascii c in
  if ((65 <=? n) && (n <=? 90) || (192 <=? n) && (n <=? 222) && negb (n =? 215))%N
  then ascii_of_N (n + 32) else c.

Fixpoint toLowerCase (s : string) : string :=
  match s with
  | String c s' => String (lower c) (toLowerCase s')
  | "" => ""
  end.

(** Equality of a text with an ASCII pattern under the [i] flag: only the
    letters A to Z fold onto the letters of the pattern. *)
Definition fold_ascii (c : ascii) : ascii :=
  let n := N_of_ascii c in
  if ((65 <=? n) && (n <=? 90))%N then ascii_of_N (n + 32) else c.

Fixpoint eqb_ignore_case (s pattern : string) : bool :=
  match s, pattern with
  | "", "" => true
  | String c s', String p pattern' =>
      Ascii.eqb (fold_ascii c) (fold_ascii p) && eqb_ignore_case s' pattern'
  | _, _ => false
  end.

(** Whether every character of a text is of a class. *)
Fixpoint all_chars (f : ascii -> bool) (s : string) : bool :=
  match s with String c s' => f c && all_chars f s' | "" => true end.

(** Whether a text starts with a character of a class. *)
Definition starts_with (f : ascii -> bool) (s : string) : bool :=
  match s with String c _ => f c | "" => false end.

(** *** [parseInt(v)], without a radix *)

Definition digit_value (radix : N) (c : ascii) : option N :=
  let n := N_of_ascii c in
  let d := if ((48 <=? n) && (n <=? 57))%N then Some (n - 48)%N
           else if ((97 <=? n) && (n <=? 122))%N then Some (n - 87)%N
           else if ((65 <=? n) && (n <=? 90))%N then Some (n - 55)%N
           else None in
  match d with
  | Some x => if (x <? radix)%N then Some x else None
  | None => None
  end.

(** The value of the longest prefix of digits; [None] when there is no
    digit. *)
Fixpoint digits_value (radix : N) (acc : option N) (s : string) : option N :=
  match s with
  | String c s' =>
      match digit_value radix c with
      | Some d => digits_value radix (Some (radix * default 0%N acc + d)%N) s'
      | None => acc
      end
  | "" => acc
  end.

Definition parseInt (v : value) : number :=
  let s := (span is_space (ToString v)).2 in
  let '(negative, s) :=
    match s with
    | String c s' =>
        if Ascii.eqb c "-" then (true, s')
        else if Ascii.eqb c "+" then (false, s')
        else (false, s)
    | "" => (false, s)
    end in
  let '(radix, s) :=
    match s with
    | String z (String x s') =>
        if Ascii.eqb z "0" && (Ascii.eqb x "x" || Ascii.eqb x "X")
        then (16%N, s') else (10%N, s)
    | _ => (10%N, s)
    end in
  match digits_value radix None s with
  | None => NaN
  | Some n => to_double (if negative then - Z.of_N n else Z.of_N n)
  end.

End Coerce.

Export Coerce.

(* ===================================================================== *)
(** ** The validation utility *)
(* ===================================================================== *)

Module Validation.

Record ValidationResult : Type := {
  isValid : bool;
  errors : list string
}.

(** [!data.key || typeof data.key !== 'string'] *)
Definition missing (data : value) (key : string) : bool :=
  negb (truthy_value (member data key)) || negb (is_string (member data key)).

(** [validateCreateAuditLog(data)]: reading a property of null or
    undefined throws. *)
Definition validateCreateAuditLog (data : value) : result ValidationResult :=
  match data with
  | VUndefined =>
      Throw (TypeError "Cannot read properties of undefined (reading 'moduleName')")
  | VNull =>
      Throw (TypeError "Cannot read properties of null (reading 'moduleName')")
  | _ =>
      let errors := [] in
      let errors :=
        if missing data "moduleName"
        then (errors ++ ["moduleName is required and must be a string"])%list else errors in
      let errors :=
        if missing data "action"
        then (errors ++ ["action is required and must be a string"])%list else errors in
      let errors :=
        if missing data "performedBy"
        then (errors ++ ["performedBy is required and must be a string"])%list else errors in
      Ok {| isValid := (List.length errors =? 0)%nat; errors := errors |}
  end.

(** [/^\d{4}-\d{2}-\d{2}$/.test(s)] *)
Definition date_shape (s : string) : bool :=
  match s with
  | String y1 (String y2 (String y3 (String y4 (String h1
      (String m1 (String m2 (String h2 (String d1 (String d2 ""))))))))) =>
      is_digit y1 && is_digit y2 && is_digit y3 && is_digit y4 && Ascii.eqb h1 "-"
      && is_digit m1 && is_digit m2 && Ascii.eqb h2 "-" && is_digit d1 && is_digit d2
  | _ => false
  end.

Section Dates.

(** Whether [new Date(s)] is a valid date: [!isNaN(date.getTime())]. *)
Context (Date_valid : string -> bool).

(** [isValidDate(dateString)]; the test and the constructor both work on
    [String(dateString)]. *)
Definition isValidDate (dateString : value) : bool :=
  if negb (date_shape (ToString dateString)) then false
  else Date_valid (ToString dateString).

Record Pagination : Type := { page : number; limit : number }.

(** [validatePagination(page, limit)] *)
Definition validatePagination (page limit : value) : Pagination :=
  let validPage := Math_max 1 (num_or (parseInt page) (Int 1)) in
  let validLimit := Math_min 100 (Math_max 1 (num_or (parseInt limit) (Int 10))) in
  {| page := validPage; limit := validLimit |}.

(** [AuditLogFilters]: an absent field is [None]. *)
Record AuditLogFilters : Type := {
  f_userId : option string;
  f_service : option string;
  f_moduleName : option string;
  f_action : option string;
  f_dateFrom : option value;
  f_dateTo : option value;
  f_page : number;
  f_limit : number;
  f_sortBy : option string;
  f_sortOrder : option value
}.

(** [...(filters.key && { key: String(filters.key) })] *)
Definition text_field (filters : value) (key : string) : option string :=
  if truthy_value (member filters key) then Some (ToString (member filters key)) else None.

(** [...(filters.key && isValidDate(filters.key) && { key: filters.key })] *)
Definition date_field (filters : value) (key : string) : option value :=
  if truthy_value (member filters key) && isValidDate (member filters key)
  then Some (member filters key) else None.

(** [['asc', 'desc'].includes(v)]: strict equality with one of the two. *)
Definition is_sort_order (v : value) : bool :=
  match v with
  | VStr s => String.eqb s "asc" || String.eqb s "desc"
  | _ => false
  end.

(** [sanitizeFilters(filters)]: reading a property of null or undefined
    throws. *)
Definition sanitizeFilters (filters : value) : result AuditLogFilters :=
  match filters with
  | VUndefined =>
      Throw (TypeError "Cannot read properties of undefined (reading 'userId')")
  | VNull =>
      Throw (TypeError "Cannot read properties of null (reading 'userId')")
  | _ =>
      let p := validatePagination (member filters "page") (member filters "limit") in
      Ok {| f_userId := text_field filters "userId";
            f_service := text_field filters "service";
            f_moduleName := text_field filters "moduleName";
            f_action := text_field filters "action";
            f_dateFrom := date_field filters "dateFrom";
            f_dateTo := date_field filters "dateTo";
            f_page := page p;
            f_limit := limit p;
            f_sortBy := text_field filters "sortBy";
            f_sortOrder :=
              if truthy_value (member filters "sortOrder")
                 && is_sort_order (member filters "sortOrder")
              then Some (member filters "sortOrder") else None |}
  end.

End Dates.

(** [isSuperAdmin(role)] *)
Definition isSuperAdmin (role : string) : bool := String.eqb role "SuperAdmin".

(** [isDepartmentAdmin(role)] *)
Definition isDepartmentAdmin (role : string) : bool :=
  includes role "Admin" && negb (isSuperAdmin role).

(** [extractDepartmentFromRole(role)]: the pattern
    [/^(\w+)\s+(Admin|Non-Admin)$/i].  The word and the white space that
    follows it are each the longest there is, since no character is in
    both classes and neither suffix starts with one of them. *)
Definition extractDepartmentFromRole (role : string) : option string :=
  let '(word, rest) := span is_word role in
  let '(space, suffix) := span is_space rest in
  if truthy_string word && truthy_string space
     && (eqb_ignore_case suffix "Admin" || eqb_ignore_case suffix "Non-Admin")
  then Some (toLowerCase word) else None.

(** *** Role access (roleAccess.middleware) *)

Record JWTUser : Type := { id : string; username : string; role : string }.

(** What [deptCodes[key]] evaluates to: a code of the table, or a member
    the object literal inherits from [Object.prototype], which is not a
    string but is truthy. *)
Inductive dept_code : Type :=
| Code (code : string)
| Inherited (name : string).

Definition Object_prototype : list string :=
  [ "constructor"; "__defineGetter__"; "__defineSetter__"; "hasOwnProperty";
    "__lookupGetter__"; "__lookupSetter__"; "isPrototypeOf"; "propertyIsEnumerable";
    "toString"; "valueOf"; "__proto__"; "toLocaleString" ].

Definition deptCodes (key : string) : option dept_code :=
  if String.eqb key "finance" then Some (Code "FIN")
  else if String.eqb key "hr" then Some (Code "HR")
  else if String.eqb key "inventory" then Some (Code "INV")
  else if String.eqb key "operations" then Some (Code "OPS")
  else if bool_decide (key ∈ Object_prototype) then Some (Inherited key)
  else None.

(** The Prisma filter [applyAccessFilter] returns. *)
Inductive AccessFilter : Type :=
| Unrestricted                       (* {} *)
| StartsWith (code : dept_code)      (* { action_by: { startsWith: deptCode } } *)
| OwnRecords (userId : string).      (* { action_by: user.id } *)

(** [applyAccessFilter(user, serviceName)] *)
Definition applyAccessFilter (user : JWTUser) (serviceName : option string) : AccessFilter :=
  if isSuperAdmin (role user) then Unrestricted
  else
    match
      (if isDepartmentAdmin (role user)
       then
         let department := extractDepartmentFromRole (role user) in
         match deptCodes (default "" department) with
         | Some deptCode => Some (StartsWith deptCode)
         | None => None
         end
       else None)
    with
    | Some filter => filter
    | None => OwnRecords (id user)
    end.

End Validation.

(** A reference for date-only texts of the right shape: the month is 01 to
    12 and the day 01 to 31. *)
Module DateRef.

Definition two_digits (a b : ascii) : N :=
  (10 * (N_of_ascii a - 48) + (N_of_ascii b - 48))%N.

Definition Date_valid (s : string) : bool :=
  match s with
  | String _ (String _ (String _ (String _ (String _
      (String m1 (String m2 (String _ (String d1 (String d2 ""))))))))) =>
      let m := two_digits m1 m2 in
      let d := two_digits d1 d2 in
      ((1 <=? m) && (m <=? 12) && (1 <=? d) && (d <=? 31))%N
  | _ => false
  end.

End DateRef.

(* ===================================================================== *)
(** ** Responses (response.util) *)
(* ===================================================================== *)

Module Responses.

(** What [res.status(code).json(body)] sends. *)
Record Response : Type := { status : Z; body : props }.

(** [...(v && { key: v })] for a [string | undefined]. *)
Definition spread_text (key : string) (v : option string) : props :=
  match v with
  | Some s => if truthy_string s then [(key, VStr s)] else []
  | None => []
  end.

(** [sendSuccess(res, message, data, meta, statusCode = 200)] *)
Definition sendSuccess (message : string) (data meta : value) (statusCode : option Z)
  : Response :=
  {| status := default 200%Z statusCode;
     body := ([("success", VBool true); ("message", VStr message)]
              ++ (if negb (match data with VUndefined => true | _ => false end)
                  then [("data", data)] else [])
              ++ (if truthy_value meta then [("meta", meta)] else []))%list |}.

(** [sendError(res, message, error, code, statusCode = 400)] *)
Definition sendError (message : string) (error code : option string) (statusCode : option Z)
  : Response :=
  {| status := default 400%Z statusCode;
     body := ([("success", VBool false); ("message", VStr message)]
              ++ spread_text "error" error
              ++ spread_text "code" code)%list |}.

(** [sendNotFound(res, message = 'Resource not found')] *)
Definition sendNotFound (message : option string) : Response :=
  sendError (default "Resource not found" message) None (Some "NOT_FOUND") (Some 404%Z).

(** [sendUnauthorized(res, message = 'Unauthorized access')] *)
Definition sendUnauthorized (message : option string) : Response :=
  sendError (default "Unauthorized access" message) None (Some "UNAUTHORIZED") (Some 401%Z).

(** [sendForbidden(res, message = 'Access forbidden')] *)
Definition sendForbidden (message : option string) : Response :=
  sendError (default "Access forbidden" message) None (Some "FORBIDDEN") (Some 403%Z).

End Responses.

Export Responses.

(* ===================================================================== *)
(** ** API keys: the service and the middleware *)
(* ===================================================================== *)

Module ApiKeys.

(** A row of the [apiKey] table, with the columns the service reads and
    writes. *)
Record ApiKey : Type := {
  k_id : Z;
  k_keyHash : string;
  k_serviceName : string;
  k_canWrite : bool;
  k_canRead : bool;
  k_allowedModules : option string;
  k_isActive : bool;
  k_expiresAt : option Z;
  k_lastUsedAt : option Z;
  k_revokedAt : option Z;
  k_revokedBy : option string
}.

(** The database behind Prisma, the clock, the outcome of the next calls
    to the database (true fails) and the console, with the texts of the
    source less the pictograph that starts some of them. *)
Record Store : Type := {
  apiKey : list ApiKey;
  clock : Z;
  outages : list bool;
  printed : list line
}.

Definition with_apiKey (f : list ApiKey -> list ApiKey) (s : Store) : Store :=
  {| apiKey := f (apiKey s); clock := clock s; outages := outages s; printed := printed s |}.

Definition with_printed (f : list line -> list line) (s : Store) : Store :=
  {| apiKey := apiKey s; clock := clock s; outages := outages s; printed := f (printed s) |}.

(** A call to the database: it throws when the connection fails. *)
Definition query {A} (body : M Store A) : M Store A :=
  fun s =>
    let s' := {| apiKey := apiKey s; clock := clock s; outages := tail (outages s);
                 printed := printed s |} in
    if default false (head (outages s)) then (Throw (PrismaError "P1001"), s')
    else body s'.

(** [prisma.apiKey.findUnique({ where: { keyHash } })] *)
Definition findUnique_keyHash (keyHash : string) : M Store (option ApiKey) :=
  query (rows <- gets apiKey ;;
         ret (List.find (fun k => String.eqb (k_keyHash k) keyHash) rows)).

(** [prisma.apiKey.findUnique({ where: { id } })] *)
Definition findUnique_id (id : Z) : M Store (option ApiKey) :=
  query (rows <- gets apiKey ;;
         ret (List.find (fun k => (k_id k =? id)%Z) rows)).

(** [prisma.apiKey.update({ where: { id }, data })]: the record must
    exist. *)
Definition update_id (id : Z) (change : ApiKey -> ApiKey) : M Store unit :=
  query (rows <- gets apiKey ;;
         if existsb (fun k => (k_id k =? id)%Z) rows
         then modify (with_apiKey (map (fun k => if (k_id k =? id)%Z then change k else k)))
         else throw (PrismaError "P2025")).

(** [prisma.apiKey.delete({ where: { id } })]: the record must exist. *)
Definition delete_id (id : Z) : M Store unit :=
  query (rows <- gets apiKey ;;
         if existsb (fun k => (k_id k =? id)%Z) rows
         then modify (with_apiKey (List.filter (fun k => negb (k_id k =? id)%Z)))
         else throw (PrismaError "P2025")).

Record KeyInfo : Type := {
  i_id : Z;
  i_serviceName : string;
  i_canWrite : bool;
  i_canRead : bool;
  i_allowedModules : option string
}.

(** [ApiKeyValidationResult] *)
Record ValidationResult : Type := {
  isValid : bool;
  v_apiKey : option KeyInfo;
  error : option string
}.

Definition invalid (message : string) : ValidationResult :=
  {| isValid := false; v_apiKey := None; error := Some message |}.

Section Service.

(** [hashValue]: SHA-256, in hexadecimal. *)
Context (hashValue : string -> string).

(** [compareHash(rawValue, hashedValue)] *)
Definition compareHash (rawValue hashedValue : string) : bool :=
  String.eqb (hashValue rawValue) hashedValue.

(** [validateApiKey(rawKey)] *)
Definition validateApiKey (rawKey : string) : M Store ValidationResult :=
  try_catch
    (let keyHash := hashValue rawKey in
     found <- findUnique_keyHash keyHash ;;
     match found with
     | None => ret (invalid "API key not found")
     | Some apiKey =>
         if negb (k_isActive apiKey) then ret (invalid "API key has been revoked")
         else
           now <- gets clock ;;
           if match k_expiresAt apiKey with
              | Some expiresAt => (expiresAt <? now)%Z
              | None => false
              end
           then ret (invalid "API key has expired")
           else
             update_id (k_id apiKey)
               (fun k => {| k_id := k_id k; k_keyHash := k_keyHash k;
                            k_serviceName := k_serviceName k; k_canWrite := k_canWrite k;
                            k_canRead := k_canRead k; k_allowedModules := k_allowedModules k;
                            k_isActive := k_isActive k; k_expiresAt := k_expiresAt k;
                            k_lastUsedAt := Some now;
                            k_revokedAt := k_revokedAt k; k_revokedBy := k_revokedBy k |}) ;;
             ret {| isValid := true;
                    v_apiKey :=
                      Some {| i_id := k_id apiKey;
                              i_serviceName := k_serviceName apiKey;
                              i_canWrite := k_canWrite apiKey;
                              i_canRead := k_canRead apiKey;
                              i_allowedModules :=
                                if truthy (k_allowedModules apiKey)
                                then k_allowedModules apiKey else None |};
                    error := None |}
     end)
    (fun error =>
       modify (with_printed (cons (Error "API key validation error:" error))) ;;
       ret (invalid "Validation failed")).

(** [revokeApiKey(id, revokedBy)]: what the database throws goes to the
    caller. *)
Definition revokeApiKey (id : Z) (revokedBy : option string) : M Store unit :=
  now <- gets clock ;;
  update_id id
    (fun k => {| k_id := k_id k; k_keyHash := k_keyHash k;
                 k_serviceName := k_serviceName k; k_canWrite := k_canWrite k;
                 k_canRead := k_canRead k; k_allowedModules := k_allowedModules k;
                 k_isActive := false; k_expiresAt := k_expiresAt k;
                 k_lastUsedAt := k_lastUsedAt k;
                 k_revokedAt := Some now;
                 (* Prisma leaves a column alone when its value is undefined *)
                 k_revokedBy := match revokedBy with
                                | Some by_ => Some by_
                                | None => k_revokedBy k
                                end |}).

(** [deleteApiKey(id)] *)
Definition deleteApiKey (id : Z) : M Store unit := delete_id id.

(** *** The middleware (apiKey.middleware) *)

(** The part of the request the middleware reads and writes. *)
Record Request : Type := {
  x_api_key : option string;        (* req.headers['x-api-key'] *)
  serviceName : option string;
  apiKeyId : option Z
}.

(** What a middleware does with a request: it calls [next()] with the
    request as it left it, or it sends a response. *)
Inductive Reply : Type :=
| Next (req : Request)
| Send (res : Response).

(** [process.env.DISABLE_AUTH === 'true'] and [process.env.TEST_SERVICE_NAME] *)
Context (DISABLE_AUTH : bool) (TEST_SERVICE_NAME : option string).

Definition mock_service (req : Request) : Request :=
  {| x_api_key := x_api_key req;
     serviceName := Some (if truthy TEST_SERVICE_NAME then default "" TEST_SERVICE_NAME
                          else "finance");
     apiKeyId := Some 1%Z |}.

Definition identified (req : Request) (info : KeyInfo) : Request :=
  {| x_api_key := x_api_key req;
     serviceName := Some (i_serviceName info);
     apiKeyId := Some (i_id info) |}.

(** [validateApiKeyMiddleware(req, res, next)] *)
Definition validateApiKeyMiddleware (req : Request) : M Store Reply :=
  if DISABLE_AUTH
  then modify (with_printed
                 (cons (Log "API KEY AUTH DISABLED - Using mock service for testing"))) ;;
       ret (Next (mock_service req))
  else
    try_catch
      (let apiKey := x_api_key req in
       if negb (truthy apiKey) then ret (Send (sendUnauthorized (Some "API key is required")))
       else
         validation <- validateApiKey (default "" apiKey) ;;
         match isValid validation, v_apiKey validation with
         | true, Some info => ret (Next (identified req info))
         | _, _ =>
             ret (Send (sendUnauthorized
                          (Some (if truthy (error validation)
                                 then default "" (error validation)
                                 else "Invalid API key"))))
         end)
      (fun error =>
         modify (with_printed (cons (Error "API Key validation error:" error))) ;;
         ret (Send (sendUnauthorized (Some "API key validation failed")))).

(** [requireWritePermission(req, res, next)] *)
Definition requireWritePermission (req : Request) : M Store Reply :=
  if DISABLE_AUTH
  then modify (with_printed
                 (cons (Log "API KEY WRITE PERMISSION DISABLED - Using mock service for testing"))) ;;
       ret (Next (mock_service req))
  else
    try_catch
      (let apiKey := x_api_key req in
       if negb (truthy apiKey) then ret (Send (sendUnauthorized (Some "API key is required")))
       else
         validation <- validateApiKey (default "" apiKey) ;;
         match isValid validation, v_apiKey validation with
         | true, Some info =>
             if negb (i_canWrite info)
             then ret (Send (sendUnauthorized (Some "API key does not have write permission")))
             else ret (Next (identified req info))
         | _, _ => ret (Send (sendUnauthorized (Some "Invalid API key")))
         end)
      (fun error =>
         modify (with_printed (cons (Error "Write permission check error:" error))) ;;
         ret (Send (sendUnauthorized (Some "Permission check failed")))).

End Service.

(** What [validateApiKey] owes for the record found under the hash of
    the key, at time [t]. *)
Definition verdict (t : Z) (found : option ApiKey) : ValidationResult :=
  match found with
  | None => invalid "API key not found"
  | Some k =>
      if negb (k_isActive k) then invalid "API key has been revoked"
      else if match k_expiresAt k with Some x => (x <? t)%Z | None => false end
           then invalid "API key has expired"
           else {| isValid := true;
                   v_apiKey :=
                     Some {| i_id := k_id k; i_serviceName := k_serviceName k;
                             i_canWrite := k_canWrite k; i_canRead := k_canRead k;
                             i_allowedModules :=
                               if truthy (k_allowedModules k) then k_allowedModules k
                               else None |};
                   error := None |}
  end.

(** A table with the key of the finance service, a revoked key and a
    key that may only read; hashes are written [h(raw)]. *)
Definition sample_hash (raw : string) : string := "h(" ++ raw ++ ")".

Definition sample_store (fs : list bool) : Store :=
  {| apiKey :=
       [ {| k_id := 1; k_keyHash := "h(finance_key)"; k_serviceName := "finance";
            k_canWrite := true; k_canRead := false; k_allowedModules := None;
            k_isActive := true; k_expiresAt := Some 1800000000000%Z;
            k_lastUsedAt := None; k_revokedAt := None; k_revokedBy := None |};
         {| k_id := 2; k_keyHash := "h(old_key)"; k_serviceName := "hr";
            k_canWrite := true; k_canRead := false; k_allowedModules := None;
            k_isActive := false; k_expiresAt := None;
            k_lastUsedAt := None; k_revokedAt := Some 1690000000000%Z;
            k_revokedBy := Some "root" |};
         {| k_id := 3; k_keyHash := "h(report_key)"; k_serviceName := "inventory";
            k_canWrite := false; k_canRead := true; k_allowedModules := None;
            k_isActive := true; k_expiresAt := None;
            k_lastUsedAt := None; k_revokedAt := None; k_revokedBy := None |} ];
     clock := 1700000000000;
     outages := fs;
     printed := [] |}.

(** A key that can be used at time [t]: active and not past its expiry. *)
Definition usable (t : Z) (k : ApiKey) : bool :=
  k_isActive k && match k_expiresAt k with Some x => negb (x <? t)%Z | None => true end.

End ApiKeys.

(* ===================================================================== *)
(** ** A further configuration *)
(* ===================================================================== *)

Module Scenarios.

(** Caching enabled and the REST URL set, but no token. *)
Definition cfg_no_token : Config :=
  {| ENABLE_CACHE := true;
     UPSTASH_REST_URL := Some "https://cache.example.upstash.io";
     UPSTASH_REST_TOKEN := None;
     DEFAULT_TTL := 300 |}.

End Scenarios.

(* ===================================================================== *)
(** ** Property order and cache keys *)
(* ===================================================================== *)

Module KeyFacts.

Import Cache.

Lemma array_index_canonical k n : array_index k = Some n -> k = pretty n.
Proof.
  unfold array_index. destruct k as [|c k]; [done|].
  destruct (parse_digits 0 (String c k)) as [m|]; [|done].
  destruct (bool_decide (pretty m = String c k)) eqn:E; simpl; [|done].
  destruct (m <? 2 ^ 32 - 1)%N; [|done].
  intros [= <-]. apply bool_decide_eq_true in E. done.
Qed.

Lemma array_index_inj k1 k2 n :
  array_index k1 = Some n -> array_index k2 = Some n -> k1 = k2.
Proof.
  intros H1 H2. apply array_index_canonical in H1, H2. congruence.
Qed.

#[global] Instance key_le_total : Total key_le.
Proof.
  intros k1 k2. unfold key_le.
  destruct (array_index k1), (array_index k2); try tauto.
  - lia.
  - apply (total String.le).
Qed.

#[global] Instance key_le_trans : Transitive key_le.
Proof.
  intros k1 k2 k3. unfold key_le.
  destruct (array_index k1), (array_index k2), (array_index k3); try tauto.
  - lia.
  - apply (transitivity (R := String.le)).
Qed.

#[global] Instance key_le_antisym : AntiSymm (=) key_le.
Proof.
  intros k1 k2. unfold key_le.
  destruct (array_index k1) as [a|] eqn:E1, (array_index k2) as [b|] eqn:E2; try tauto.
  - intros. assert (a = b) as -> by lia. eauto using array_index_inj.
  - apply (anti_symm String.le).
Qed.

#[global] Instance pair_le_total : Total pair_le.
Proof. intros p q. apply (total key_le). Qed.

#[global] Instance pair_le_trans : Transitive pair_le.
Proof. intros p q r. apply (transitivity (R := key_le)). Qed.

(** *** Reading and writing properties *)

Lemma obj_has_false o k : obj_has o k = false <-> k ∉ o.*1.
Proof.
  unfold obj_has. induction o as [|[k' v'] o IH]; simpl.
  - split; [intros _; apply not_elem_of_nil | done].
  - rewrite not_elem_of_cons, orb_false_iff, IH, String.eqb_neq.
    split; intros [Hk Ho]; (split; [congruence | exact Ho]).
Qed.

Lemma obj_get_elem o k v : NoDup o.*1 -> (k, v) ∈ o -> obj_get o k = v.
Proof.
  induction o as [|[k' v'] o IH]; simpl; intros Hnd Hin.
  - by apply elem_of_nil in Hin.
  - apply NoDup_cons in Hnd as [Hk Hnd].
    apply elem_of_cons in Hin as [[= -> ->]|Hin].
    + by rewrite String.eqb_refl.
    + destruct (String.eqb_spec k' k) as [->|_]; [|by apply IH].
      exfalso. apply Hk. apply (list_elem_of_fmap_2 fst) in Hin. done.
Qed.

Lemma fmap_obj_get o :
  NoDup o.*1 -> (fun k => (k, obj_get o k)) <$> Object_keys o = o.
Proof.
  intros Hnd. unfold Object_keys.
  rewrite <- list_fmap_compose.
  rewrite <- (list_fmap_id o) at 2.
  apply Forall_fmap_ext_1, Forall_forall. intros [k v] Hin. simpl.
  by rewrite (obj_get_elem o k v).
Qed.

Lemma obj_get_perm o1 o2 k :
  NoDup o1.*1 -> o1 ≡ₚ o2 -> obj_get o1 k = obj_get o2 k.
Proof.
  intros Hnd Hp.
  assert (NoDup o2.*1) as Hnd2 by by rewrite <- Hp.
  assert (forall o, k ∉ o.*1 -> obj_get o k = VUndefined) as Hout.
  { clear. induction o as [|[k' v'] o IH]; simpl; [done|].
    rewrite not_elem_of_cons. intros [Hne Hk].
    destruct (String.eqb_spec k' k); [congruence | by apply IH]. }
  destruct (decide (k ∈ o1.*1)) as [Hin|Hin].
  - apply list_elem_of_fmap in Hin as ([k' v] & -> & Hin). simpl.
    rewrite (obj_get_elem o1 k' v), (obj_get_elem o2 k' v); auto.
    by rewrite <- Hp.
  - rewrite !Hout; auto. by rewrite <- Hp.
Qed.

(** *** Where a new property lands *)

Lemma obj_insert_index_last n k v o :
  Forall (fun p => exists n', array_index p.1 = Some n' /\ (n' < n)%N) o ->
  obj_insert_index n k v o = (o ++ [(k, v)])%list.
Proof.
  induction 1 as [|[k' v'] o (n' & Hk' & Hlt) _ IH]; simpl; [done|].
  simpl in Hk'. rewrite Hk'.
  destruct (N.ltb_spec n' n); [|lia]. by rewrite IH.
Qed.

Lemma obj_insert_index_sorted n k v o :
  array_index k = Some n ->
  StronglySorted pair_le o ->
  k ∉ o.*1 ->
  StronglySorted pair_le (obj_insert_index n k v o) /\
  obj_insert_index n k v o ≡ₚ (k, v) :: o.
Proof.
  intros Hk. induction 1 as [|[k' v'] o Hs IH Hall]; simpl; intros Hnotin.
  - split; [repeat constructor | done].
  - apply not_elem_of_cons in Hnotin as [Hne Hnotin].
    assert (forall x, key_le k k' -> x ∈ o -> pair_le (k, v) x) as Hbelow.
    { intros x Hle Hx. rewrite Forall_forall in Hall.
      specialize (Hall x Hx). unfold pair_le in *. simpl in *.
      by transitivity k'. }
    destruct (array_index k') as [n'|] eqn:Hk'.
    + destruct (N.ltb_spec n' n) as [Hlt|Hge].
      * destruct (IH Hnotin) as [IHs IHp]. split.
        -- constructor; [done|]. rewrite IHp. constructor; [|done].
           unfold pair_le, key_le. simpl. rewrite Hk', Hk. lia.
        -- rewrite IHp. apply Permutation_swap.
      * assert (key_le k k') as Hle.
        { unfold key_le. rewrite Hk, Hk'. lia. }
        split; [|done]. constructor.
        -- by constructor.
        -- constructor; [done|]. apply Forall_forall. eauto.
    + assert (key_le k k') as Hle.
      { unfold key_le. by rewrite Hk, Hk'. }
      split; [|done]. constructor.
      -- by constructor.
      -- constructor; [done|]. apply Forall_forall. eauto.
Qed.

(** Copying an object whose properties are in enumeration order gives the
    same property list. *)
Lemma obj_spread_id o :
  StronglySorted pair_le o -> NoDup o.*1 -> obj_spread o = o.
Proof.
  unfold obj_spread. induction o as [|[k v] o IH] using rev_ind; [done|].
  intros Hs Hnd. rewrite foldl_app. simpl.
  rewrite fmap_app in Hnd. apply NoDup_app in Hnd as (Hnd & Hk & _).
  rewrite IH; [|by eapply StronglySorted_app_1_l|done].
  assert (k ∉ o.*1) as Hnotin.
  { intros Hin. apply (Hk k Hin). simpl. apply list_elem_of_singleton. done. }
  unfold obj_set. apply obj_has_false in Hnotin as ->.
  destruct (array_index k) as [n|] eqn:Hidx; [|done].
  apply obj_insert_index_last, Forall_forall. intros [k' v'] Hin.
  assert (pair_le (k', v') (k, v)) as Hle.
  { eapply StronglySorted_app_1_elem_of; [done|done|]. apply list_elem_of_singleton. done. }
  unfold pair_le, key_le in Hle. simpl in *. rewrite Hidx in Hle.
  destruct (array_index k') as [n'|] eqn:Hidx'; [|done].
  exists n'. split; [done|].
  assert (n' <> n); [|lia]. intros ->.
  apply (Hk k'); [by apply (list_elem_of_fmap_2 fst) in Hin|].
  apply list_elem_of_singleton. eauto using array_index_inj.
Qed.

(** The object the reducer of [generateCacheKey] builds from keys that
    arrive in sorted order. *)
Lemma reduce_sorted (params : props) (ks : list string) :
  StronglySorted String.le ks -> NoDup ks ->
  let built := foldl (fun acc key => obj_set (obj_spread acc) key (obj_get params key)) [] ks in
  built ≡ₚ (fun k => (k, obj_get params k)) <$> ks /\
  StronglySorted pair_le built.
Proof.
  induction ks as [|k ks IH] using rev_ind; intros Hs Hnd; simpl.
  - split; [done | constructor].
  - rewrite foldl_app. simpl.
    apply NoDup_app in Hnd as (Hnd & Hk & _).
    destruct IH as [IHp IHs]; [by eapply StronglySorted_app_1_l | done |].
    set (built := foldl (fun acc key => obj_set (obj_spread acc) key (obj_get params key))
                        [] ks) in *.
    assert (built.*1 ≡ₚ ks) as Hkeys.
    { rewrite IHp, <- list_fmap_compose. simpl. by rewrite list_fmap_id. }
    assert (k ∉ built.*1) as Hnotin.
    { rewrite Hkeys. intros Hin. apply (Hk k Hin), list_elem_of_singleton. done. }
    rewrite obj_spread_id; [|done|rewrite Hkeys; done].
    unfold obj_set. pose proof Hnotin as Hhas. apply obj_has_false in Hhas as ->.
    rewrite fmap_app. simpl.
    destruct (array_index k) as [n|] eqn:Hidx.
    + destruct (obj_insert_index_sorted n k (obj_get params k) built Hidx IHs Hnotin)
        as [Hs' Hp'].
      split; [|done]. rewrite Hp', IHp. apply Permutation_cons_append.
    + split; [by rewrite IHp|].
      apply StronglySorted_app_2; [|done|repeat constructor].
      intros [k' v'] x Hin ->%list_elem_of_singleton.
      unfold pair_le, key_le. simpl. rewrite Hidx.
      destruct (array_index k'); [done|].
      eapply (StronglySorted_app_1_elem_of String.le ks [k]); [done| |apply list_elem_of_singleton; done].
      rewrite <- Hkeys. by apply (list_elem_of_fmap_2 fst) in Hin.
Qed.

Lemma Array_sort_sorted ks : StronglySorted String.le (Array_sort ks).
Proof. apply StronglySorted_merge_sort; apply _. Qed.

Lemma Array_sort_perm ks1 ks2 : ks1 ≡ₚ ks2 -> Array_sort ks1 = Array_sort ks2.
Proof.
  intros Hp. apply (StronglySorted_unique String.le); try apply Array_sort_sorted.
  unfold Array_sort. by rewrite !merge_sort_Permutation.
Qed.

(** The reducer builds the properties of [params] in enumeration order. *)
Lemma sortedParams_property_order (params : props) :
  NoDup (Object_keys params) ->
  foldl (fun acc key => obj_set (obj_spread acc) key (obj_get params key))
        [] (Array_sort (Object_keys params))
  = property_order params.
Proof.
  intros Hnd.
  assert (Array_sort (Object_keys params) ≡ₚ Object_keys params) as Hperm
    by apply merge_sort_Permutation.
  destruct (reduce_sorted params (Array_sort (Object_keys params))) as [Hp Hs].
  { apply Array_sort_sorted. }
  { by rewrite Hperm. }
  simpl in Hp, Hs.
  assert (forall l, l ≡ₚ params -> forall x y, x ∈ l -> y ∈ params ->
                    pair_le x y -> pair_le y x -> x = y) as Hanti.
  { intros l Hl [k1 v1] [k2 v2] H1 H2 Hle Hge. rewrite Hl in H1.
    assert (k1 = k2) as -> by by apply (anti_symm key_le).
    f_equal. rewrite <- (obj_get_elem params k2 v1), <- (obj_get_elem params k2 v2); done. }
  assert ((fun k => (k, obj_get params k)) <$> Array_sort (Object_keys params) ≡ₚ params) as Hg.
  { rewrite Hperm. by rewrite fmap_obj_get. }
  pose proof (transitivity Hp Hg) as Hp'. clear Hp.
  apply StronglySorted_unique_strong with (R := pair_le).
  - intros x y Hx Hy. apply (Hanti _ Hp' x y Hx).
    unfold property_order in Hy. by rewrite merge_sort_Permutation in Hy.
  - done.
  - apply StronglySorted_merge_sort; apply _.
  - unfold property_order. by rewrite merge_sort_Permutation.
Qed.

Lemma property_order_perm p1 p2 :
  NoDup (Object_keys p1) -> p1 ≡ₚ p2 -> property_order p1 = property_order p2.
Proof.
  intros Hnd Hp. unfold property_order.
  apply StronglySorted_unique_strong with (R := pair_le).
  - intros [k1 v1] [k2 v2] H1 H2 Hle Hge.
    rewrite merge_sort_Permutation in H1, H2. rewrite <- Hp in H2.
    assert (k1 = k2) as -> by by apply (anti_symm key_le).
    f_equal. rewrite <- (obj_get_elem p1 k2 v1), <- (obj_get_elem p1 k2 v2); done.
  - apply StronglySorted_merge_sort; apply _.
  - apply StronglySorted_merge_sort; apply _.
  - by rewrite !merge_sort_Permutation.
Qed.

Lemma sorted_no_index (f : string -> value) (ks : list string) :
  StronglySorted String.le ks ->
  Forall (fun k => array_index k = None) ks ->
  StronglySorted pair_le ((fun k => (k, f k)) <$> ks).
Proof.
  induction 1 as [|k ks Hs IH Hall]; simpl; intros Hno; [constructor|].
  apply Forall_cons in Hno as [Hk Hno].
  constructor; [by apply IH|].
  apply Forall_fmap, Forall_forall. intros k' Hin.
  rewrite Forall_forall in Hall, Hno.
  unfold pair_le, key_le. simpl. rewrite Hk, (Hno k' Hin). by apply Hall.
Qed.

(** Without array-index keys the enumeration order is the lexicographic
    one. *)
Lemma property_order_no_index (params : props) :
  NoDup (Object_keys params) ->
  Forall (fun k => array_index k = None) (Object_keys params) ->
  property_order params = sorted_by_key params.
Proof.
  intros Hnd Hno. unfold property_order, sorted_by_key.
  assert (Array_sort (Object_keys params) ≡ₚ Object_keys params) as Hperm
    by apply merge_sort_Permutation.
  assert ((fun k => (k, obj_get params k)) <$> Array_sort (Object_keys params) ≡ₚ params) as Hp.
  { rewrite Hperm. by rewrite fmap_obj_get. }
  apply StronglySorted_unique_strong with (R := pair_le).
  - intros [k1 v1] [k2 v2] H1 H2 Hle Hge.
    rewrite merge_sort_Permutation in H1. rewrite Hp in H2.
    assert (k1 = k2) as -> by by apply (anti_symm key_le).
    f_equal. rewrite <- (obj_get_elem params k2 v1), <- (obj_get_elem params k2 v2); done.
  - apply StronglySorted_merge_sort; apply _.
  - apply sorted_no_index; [apply Array_sort_sorted|]. by rewrite Hperm.
  - by rewrite merge_sort_Permutation, Hp.
Qed.

Lemma property_order_sorted (params : props) :
  StronglySorted pair_le (property_order params) /\ property_order params ≡ₚ params.
Proof.
  split; [apply StronglySorted_merge_sort; apply _ | apply merge_sort_Permutation].
Qed.

(** C2 (as stated, refuted).  With the keys 9 and 10 the text is not in
    lexicographic key order: the object the reducer builds lists its
    array-index keys by numeric value. *)
Lemma generateCacheKey_index_keys_not_lexicographic :
  generateCacheKey "logs" [("9", VNum 2); ("10", VNum 1)] = js "audit:logs:{'9':2,'10':1}" /\
  generateCacheKey_spec "logs" [("9", VNum 2); ("10", VNum 1)] = js "audit:logs:{'10':1,'9':2}" /\
  generateCacheKey "logs" [("9", VNum 2); ("10", VNum 1)]
  <> generateCacheKey_spec "logs" [("9", VNum 2); ("10", VNum 1)].
Proof. split; [reflexivity|]. split; [reflexivity|]. vm_compute. discriminate. Qed.

(** C2 (amended).  Two parameter objects with the same key/value pairs
    give the same cache key, whatever the insertion order.  The key is
    [audit:], the namespace, a colon and the JSON text of the parameters
    in enumeration order: array-index keys first by numeric value, the
    other keys lexicographically.  Without array-index keys that is the
    lexicographic order. *)
Theorem generateCacheKey_deterministic namespace p1 p2 :
  NoDup (Object_keys p1) ->
  p1 ≡ₚ p2 ->
  generateCacheKey namespace p1 = generateCacheKey namespace p2 /\
  generateCacheKey namespace p1
  = "audit:" ++ namespace ++ ":" ++ template (JSON_stringify (VObj (property_order p1))) /\
  (Forall (fun k => array_index k = None) (Object_keys p1) ->
   generateCacheKey namespace p1 = generateCacheKey_spec namespace p1).
Proof.
  intros Hnd Hp.
  assert (NoDup (Object_keys p2)) as Hnd2 by (unfold Object_keys; by rewrite <- Hp).
  unfold generateCacheKey, generateCacheKey_spec.
  rewrite !sortedParams_property_order by done.
  split; [|split].
  - by rewrite (property_order_perm p1 p2).
  - done.
  - intros Hno. by rewrite property_order_no_index.
Qed.

Lemma generateCacheKey_deterministic_witness :
  let p1 := [("service", VStr "finance"); ("page", VNum 2); ("action", VUndefined)] in
  let p2 := [("page", VNum 2); ("service", VStr "finance"); ("action", VUndefined)] in
  (NoDup (Object_keys p1) /\ p1 ≡ₚ p2) /\
  generateCacheKey "logs" p1 = generateCacheKey "logs" p2 /\
  generateCacheKey "logs" p1
  = "audit:" ++ "logs" ++ ":" ++ template (JSON_stringify (VObj (property_order p1))) /\
  (Forall (fun k => array_index k = None) (Object_keys p1) ->
   generateCacheKey "logs" p1 = generateCacheKey_spec "logs" p1).
Proof.
  assert (NoDup (Object_keys [("service", VStr "finance"); ("page", VNum 2);
                              ("action", VUndefined)])) as Hnd.
  { apply (bool_decide_unpack _). reflexivity. }
  split; [split; [exact Hnd | apply Permutation_swap]|].
  apply (generateCacheKey_deterministic "logs"
           [("service", VStr "finance"); ("page", VNum 2); ("action", VUndefined)]
           [("page", VNum 2); ("service", VStr "finance"); ("action", VUndefined)]);
    [exact Hnd | apply Permutation_swap].
Defined.

Example generateCacheKey_sample :
  generateCacheKey "logs" [("service", VStr "finance"); ("page", VNum 2); ("action", VUndefined)]
  = js "audit:logs:{'page':2,'service':'finance'}".
Proof. reflexivity. Qed.

(** Only the top level is reordered: a nested object is printed in its
    own insertion order, so two parameter objects that differ in the order
    inside a nested value are different values and get different keys. *)
Example generateCacheKey_nested_order :
  generateCacheKey "logs" [("filter", VObj [("b", VNum 1); ("a", VNum 2)])]
  = js "audit:logs:{'filter':{'b':1,'a':2}}" /\
  generateCacheKey "logs" [("filter", VObj [("a", VNum 2); ("b", VNum 1)])]
  = js "audit:logs:{'filter':{'a':2,'b':1}}".
Proof. split; reflexivity. Qed.

End KeyFacts.

(* ===================================================================== *)
(** ** Symbolic execution *)
(* ===================================================================== *)

Module Run.

Import Cache Dedup.

Ltac unfold_all :=
  unfold setCache, getCache, withCache, invalidatePattern, restGet, restSet, parse,
    isDuplicate, markAsProcessed, cleanupExpired,
    redis_get, redis_set, redis_keys, redis_del, fetch_get, fetch_set,
    upstash_get, upstash_set, prisma_findUnique, prisma_create, prisma_deleteMany_lt,
    lru_get, lru_set, lru_delete, lru_keys, remote, draw, emit,
    console_log, console_error, when, try_catch, bind, ret, throw, gets, modify,
    exec, eval,
    first_hit, first_hit_claimed, own_key, deserialized, hit, lru_peek, rest_configured,
    truthy, db_get, live in *.

(** Reduction of what the state and the control flow are made of, and of
    nothing else. *)
Ltac sim :=
  cbn [fst snd negb andb orb mode_eqb from_option head tail or_default
       currentCacheMode Tiers.redisClient redis_db upstash_db lruCache eventDedup
       now faults trace console
       with_redis_db with_upstash_db with_lruCache with_eventDedup
       with_faults with_trace with_console
       l_key l_value l_start l_ttl e_value e_expires wire List.find id
       eventId sourceService expiresAt ev_tier ev_op ev_key ev_ok
       Z.leb Z.compare] in *.

(** Case analysis on what the evaluation of [t] is waiting for. *)
Ltac head_case t :=
  lazymatch t with
  | match ?x with _ => _ end => first [head_case x | destruct x eqn:?]
  | fst ?p => head_case p
  | snd ?p => head_case p
  | ?A -> ?B => first [head_case A | head_case B]
  | ?f ?a => first [head_case f | head_case a]
  end.

Ltac step := match goal with |- ?G => head_case G end.

Ltac steps_with tac := repeat (first [progress tac | step]; simplify_eq; sim; try done).

Ltac steps := steps_with idtac.

(** What [own_key] gives once the evaluation is at the read of the HTTP
    tier. *)
Ltac use_own :=
  match goal with
  | H : _ = lru -> _ = true -> Some ?k = Some ?key |- _ =>
      let E := fresh in
      assert (k = key) as E by (by injection (H eq_refl eq_refl));
      clear H; subst k
  | H : _ = lru -> _ = true -> None = Some _ |- _ =>
      by specialize (H eq_refl eq_refl)
  | H : _ = lru -> _ = true -> _ = Some _ |- _ => rewrite H by done
  end.

(** A quiet world: its schedule is empty or starts with a success. *)
Ltac quiet_cases w H :=
  unfold quiet in H;
  destruct w as [mode client rdb udb lc rows t fs tr con];
  sim;
  destruct fs as [|[] fs];
  [ | by apply Forall_cons in H as [? _] | apply Forall_cons in H as [_ H] ].

(** The two configuration tests, decided before the code is unfolded. *)
Ltac config_cases cfg :=
  let bu := fresh "url" in
  let bt := fresh "token" in
  remember (truthy (UPSTASH_REST_URL cfg)) as bu eqn:?;
  remember (truthy (UPSTASH_REST_TOKEN cfg)) as bt eqn:?;
  destruct bu, bt.

Lemma grown_nil P old : grown P old old.
Proof. by exists []. Qed.

Lemma grown_cons (P : event -> Prop) e old cur :
  P e -> grown P old cur -> grown P old (e :: cur).
Proof. intros He (new & -> & Hall). exists (e :: new). by split; [|constructor]. Qed.

Lemma grown_inv (P : event -> Prop) new old :
  grown P old (new ++ old) -> Forall P new.
Proof. by intros (new' & ->%app_inv_tail & Hall). Qed.

Lemma raised_inv w w' new :
  trace w' = (new ++ trace w)%list -> raised w w' -> Exists failed new.
Proof. intros Ht (new' & Ht' & Hex). rewrite Ht in Ht'. by apply app_inv_tail in Ht' as ->. Qed.

Ltac grow := repeat (apply grown_cons; [done|]); apply grown_nil.

End Run.

(* ===================================================================== *)
(** ** The cache facade *)
(* ===================================================================== *)

Module CacheFacts.

Import Cache Run.

(** *** Texts *)

Lemma pretty_N_go_length x s : String.length s <= String.length (pretty_N_go x s).
Proof.
  revert s. induction (N.lt_wf_0 x) as [x _ IH]; intros s.
  destruct (decide (x = 0)%N) as [->|]; [by rewrite pretty_N_go_0|].
  rewrite pretty_N_go_step by lia.
  etrans; [|apply IH, N.div_lt; lia]. simpl. lia.
Qed.

Lemma pretty_N_truthy (x : N) : truthy_string (pretty x) = true.
Proof.
  unfold pretty, pretty_N. case_decide; [done|].
  rewrite pretty_N_go_step by lia.
  pose proof (pretty_N_go_length (x `div` 10) (String (pretty_N_char (x `mod` 10)) "")) as Hlen.
  destruct (pretty_N_go _ _); [simpl in Hlen; lia | done].
Qed.

Lemma pretty_Z_truthy (z : Z) : truthy_string (pretty z) = true.
Proof. destruct z as [|p|p]; try done. apply (pretty_N_truthy (N.pos p)). Qed.

Lemma app_truthy a b : truthy_string b = true -> truthy_string (a ++ b) = true.
Proof.
  destruct a as [|c a]; [done|]. intros _.
  by change (truthy_string (String c (a ++ b)) = true).
Qed.

Lemma Number_toString_truthy n : truthy_string (Number_toString n) = true.
Proof.
  unfold Number_toString. destruct (nearest_double n) as [d|]; [|by destruct (n <? 0)%Z].
  cbv zeta. apply app_truthy.
  destruct (shortest (Z.abs d) <? 10 ^ 21)%Z; [apply pretty_Z_truthy|].
  unfold exponent_form. by apply app_truthy.
Qed.

(** [JSON.stringify] never returns the empty string. *)
Lemma JSON_stringify_truthy v s : JSON_stringify v = Some s -> truthy_string s = true.
Proof.
  destruct v as [| |[]|n|str|xs|ps]; cbn [JSON_stringify]; intros [= <-]; try done.
  destruct (nearest_double n); [apply Number_toString_truthy | done].
Qed.

(** *** Strings through the reference decoder *)

Lemma string_body_quote_body b rest :
  JSONRef.string_body (quote_body b ++ dquote ++ rest) = Some (b, rest).
Proof.
  induction b as [|c b IH]; [done|].
  change (quote_body (String c b)) with (quote_char c ++ quote_body b).
  revert IH. generalize (quote_body b). intros qb IH.
  simpl in IH.
  destruct c as [[] [] [] [] [] [] [] []]; simpl;
    change ("" ++ qb) with qb; rewrite IH; reflexivity.
Qed.

Lemma value_at_string n s :
  JSONRef.value_at (S n) (String (ascii_of_N 34) s)
  = match JSONRef.string_body s with
    | Some (str, rest) => Some (VStr str, rest)
    | None => None
    end.
Proof. reflexivity. Qed.

(** The reference decoder reads back every string [JSON.stringify] quotes. *)
Lemma JSON_parse_quote b : JSONRef.JSON_parse (quote b) = Some (VStr b).
Proof.
  unfold JSONRef.JSON_parse.
  replace (2 * String.length (quote b) + 2) with (S (S (2 * String.length (quote b)))) by lia.
  change (quote b) with (String (ascii_of_N 34) (quote_body b ++ dquote ++ "")) at 2.
  by rewrite value_at_string, string_body_quote_body.
Qed.

Lemma length_app_string (a b : string) :
  String.length (a ++ b) = String.length a + String.length b.
Proof. induction a; simpl; [done|]. by rewrite IHa. Qed.

Lemma length_quote_body b : String.length b <= String.length (quote_body b).
Proof.
  induction b as [|c b IH]; [done|].
  simpl. rewrite length_app_string.
  assert (1 <= String.length (quote_char c)); [|lia].
  unfold quote_char. repeat case_match; simpl; lia.
Qed.

Lemma length_filler n : String.length (filler n) = n.
Proof. induction n; simpl; congruence. Qed.

Lemma oversized_not_fits : ~ fits (quote (filler (N.to_nat 52428801))).
Proof.
  unfold fits, quote, lru_maxSize.
  rewrite !length_app_string.
  pose proof (length_quote_body (filler (N.to_nat 52428801))) as Hlen.
  rewrite length_filler in Hlen.
  pose proof (N_nat_Z 52428801) as Hn.
  change (Z.of_N 52428801) with 52428801%Z in Hn.
  revert Hlen Hn. generalize (N.to_nat 52428801).
  generalize (String.length (quote_body (filler (N.to_nat 52428801)))).
  intros m n Hlen Hn. lia.
Qed.

(** *** The in-process tier *)

Lemma lru_find_remove key c : lru_find key (lru_remove key c) = None.
Proof.
  unfold lru_find, lru_remove. induction c as [|e c IH]; [done|].
  rewrite filter_cons. case_decide as Hne; [|done].
  simpl. destruct (String.eqb_spec (l_key e) key); [done|apply IH].
Qed.

Lemma lru_find_head key v t ttl c :
  lru_find key ({| l_key := key; l_value := v; l_start := t; l_ttl := ttl |} :: c)
  = Some {| l_key := key; l_value := v; l_start := t; l_ttl := ttl |}.
Proof. unfold lru_find. simpl. by rewrite String.eqb_refl. Qed.

(** *** [getCache] *)

(** Without transport failures [getCache] returns the first hit of its
    tier order, deserialized; a text that does not parse reads as null. *)
Lemma getCache_first_hit cfg path_key JSON_parse key w :
  ENABLE_CACHE cfg = true ->
  quiet w ->
  own_key cfg path_key (currentCacheMode w) key ->
  eval (getCache cfg path_key JSON_parse key) w
  = Ok (deserialized JSON_parse (first_hit cfg w key)).
Proof.
  intros Hen Hq Hown. unfold getCache. rewrite Hen.
  quiet_cases w Hq; unfold_all; sim;
    destruct mode, client; sim; steps_with ltac:(idtac; use_own);
    by match goal with H : JSON_parse _ = _ |- _ => rewrite H end.
Qed.

Lemma own_key_other_mode cfg path_key mode key :
  mode <> lru -> own_key cfg path_key mode key.
Proof. by intros Hne Hlru. Qed.

Lemma own_key_no_rest cfg path_key mode key :
  rest_configured cfg = false -> own_key cfg path_key mode key.
Proof. intros Hno _ Hyes. congruence. Qed.

(** Outside Fallback mode [getCache] does not call the HTTP tier. *)
Lemma getCache_no_rest cfg path_key JSON_parse key w :
  currentCacheMode w <> lru ->
  grown (fun e => ev_tier e <> Rest) (trace w) (trace (exec (getCache cfg path_key JSON_parse key) w)).
Proof.
  intros Hmode. unfold getCache.
  destruct w as [mode client rdb udb lc rows t fs tr con].
  destruct (ENABLE_CACHE cfg); unfold_all; sim; [|grow].
  destruct mode, client; sim; try done; steps; grow.
Qed.

(** *** [setCache] *)

(** [setCache] never throws. *)
Lemma setCache_returns cfg key v ttl w : eval (setCache cfg key v ttl) w = Ok tt.
Proof.
  unfold_all. destruct w as [mode client rdb udb lc rows t fs tr con].
  destruct mode, client; sim; steps.
Qed.

(** After a [setCache] without failures the key is the first hit; a time
    to live of 0 or [undefined] stands for [DEFAULT_TTL]. *)
Lemma setCache_first_hit_default cfg key v ttlIn s w :
  ENABLE_CACHE cfg = true ->
  quiet w ->
  JSON_stringify v = Some s ->
  (0 < or_default ttlIn (DEFAULT_TTL cfg))%Z ->
  (currentCacheMode w = redis /\ Tiers.redisClient w = true) \/
  (currentCacheMode w = lru /\ rest_configured cfg = true) \/
  fits s ->
  let w' := exec (setCache cfg key v ttlIn) w in
  quiet w' /\ first_hit cfg w' key = Some s /\ currentCacheMode w' = currentCacheMode w.
Proof.
  intros Hen Hq Hs Httl Hcase.
  pose proof (JSON_stringify_truthy v s Hs) as Hne.
  unfold setCache, restSet, first_hit, rest_configured in *. rewrite Hen, Hs.
  remember (or_default ttlIn (DEFAULT_TTL cfg)) as ttl eqn:Heqttl. clear Heqttl.
  destruct ttl as [|ttl|ttl]; try lia.
  unfold fits in Hcase. unfold quiet.
  assert (forall t, (t <? t + Z.pos ttl * 1000)%Z = true) as Hlive.
  { intros. apply Z.ltb_lt. lia. }
  assert (forall t, lru_stale t {| l_key := key; l_value := s; l_start := t;
                                   l_ttl := Z.pos ttl * 1000 |} = false) as Hfresh.
  { intros. unfold lru_stale. cbn. apply andb_false_iff. right. apply Z.ltb_ge. lia. }
  assert ((Z.of_nat (String.length s) =? 0)%Z = false) as Hsize.
  { destruct s; [done|]. apply Z.eqb_neq. simpl. lia. }
  config_cases cfg; quiet_cases w Hq; destruct mode, client; sim;
    destruct Hcase as [[? ?]|[[? ?]|Hfit%Z.ltb_ge]]; simplify_eq;
    unfold_all; sim;
    steps_with ltac:(rewrite ?lookup_insert_eq, ?lru_find_head, ?lru_find_remove,
                       ?Hlive, ?Hfresh, ?Hsize, ?Hne);
    (split; [by repeat constructor | by split]).
Qed.

Lemma setCache_first_hit cfg key v ttl s w :
  ENABLE_CACHE cfg = true ->
  quiet w ->
  JSON_stringify v = Some s ->
  (0 < ttl)%Z ->
  (currentCacheMode w = redis /\ Tiers.redisClient w = true) \/
  (currentCacheMode w = lru /\ rest_configured cfg = true) \/
  fits s ->
  let w' := exec (setCache cfg key v (Some ttl)) w in
  quiet w' /\ first_hit cfg w' key = Some s /\ currentCacheMode w' = currentCacheMode w.
Proof.
  intros Hen Hq Hs Httl Hcase.
  apply setCache_first_hit_default; try done.
  by destruct ttl.
Qed.

(** *** C1: a failure of the persistent-connection tier *)

(** C1.  The specification asks that [setCache] writes the in-process tier
    even when the write to the networked tier of the current mode fails.
    In Primary mode the code does not: when [redisClient.set] throws, the
    handler of the enclosing [try] logs the error and the statement that
    writes the LRU cache is never reached.  The call still returns
    normally. *)
Theorem setCache_redis_error_skips_lru cfg key v ttl w fs :
  ENABLE_CACHE cfg = true ->
  currentCacheMode w = redis ->
  Tiers.redisClient w = true ->
  faults w = true :: fs ->
  let w' := exec (setCache cfg key v ttl) w in
  eval (setCache cfg key v ttl) w = Ok tt /\
  lruCache w' = lruCache w /\
  redis_db w' = redis_db w /\
  console w' = Error "Cache set error:" (NetworkError "redis") :: console w /\
  trace w' = Call Redis "set" key false :: trace w.
Proof.
  intros Hen Hmode Hclient Hfaults.
  destruct w as [mode client rdb udb lc rows t fs' tr con]. sim. subst.
  unfold_all. rewrite Hen. sim. done.
Qed.

Lemma setCache_redis_error_skips_lru_witness :
  let w := boot redis [true] in
  let w' := exec (setCache cfg_plain "audit:stats:a" (VNum 1) (Some 60%Z)) w in
  (ENABLE_CACHE cfg_plain = true /\ currentCacheMode w = redis /\
   Tiers.redisClient w = true /\ faults w = [true]) /\
  eval (setCache cfg_plain "audit:stats:a" (VNum 1) (Some 60%Z)) w = Ok tt /\
  lruCache w' = [] /\
  redis_db w' = ∅ /\
  console w' = [Error "Cache set error:" (NetworkError "redis")] /\
  trace w' = [Call Redis "set" "audit:stats:a" false].
Proof.
  split; [done|].
  apply (setCache_redis_error_skips_lru cfg_plain "audit:stats:a" (VNum 1) (Some 60%Z)
           (boot redis [true]) []); reflexivity.
Defined.

(** The sibling path: in Fallback mode a failure of the HTTP tier is caught
    inside [restSet], and the in-process write follows. *)
Lemma setCache_rest_error_keeps_lru cfg key v ttl s w fs :
  ENABLE_CACHE cfg = true ->
  currentCacheMode w = lru ->
  faults w = true :: fs ->
  JSON_stringify v = Some s ->
  fits s ->
  let w' := exec (setCache cfg key v ttl) w in
  eval (setCache cfg key v ttl) w = Ok tt /\
  exists e, lru_find key (lruCache w') = Some e /\ l_value e = s.
Proof.
  intros Hen Hmode Hfaults Hs Hfit%Z.ltb_ge.
  pose proof (JSON_stringify_truthy v s Hs) as Hne.
  assert ((Z.of_nat (String.length s) =? 0)%Z = false) as Hsize.
  { destruct s; [done|]. apply Z.eqb_neq. simpl. lia. }
  split; [apply setCache_returns|].
  unfold setCache, restSet. rewrite Hen, Hs.
  config_cases cfg; destruct w as [mode client rdb udb lc rows t fs' tr con];
    sim; subst; unfold_all; sim; rewrite Hsize, Hfit; sim;
    rewrite lru_find_head; eauto.
Qed.

(** *** C3: set, then get *)

(** C3 (amended).  With caching enabled, a positive time to live and no
    failing tier operation, [setCache(k, v, ttl)] followed at once by
    [getCache(k)] returns [JSON.parse(JSON.stringify(v))]: in Primary
    mode, in Fallback mode with the HTTP tier configured, and in every
    other case provided the serialized value is at most [maxSize] code
    units long.  Where [getCache] reads the HTTP tier the key has to be
    one that goes through the URL of the read unchanged. *)
Theorem setCache_getCache_roundtrip cfg path_key JSON_parse key v ttl s v' w :
  ENABLE_CACHE cfg = true ->
  quiet w ->
  JSON_stringify v = Some s ->
  JSON_parse s = Some v' ->
  (0 < ttl)%Z ->
  own_key cfg path_key (currentCacheMode w) key ->
  (currentCacheMode w = redis /\ Tiers.redisClient w = true) \/
  (currentCacheMode w = lru /\ rest_configured cfg = true) \/
  fits s ->
  eval (setCache cfg key v (Some ttl) ;; getCache cfg path_key JSON_parse key) w = Ok v'.
Proof.
  intros Hen Hq Hs Hparse Httl Hown Hcase.
  destruct (setCache_first_hit cfg key v ttl s w Hen Hq Hs Httl Hcase) as (Hq' & Hhit & Hmode).
  pose proof (setCache_returns cfg key v (Some ttl) w) as Hret.
  rewrite <- Hmode in Hown.
  pose proof (getCache_first_hit cfg path_key JSON_parse key _ Hen Hq' Hown) as Hget.
  unfold eval, exec, bind in *.
  destruct (setCache cfg key v (Some ttl) w) as [r w1]. simpl in *. subst r.
  rewrite Hget, Hhit. simpl. by rewrite Hparse.
Qed.

Lemma setCache_getCache_roundtrip_witness :
  (ENABLE_CACHE cfg_rest = true /\ quiet (boot lru []) /\
   JSON_stringify sample_value = Some sample_text /\
   JSONRef.JSON_parse sample_text = Some sample_value /\
   (0 < 60)%Z /\
   own_key cfg_rest path_key_ref (currentCacheMode (boot lru [])) "audit:stats:a" /\
   currentCacheMode (boot lru []) = lru /\ rest_configured cfg_rest = true) /\
  eval (setCache cfg_rest "audit:stats:a" sample_value (Some 60%Z) ;;
        getCache cfg_rest path_key_ref JSONRef.JSON_parse "audit:stats:a") (boot lru [])
  = Ok sample_value.
Proof.
  assert (own_key cfg_rest path_key_ref (currentCacheMode (boot lru [])) "audit:stats:a")
    as Hown by (intros _ _; reflexivity).
  split.
  - repeat split; try reflexivity; try exact Hown. constructor.
  - apply (setCache_getCache_roundtrip cfg_rest path_key_ref JSONRef.JSON_parse "audit:stats:a"
             sample_value 60%Z sample_text sample_value (boot lru [])); try reflexivity.
    + constructor.
    + exact Hown.
    + right. left. split; reflexivity.
Defined.

(** The key in the URL.  Fallback mode with the HTTP tier: the read of a
    key with a [#] asks the endpoint for the text before the [#], so right
    after [setCache] stored 2 under such a key, [getCache] returns what
    another key holds. *)
Example getCache_cut_key :
  let w := exec (setCache cfg_rest "audit:stats:a" (VNum 1) (Some 60%Z) ;;
                 setCache cfg_rest "audit:stats:a#b" (VNum 2) (Some 60%Z)) (boot lru []) in
  db_get (now w) (upstash_db w) "audit:stats:a#b" = Some "2" /\
  lru_peek (now w) (lruCache w) "audit:stats:a#b" = Some "2" /\
  eval (getCache cfg_rest path_key_ref JSONRef.JSON_parse "audit:stats:a#b") w = Ok (VNum 1).
Proof. vm_compute. auto. Qed.

(** *** C4: the order of the tiers *)

(** C4 (as stated, refuted).  Primary mode, the persistent-connection tier
    misses, the HTTP tier is configured and holds the key: the order the
    specification words gives the HTTP tier's value, the code never asks
    the HTTP tier and returns null. *)
Lemma getCache_primary_miss_skips_rest :
  let w := with_upstash_db (insert "audit:stats:a" {| e_value := "7"; e_expires := None |})
                           (boot redis []) in
  deserialized JSONRef.JSON_parse (first_hit_claimed cfg_rest w "audit:stats:a") = VNum 7 /\
  eval (getCache cfg_rest path_key_ref JSONRef.JSON_parse "audit:stats:a") w = Ok VNull.
Proof. split; reflexivity. Qed.

(** C4 (amended).  With caching enabled and no failing tier operation,
    [getCache] consults the persistent-connection tier in Primary mode,
    the HTTP tier in Fallback mode only and when it is configured, then
    the in-process tier; it returns the first hit deserialized (null when
    the text does not parse) and null when all miss.  Outside Fallback
    mode it makes no call to the HTTP tier.  The HTTP tier is asked for
    the key as the URL of the read carries it: the statement is for the
    keys that go through unchanged. *)
Theorem getCache_tier_order cfg path_key JSON_parse key w :
  ENABLE_CACHE cfg = true ->
  quiet w ->
  own_key cfg path_key (currentCacheMode w) key ->
  eval (getCache cfg path_key JSON_parse key) w
  = Ok (deserialized JSON_parse (first_hit cfg w key)) /\
  (currentCacheMode w <> lru ->
   grown (fun e => ev_tier e <> Rest) (trace w)
         (trace (exec (getCache cfg path_key JSON_parse key) w))).
Proof.
  intros Hen Hq Hown. split.
  - by apply getCache_first_hit.
  - apply getCache_no_rest.
Qed.

Lemma getCache_tier_order_witness :
  let w := with_upstash_db (insert "audit:stats:a" {| e_value := "7"; e_expires := None |})
                           (boot lru []) in
  (ENABLE_CACHE cfg_rest = true /\ quiet w /\
   own_key cfg_rest path_key_ref (currentCacheMode w) "audit:stats:a") /\
  first_hit cfg_rest w "audit:stats:a" = Some "7" /\
  eval (getCache cfg_rest path_key_ref JSONRef.JSON_parse "audit:stats:a") w
  = Ok (deserialized JSONRef.JSON_parse (first_hit cfg_rest w "audit:stats:a")) /\
  (currentCacheMode w <> lru ->
   grown (fun e => ev_tier e <> Rest) (trace w)
         (trace (exec (getCache cfg_rest path_key_ref JSONRef.JSON_parse "audit:stats:a") w))).
Proof.
  assert (own_key cfg_rest path_key_ref lru "audit:stats:a") as Hown
    by (intros _ _; reflexivity).
  split; [split; [reflexivity | split; [constructor | exact Hown]]|].
  split; [reflexivity|].
  apply (getCache_tier_order cfg_rest path_key_ref JSONRef.JSON_parse "audit:stats:a");
    [reflexivity | constructor | exact Hown].
Defined.


(** *** C3, the boundary *)

(** In Fallback mode without the HTTP tier, a value whose text exceeds
    [maxSize] is not kept by any tier. *)
Lemma setCache_oversized cfg path_key JSON_parse key v ttl s w :
  ENABLE_CACHE cfg = true ->
  quiet w ->
  JSON_stringify v = Some s ->
  (0 < ttl)%Z ->
  currentCacheMode w = lru ->
  rest_configured cfg = false ->
  ~ fits s ->
  eval (setCache cfg key v (Some ttl) ;; getCache cfg path_key JSON_parse key) w = Ok VNull.
Proof.
  intros Hen Hq Hs Httl Hmode Hrest Hfit.
  assert ((lru_maxSize <? Z.of_nat (String.length s))%Z = true) as Hbig.
  { apply Z.ltb_lt. unfold fits in Hfit. lia. }
  assert ((Z.of_nat (String.length s) =? 0)%Z = false) as Hsize.
  { apply Z.eqb_neq. unfold lru_maxSize in Hbig. apply Z.ltb_lt in Hbig. lia. }
  pose proof (setCache_returns cfg key v (Some ttl) w) as Hret.
  assert (quiet (exec (setCache cfg key v (Some ttl)) w) /\
          first_hit cfg (exec (setCache cfg key v (Some ttl)) w) key = None) as [Hq' Hhit].
  { clear Hret. unfold setCache, restSet, first_hit, rest_configured in *. rewrite Hen, Hs.
    destruct ttl as [|ttl|ttl]; try lia. unfold quiet.
    config_cases cfg; try done;
      quiet_cases w Hq; sim; subst; unfold_all; sim; rewrite ?Hsize, ?Hbig; sim;
      rewrite ?lru_find_remove; (split; [by repeat constructor | done]). }
  assert (own_key cfg path_key (currentCacheMode (exec (setCache cfg key v (Some ttl)) w)) key)
    as Hown by (intros _ Hr; congruence).
  pose proof (getCache_first_hit cfg path_key JSON_parse key _ Hen Hq' Hown) as Hget.
  unfold eval, exec, bind in *.
  destruct (setCache cfg key v (Some ttl) w) as [r w1]. simpl in *. subst r.
  by rewrite Hget, Hhit.
Qed.

(** C3 (as stated, refuted).  Fallback mode, no HTTP tier: a string of
    52 428 801 letters serializes and parses back, yet [getCache] right
    after [setCache] returns null. *)
Lemma setCache_getCache_oversized_is_null :
  JSON_stringify oversized_value = Some (quote (filler (N.to_nat 52428801))) /\
  JSONRef.JSON_parse (quote (filler (N.to_nat 52428801))) = Some oversized_value /\
  eval (setCache cfg_plain "audit:export" oversized_value (Some 60%Z) ;;
        getCache cfg_plain path_key_ref JSONRef.JSON_parse "audit:export") (boot lru [])
  = Ok VNull.
Proof.
  split; [reflexivity|]. split; [apply JSON_parse_quote|].
  apply (setCache_oversized cfg_plain path_key_ref JSONRef.JSON_parse "audit:export" oversized_value
           60%Z (quote (filler (N.to_nat 52428801))) (boot lru [])).
  - reflexivity.
  - constructor.
  - reflexivity.
  - reflexivity.
  - reflexivity.
  - reflexivity.
  - apply oversized_not_fits.
Qed.

(** *** C7: invalidation by pattern *)

(** C7.  The specification's example, run in Fallback mode: after the
    three keys are set, [invalidatePattern("audit:stats:*")] finds no key
    that contains the pattern text, deletes nothing and returns 0, where
    the specification expects the two stats keys gone and the count 2. *)
Theorem invalidatePattern_lru_glob_matches_nothing :
  let w := three_keys cfg_plain lru in
  let w' := exec (invalidatePattern cfg_plain "audit:stats:*") w in
  l_key <$> lruCache w = ["audit:other:c"; "audit:stats:b"; "audit:stats:a"] /\
  eval (invalidatePattern cfg_plain "audit:stats:*") w = Ok 0%Z /\
  lruCache w' = lruCache w.
Proof. vm_compute. auto. Qed.

(** The same call in Primary mode removes the two keys from the
    persistent-connection tier and returns 2; the copies [setCache] left
    in the in-process tier stay, and [getCache] still finds them there. *)
Example invalidatePattern_redis_leaves_lru :
  let w := three_keys cfg_plain redis in
  let w' := exec (invalidatePattern cfg_plain "audit:stats:*") w in
  eval (invalidatePattern cfg_plain "audit:stats:*") w = Ok 2%Z /\
  db_keys (now w') (redis_db w') = ["audit:other:c"] /\
  l_key <$> lruCache w' = ["audit:other:c"; "audit:stats:b"; "audit:stats:a"] /\
  eval (getCache cfg_plain path_key_ref JSONRef.JSON_parse "audit:stats:a") w' = Ok (VNum 1).
Proof. vm_compute. auto. Qed.

(** In Fallback mode a pattern matches by containment: without the star
    the two keys go. *)
Example invalidatePattern_lru_substring :
  let w := three_keys cfg_plain lru in
  let w' := exec (invalidatePattern cfg_plain "audit:stats:") w in
  eval (invalidatePattern cfg_plain "audit:stats:") w = Ok 2%Z /\
  l_key <$> lruCache w' = ["audit:other:c"].
Proof. vm_compute. auto. Qed.

(** [forEach(key => lruCache.delete(key))] removes the entries of the
    given keys and prints nothing. *)
Lemma forEach_lru_delete keys w :
  let w' := exec (forEach lru_delete keys) w in
  eval (forEach lru_delete keys) w = Ok tt /\
  lruCache w' = filter (fun e => l_key e ∉ keys) (lruCache w) /\
  console w' = console w.
Proof.
  revert w. induction keys as [|k keys IH]; intros w; simpl.
  - split; [done|]. split; [|done].
    unfold exec, ret. simpl. induction (lruCache w) as [|e c IHc]; [done|].
    rewrite filter_cons_True by apply not_elem_of_nil. by rewrite <- IHc.
  - assert (exists w1, lru_delete k w = (Ok tt, w1) /\
                        lruCache w1 = lru_remove k (lruCache w) /\
                        console w1 = console w) as (w1 & Hstep & Hrem & Hcon).
    { by eexists. }
    destruct (IH w1) as (He & Hc & Hl).
    unfold exec, eval, bind in *. rewrite Hstep. simpl.
    split; [done|]. split; [|by rewrite Hl].
    rewrite Hc, Hrem. unfold lru_remove. rewrite list_filter_filter.
    apply list_filter_iff. intros e. rewrite not_elem_of_cons.
    split; intros [Hk Ho]; (split; [exact Ho | exact Hk]).
Qed.

(** In Fallback mode [invalidatePattern] in general: the keys deleted are
    those of the live entries that contain the pattern as a piece of text,
    and the number returned is how many of them there were. *)
Lemma invalidatePattern_lru cfg pattern w :
  currentCacheMode w = lru ->
  let keys := filter (fun key => includes key pattern = true)
                     (l_key <$> filter (fun e => lru_stale (now w) e = false) (lruCache w)) in
  let w' := exec (invalidatePattern cfg pattern) w in
  eval (invalidatePattern cfg pattern) w = Ok (Z.of_nat (List.length keys)) /\
  lruCache w' = filter (fun e => l_key e ∉ keys) (lruCache w).
Proof.
  intros Hmode keys.
  pose proof (forEach_lru_delete keys
                (with_trace (cons (Call Lru "keys" "" true)) w)) as Hdel.
  cbv zeta in Hdel. destruct Hdel as (He & Hc & Hl).
  unfold invalidatePattern, lru_keys, console_log, emit, modify, gets, ret,
    bind, exec, eval in *.
  cbn [fst snd] in *. rewrite Hmode. cbn [mode_eqb negb orb].
  rewrite orb_true_r. cbn [orb].
  destruct w; cbn [now lruCache with_trace] in *. fold keys.
  destruct (forEach lru_delete keys _) as [r w1]. cbn [fst snd] in *. subst r.
  cbn [fst snd]. split; [done|]. by destruct w1.
Qed.

(** *** C10: a cached null *)

(** On a miss [withCache] runs the computation, stores what it returned
    and returns it; what the computation throws goes to the caller. *)
Lemma withCache_miss cfg path_key JSON_parse key fetchFunction ttl w :
  eval (getCache cfg path_key JSON_parse key) w = Ok VNull ->
  withCache cfg path_key JSON_parse key fetchFunction ttl w
  = match fetchFunction (exec (getCache cfg path_key JSON_parse key) w) with
    | (Ok data, w2) => (Ok data, exec (setCache cfg key data ttl) w2)
    | (Throw e, w2) => (Throw e, w2)
    end.
Proof.
  unfold withCache, eval, exec, bind, ret. intros Hget.
  destruct (getCache cfg path_key JSON_parse key w) as [r w1]. simpl in *. subst r. simpl.
  destruct (fetchFunction w1) as [[data|e] w2]; [|done].
  pose proof (setCache_returns cfg key data ttl w2) as Hret. unfold eval in Hret.
  destruct (setCache cfg key data ttl w2) as [r w3]. simpl in *. by subst r.
Qed.

(** On a hit that is not null [withCache] does what [getCache] does and
    nothing else: the computation is not run and nothing is written. *)
Lemma withCache_hit cfg path_key JSON_parse key fetchFunction ttl v w :
  eval (getCache cfg path_key JSON_parse key) w = Ok v ->
  v <> VNull ->
  withCache cfg path_key JSON_parse key fetchFunction ttl w
  = (Ok v, exec (getCache cfg path_key JSON_parse key) w).
Proof.
  unfold withCache, eval, exec, bind, ret. intros Hget Hnn.
  destruct (getCache cfg path_key JSON_parse key w) as [r w1]. simpl in *. subst r.
  by destruct v.
Qed.

(** What the miss path leaves behind when the computation returned a
    value that [setCache] could store. *)
Lemma withCache_stores cfg path_key JSON_parse key fetchFunction ttl data text w w2 :
  ENABLE_CACHE cfg = true ->
  eval (getCache cfg path_key JSON_parse key) w = Ok VNull ->
  fetchFunction (exec (getCache cfg path_key JSON_parse key) w) = (Ok data, w2) ->
  quiet w2 ->
  JSON_stringify data = Some text ->
  (0 < or_default ttl (DEFAULT_TTL cfg))%Z ->
  (currentCacheMode w2 = redis /\ Tiers.redisClient w2 = true) \/
  (currentCacheMode w2 = lru /\ rest_configured cfg = true) \/
  fits text ->
  let w3 := exec (withCache cfg path_key JSON_parse key fetchFunction ttl) w in
  eval (withCache cfg path_key JSON_parse key fetchFunction ttl) w = Ok data /\
  quiet w3 /\ first_hit cfg w3 key = Some text /\ currentCacheMode w3 = currentCacheMode w2.
Proof.
  intros Hen Hmiss Hfetch Hq Hs Httl Hcase. cbv zeta.
  assert (withCache cfg path_key JSON_parse key fetchFunction ttl w
          = (Ok data, exec (setCache cfg key data ttl) w2)) as Hfirst.
  { rewrite withCache_miss by done. by rewrite Hfetch. }
  unfold eval at 1, exec at 1 2 3. rewrite Hfirst. cbn [fst snd]. split; [done|].
  by apply setCache_first_hit_default.
Qed.

(** What [getCache] returns for a first hit. *)
Lemma getCache_hit cfg path_key JSON_parse key text v w :
  ENABLE_CACHE cfg = true ->
  quiet w ->
  own_key cfg path_key (currentCacheMode w) key ->
  first_hit cfg w key = Some text ->
  JSON_parse text = Some v ->
  eval (getCache cfg path_key JSON_parse key) w = Ok v.
Proof.
  intros Hen Hq Hown Hhit Hparse.
  rewrite getCache_first_hit by done. rewrite Hhit. simpl. by rewrite Hparse.
Qed.




(** A computed null that [withCache] stored reads as a miss again: the
    next call recomputes as well. *)
Lemma withCache_null_stays_miss cfg path_key JSON_parse key ttl w w1 :
  ENABLE_CACHE cfg = true ->
  quiet w1 ->
  own_key cfg path_key (currentCacheMode w1) key ->
  JSON_parse "null" = Some VNull ->
  (0 < ttl)%Z ->
  eval (getCache cfg path_key JSON_parse key) w = Ok VNull ->
  exec (getCache cfg path_key JSON_parse key) w = w1 ->
  let w' := exec (withCache cfg path_key JSON_parse key (ret VNull) (Some ttl)) w in
  eval (getCache cfg path_key JSON_parse key) w' = Ok VNull.
Proof.
  intros Hen Hq Hown Hparse Httl Hget Hw1. simpl.
  unfold exec at 1. rewrite withCache_miss by done. rewrite Hw1. unfold ret at 1. simpl.
  assert (fits "null") as Hfit by (unfold fits; vm_compute; discriminate).
  destruct (setCache_first_hit cfg key VNull ttl "null" w1 Hen Hq eq_refl Httl)
    as (Hq' & Hhit & Hmode).
  { by right; right. }
  rewrite <- Hmode in Hown. by eapply getCache_hit.
Qed.

End CacheFacts.

(* ===================================================================== *)
(** ** The dedup guard *)
(* ===================================================================== *)

Module DedupFacts.

Import Dedup Run.

(** C9.  An empty event id is never a duplicate and is never recorded:
    both calls return at once and leave the whole state, trace included,
    as it was. *)
Theorem empty_eventId_is_ignored cfg sourceService w :
  isDuplicate cfg "" sourceService w = (Ok false, w) /\
  markAsProcessed cfg "" sourceService w = (Ok tt, w).
Proof. done. Qed.

Lemma isDuplicate_returns cfg eventId sourceService w :
  eval (isDuplicate cfg eventId sourceService) w = Ok true \/
  eval (isDuplicate cfg eventId sourceService) w = Ok false.
Proof.
  unfold isDuplicate, Dedup.redisClient, token.
  destruct w as [mode client rdb udb lc rows t fs tr con].
  unfold_all; sim; steps; auto.
Qed.

Lemma markAsProcessed_returns cfg eventId sourceService w :
  eval (markAsProcessed cfg eventId sourceService) w = Ok tt.
Proof.
  unfold markAsProcessed, Dedup.redisClient, token.
  destruct w as [mode client rdb udb lc rows t fs tr con].
  unfold_all; sim; steps; auto.
Qed.

Ltac no_raise H :=
  first [ eapply (raised_inv _ _ []) in H; [|reflexivity]
        | eapply (raised_inv _ _ [_]) in H; [|reflexivity]
        | eapply (raised_inv _ _ [_; _]) in H; [|reflexivity]
        | eapply (raised_inv _ _ [_; _; _]) in H; [|reflexivity]
        | eapply (raised_inv _ _ [_; _; _; _]) in H; [|reflexivity] ];
  repeat (apply Exists_cons in H as [H|H]; [by unfold failed in H|]);
  by apply Exists_nil in H.

Lemma isDuplicate_true_not_raised cfg eventId sourceService w :
  eval (isDuplicate cfg eventId sourceService) w = Ok true ->
  raised w (exec (isDuplicate cfg eventId sourceService) w) ->
  False.
Proof.
  unfold isDuplicate, Dedup.redisClient, token.
  destruct w as [mode client rdb udb lc rows t fs tr con].
  unfold_all; sim; steps.
  all: intros ? Hr; simplify_eq; no_raise Hr.
Qed.

(** C5.  [isDuplicate] always returns, and returns false whenever one of
    its tier operations failed; [markAsProcessed] always returns, whatever
    its tier operations do, a refused duplicate insert included. *)
Theorem dedup_errors_are_swallowed cfg eventId sourceService w :
  (exists b,
     eval (isDuplicate cfg eventId sourceService) w = Ok b /\
     (raised w (exec (isDuplicate cfg eventId sourceService) w) -> b = false)) /\
  eval (markAsProcessed cfg eventId sourceService) w = Ok tt.
Proof.
  split; [|apply markAsProcessed_returns].
  destruct (isDuplicate_returns cfg eventId sourceService w) as [H|H].
  - exists true. split; [done|]. intros Hr.
    by destruct (isDuplicate_true_not_raised cfg eventId sourceService w).
  - by exists false.
Qed.

(** The refused insert, spelled out: the id is already recorded, the
    durable tier answers with its unique-constraint error, the service
    logs it and returns; the table is unchanged. *)
Lemma markAsProcessed_duplicate_insert cfg id sourceService w :
  id <> "" ->
  default false (head (faults w)) = false ->
  existsb (fun r => String.eqb (eventId r) id) (eventDedup w) = true ->
  let w' := exec (markAsProcessed cfg id sourceService) w in
  eval (markAsProcessed cfg id sourceService) w = Ok tt /\
  eventDedup w' = eventDedup w /\
  upstash_db w' = upstash_db w /\
  console w'
  = Error "[Dedup] Error marking event as processed:" (PrismaError "P2002") :: console w.
Proof.
  intros Hid Hok Hdup. split; [apply markAsProcessed_returns|].
  unfold markAsProcessed.
  destruct id as [|c id]; [done|]. cbn [truthy_string negb].
  destruct w as [mode client rdb udb lc rows t fs tr con].
  unfold_all; sim. rewrite Hok. sim. rewrite Hdup. sim. done.
Qed.

(** *** C6: mark, then check *)

Lemma find_app_fresh {A} (f : A -> bool) (l : list A) (x : A) :
  existsb f l = false -> f x = true -> List.find f (l ++ [x])%list = Some x.
Proof.
  induction l as [|y l IH]; simpl; intros Hl Hx; [by rewrite Hx|].
  apply orb_false_iff in Hl as [-> Hl]. by apply IH.
Qed.

Lemma no_fault_head (l : list bool) :
  Forall (fun b => b = false) l -> default false (head l) = false.
Proof. destruct l; [done|]. by intros [-> _]%Forall_cons. Qed.

Lemma no_fault_tail (l : list bool) :
  Forall (fun b => b = false) l -> Forall (fun b => b = false) (tail l).
Proof. destruct l; [done|]. by intros [_ ?]%Forall_cons. Qed.

Ltac not_clean H :=
  unfold clean in H; sim;
  first [ eapply (grown_inv _ [_]) in H
        | eapply (grown_inv _ [_; _]) in H
        | eapply (grown_inv _ [_; _; _]) in H ];
  repeat (apply Forall_cons in H as [? H]); done.

(** C6.  A successful [markAsProcessed] of a non-empty id, one whose tier
    operations all succeed, appends the record with [expiresAt] seven
    days after the current time and, when the fast tier is configured,
    writes the sentinel with a seven-day expiry; an [isDuplicate] that
    follows at once and meets no failing tier operation returns true. *)
Theorem markAsProcessed_then_isDuplicate cfg id service w :
  id <> "" ->
  let w1 := exec (markAsProcessed cfg id service) w in
  clean w w1 ->
  quiet w1 ->
  eval (isDuplicate cfg id service) w1 = Ok true /\
  eventDedup w1
  = (eventDedup w ++ [{| eventId := id; sourceService := service;
                         expiresAt := (now w + 7 * 86400000)%Z |}])%list /\
  (Dedup.redisClient cfg = true ->
   upstash_db w1 !! ("audit:dedup:" ++ id)
   = Some {| e_value := "1"; e_expires := Some (now w + 604800 * 1000)%Z |}).
Proof.
  intros Hid w1. subst w1.
  destruct id as [|c id]; [done|]. set (id' := String c id) in *.
  assert (truthy_string id' = true) as Hne by done. clearbody id'. clear Hid.
  assert (forall t, (t <? t + 604800 * 1000)%Z = true) as Hlive.
  { intros. apply Z.ltb_lt. lia. }
  assert (truthy_decoded (Some "1") = true) as Hone by reflexivity.
  unfold isDuplicate, markAsProcessed, Dedup.redisClient, token, addDays,
    upstash_get, upstash_set.
  rewrite Hne. cbn [negb].
  destruct w as [mode client rdb udb lc rows t fs tr con].
  intros Hc Hq.
  remember (ENABLE_CACHE cfg && truthy (UPSTASH_REST_URL cfg)) as fast eqn:Hfast.
  remember (truthy (UPSTASH_REST_TOKEN cfg)) as tok eqn:Htok.
  unfold quiet in Hq.
  pose proof (no_fault_head _ Hq) as Hh1.
  pose proof (no_fault_head _ (no_fault_tail _ Hq)) as Hh2.
  pose proof (no_fault_head _ (no_fault_tail _ (no_fault_tail _ Hq))) as Hh3.
  clear Hq.
  destruct fast, tok; unfold_all; sim;
    steps_with ltac:(rewrite ?lookup_insert_eq, ?Hlive, ?Hone, ?Hh1, ?Hh2, ?Hh3;
                     try (erewrite find_app_fresh
                            by (sim; first [eassumption | apply String.eqb_refl]));
                     try (by not_clean Hc)).
Qed.

Lemma markAsProcessed_then_isDuplicate_witness :
  let w := boot lru [] in
  let w1 := exec (markAsProcessed cfg_rest "evt-1" "finance") w in
  ("evt-1" <> "" /\ clean w w1 /\ quiet w1) /\
  eval (isDuplicate cfg_rest "evt-1" "finance") w1 = Ok true /\
  eventDedup w1
  = [{| eventId := "evt-1"; sourceService := "finance";
        expiresAt := (1700000000000 + 7 * 86400000)%Z |}] /\
  (Dedup.redisClient cfg_rest = true ->
   upstash_db w1 !! ("audit:dedup:" ++ "evt-1")
   = Some {| e_value := "1"; e_expires := Some (1700000000000 + 604800 * 1000)%Z |}).
Proof.
  assert (clean (boot lru []) (exec (markAsProcessed cfg_rest "evt-1" "finance") (boot lru [])))
    as Hc.
  { exists [Call Rest "set" "audit:dedup:evt-1" true; Call Db "create" "evt-1" true].
    split; [reflexivity | repeat constructor]. }
  assert (quiet (exec (markAsProcessed cfg_rest "evt-1" "finance") (boot lru []))) as Hq
    by constructor.
  split; [by repeat split|].
  apply (markAsProcessed_then_isDuplicate cfg_rest "evt-1" "finance" (boot lru []));
    [discriminate | exact Hc | exact Hq].
Defined.

(** *** C8: the sweep *)

Lemma filter_split_length {A} (f : A -> bool) (l : list A) :
  List.length (filter (fun x => f x = true) l) + List.length (filter (fun x => f x = false) l)
  = List.length l.
Proof.
  induction l as [|x l IH]; [done|].
  rewrite !filter_cons. destruct (f x) eqn:E; repeat case_decide; try done; simpl.
  - f_equal. exact IH.
  - rewrite Nat.add_succ_r. f_equal. exact IH.
Qed.

(** C8.  When the delete-many call goes through, [cleanupExpired] leaves
    exactly the records whose [expiresAt] is not strictly before the
    current time, in their order, and returns how many it removed. *)
Theorem cleanupExpired_removes_expired w :
  default false (head (faults w)) = false ->
  let w' := exec cleanupExpired w in
  eventDedup w' = filter (fun r => (expiresAt r <? now w)%Z = false) (eventDedup w) /\
  (forall r, r ∈ eventDedup w' <-> r ∈ eventDedup w /\ (now w <= expiresAt r)%Z) /\
  eval cleanupExpired w
  = Ok (Z.of_nat (List.length (eventDedup w) - List.length (eventDedup w'))).
Proof.
  intros Hok. destruct w as [mode client rdb udb lc rows t fs tr con].
  unfold cleanupExpired. unfold_all; sim. rewrite Hok. sim.
  split; [done|]. split.
  - intros r. rewrite list_elem_of_filter, Z.ltb_ge. tauto.
  - do 2 f_equal.
    pose proof (filter_split_length (fun r => (expiresAt r <? t)%Z) rows) as Hlen.
    cbv beta in Hlen. lia.
Qed.

Lemma cleanupExpired_removes_expired_witness :
  let w' := exec cleanupExpired sweep_world in
  default false (head (faults sweep_world)) = false /\
  eventDedup w'
  = filter (fun r => (expiresAt r <? now sweep_world)%Z = false) (eventDedup sweep_world) /\
  (forall r, r ∈ eventDedup w' <->
             r ∈ eventDedup sweep_world /\ (now sweep_world <= expiresAt r)%Z) /\
  eval cleanupExpired sweep_world
  = Ok (Z.of_nat (List.length (eventDedup sweep_world) - List.length (eventDedup w'))).
Proof.
  split; [reflexivity|].
  apply (cleanupExpired_removes_expired sweep_world). reflexivity.
Defined.

Example cleanupExpired_sample :
  eval cleanupExpired sweep_world = Ok 1%Z /\
  eventId <$> eventDedup (exec cleanupExpired sweep_world) = ["evt-now"; "evt-new"].
Proof. split; reflexivity. Qed.

(** When the delete-many call fails nothing is removed and the count is 0. *)
Lemma cleanupExpired_failure w :
  default false (head (faults w)) = true ->
  eval cleanupExpired w = Ok 0%Z /\
  eventDedup (exec cleanupExpired w) = eventDedup w.
Proof.
  intros Hfail. destruct w as [mode client rdb udb lc rows t fs tr con].
  unfold cleanupExpired. unfold_all; sim. rewrite Hfail. sim. done.
Qed.

End DedupFacts.

(* ===================================================================== *)
(** ** The cache facade: deleting, clearing, lifetimes and invalidation *)
(* ===================================================================== *)

Module OpsFacts.

Import Cache CacheOps Run CacheFacts.

Ltac unfold_ops :=
  unfold deleteCache, clearAll, restDel, fetch_del, redis_flushdb, lru_clear, later in *;
  unfold_all.

Lemma eval_bind {S A B} (m : M S A) (k : A -> M S B) s a :
  eval m s = Ok a -> eval (bind m k) s = eval (k a) (exec m s).
Proof. unfold eval, exec, bind. destruct (m s) as [r s']. simpl. by intros ->. Qed.

Lemma exec_bind {S A B} (m : M S A) (k : A -> M S B) s a :
  eval m s = Ok a -> exec (bind m k) s = exec (k a) (exec m s).
Proof. unfold eval, exec, bind. destruct (m s) as [r s']. simpl. by intros ->. Qed.

Lemma lru_find_remove_ne key key' c :
  key' <> key -> lru_find key' (lru_remove key c) = lru_find key' c.
Proof.
  intros Hne. unfold lru_find, lru_remove. induction c as [|e c IH]; [done|].
  rewrite filter_cons. case_decide as Hk; simpl.
  - by rewrite IH.
  - rewrite IH. destruct (String.eqb_spec (l_key e) key'); [congruence|done].
Qed.

(** [deleteCache] never throws. *)
Lemma deleteCache_returns cfg key w : eval (deleteCache cfg key) w = Ok tt.
Proof.
  unfold_ops. destruct w as [mode client rdb udb lc rows t fs tr con].
  destruct mode, client; sim; steps.
Qed.

Lemma deleteCache_first_hit cfg key w :
  ENABLE_CACHE cfg = true ->
  quiet w ->
  let w' := exec (deleteCache cfg key) w in
  quiet w' /\
  currentCacheMode w' = currentCacheMode w /\
  first_hit cfg w' key = None /\
  forall key', key' <> key -> first_hit cfg w' key' = first_hit cfg w key'.
Proof.
  intros Hen Hq. cbv zeta.
  unfold deleteCache, restDel, first_hit, rest_configured in *. rewrite Hen.
  unfold quiet.
  config_cases cfg; quiet_cases w Hq; destruct mode, client; sim;
    unfold_ops; sim; cbn [foldr];
    rewrite ?lookup_delete_eq, ?lru_find_remove; sim;
    (split; [by repeat constructor|]); (split; [done|]); (split; [done|]);
    intros key' Hne; rewrite ?lookup_delete_ne by done; rewrite ?lru_find_remove_ne by done;
    done.
Qed.

(** After [deleteCache(key)] without failures, [getCache(key)] is null,
    for a key that the HTTP tier is asked for as it is. *)
Theorem deleteCache_then_getCache cfg path_key JSON_parse key w :
  quiet w ->
  own_key cfg path_key (currentCacheMode w) key ->
  eval (deleteCache cfg key ;; getCache cfg path_key JSON_parse key) w = Ok VNull.
Proof.
  intros Hq Hown. pose proof (deleteCache_returns cfg key w) as Hret.
  destruct (ENABLE_CACHE cfg) eqn:Hen.
  - destruct (deleteCache_first_hit cfg key w Hen Hq) as (Hq' & Hmode & Hhit & _).
    rewrite <- Hmode in Hown.
    pose proof (getCache_first_hit cfg path_key JSON_parse key _ Hen Hq' Hown) as Hget.
    unfold eval, exec, bind in *.
    destruct (deleteCache cfg key w) as [r w1]. simpl in *. subst r.
    by rewrite Hget, Hhit.
  - unfold eval, bind, deleteCache, getCache. by rewrite Hen.
Qed.

Lemma deleteCache_then_getCache_witness :
  let w := exec (setCache cfg_rest "audit:stats:a" (VNum 1) (Some 60%Z)) (boot lru []) in
  (quiet w /\ own_key cfg_rest path_key_ref (currentCacheMode w) "audit:stats:a") /\
  eval (getCache cfg_rest path_key_ref JSONRef.JSON_parse "audit:stats:a") w = Ok (VNum 1) /\
  eval (deleteCache cfg_rest "audit:stats:a" ;;
        getCache cfg_rest path_key_ref JSONRef.JSON_parse "audit:stats:a") w = Ok VNull.
Proof.
  assert (quiet (exec (setCache cfg_rest "audit:stats:a" (VNum 1) (Some 60%Z)) (boot lru [])))
    as Hq by constructor.
  assert (own_key cfg_rest path_key_ref lru "audit:stats:a") as Hown
    by (intros _ _; reflexivity).
  split; [split; [exact Hq | exact Hown]|]. split; [reflexivity|].
  apply (deleteCache_then_getCache cfg_rest path_key_ref JSONRef.JSON_parse "audit:stats:a" _
           Hq Hown).
Defined.

(** The same two calls on a key with a [#], in Fallback mode with the HTTP
    tier: the read that follows the delete asks for the text before the
    [#] and returns what that key holds. *)
Example deleteCache_cut_key :
  let w := exec (setCache cfg_rest "audit:stats:a" (VNum 1) (Some 60%Z) ;;
                 setCache cfg_rest "audit:stats:a#b" (VNum 2) (Some 60%Z)) (boot lru []) in
  eval (deleteCache cfg_rest "audit:stats:a#b" ;;
        getCache cfg_rest path_key_ref JSONRef.JSON_parse "audit:stats:a#b") w = Ok (VNum 1) /\
  eval (getCache cfg_rest path_key_ref JSONRef.JSON_parse "audit:stats:a#b") w = Ok (VNum 1) /\
  eval (deleteCache cfg_rest "audit:stats:a" ;;
        getCache cfg_rest path_key_ref JSONRef.JSON_parse "audit:stats:a#b") w = Ok (VNum 2).
Proof. vm_compute. auto. Qed.

(** [deleteCache(key)] does not change what [getCache] returns for another
    key, when that other key is one the HTTP tier is asked for as it is. *)
Theorem deleteCache_keeps_other_keys cfg path_key JSON_parse key key' w :
  quiet w ->
  key' <> key ->
  own_key cfg path_key (currentCacheMode w) key' ->
  eval (deleteCache cfg key ;; getCache cfg path_key JSON_parse key') w
  = eval (getCache cfg path_key JSON_parse key') w.
Proof.
  intros Hq Hne Hown. pose proof (deleteCache_returns cfg key w) as Hret.
  destruct (ENABLE_CACHE cfg) eqn:Hen.
  - destruct (deleteCache_first_hit cfg key w Hen Hq) as (Hq' & Hmode & _ & Hframe).
    rewrite (getCache_first_hit cfg path_key JSON_parse key' w Hen Hq Hown).
    rewrite <- Hmode in Hown.
    pose proof (getCache_first_hit cfg path_key JSON_parse key' _ Hen Hq' Hown) as Hget.
    unfold eval, exec, bind in *.
    destruct (deleteCache cfg key w) as [r w1]. simpl in *. subst r.
    by rewrite Hget, Hframe.
  - unfold eval, bind, deleteCache, getCache. by rewrite Hen.
Qed.

Lemma deleteCache_keeps_other_keys_witness :
  let w := three_keys cfg_rest lru in
  (quiet w /\ "audit:stats:b" <> "audit:stats:a" /\
   own_key cfg_rest path_key_ref (currentCacheMode w) "audit:stats:b") /\
  eval (getCache cfg_rest path_key_ref JSONRef.JSON_parse "audit:stats:b") w = Ok (VNum 2) /\
  eval (deleteCache cfg_rest "audit:stats:a" ;;
        getCache cfg_rest path_key_ref JSONRef.JSON_parse "audit:stats:b") w
  = eval (getCache cfg_rest path_key_ref JSONRef.JSON_parse "audit:stats:b") w.
Proof.
  assert (quiet (three_keys cfg_rest lru)) as Hq by constructor.
  assert (own_key cfg_rest path_key_ref lru "audit:stats:b") as Hown
    by (intros _ _; reflexivity).
  split; [split; [exact Hq | split; [discriminate | exact Hown]]|]. split; [reflexivity|].
  apply (deleteCache_keeps_other_keys cfg_rest path_key_ref JSONRef.JSON_parse
           "audit:stats:a" "audit:stats:b" _ Hq); [discriminate | exact Hown].
Defined.

(** When the delete on the persistent-connection tier fails, the handler
    of the enclosing [try] logs the error: the in-process entry is not
    deleted, and the call returns normally. *)
Theorem deleteCache_redis_error_keeps_lru cfg key w fs :
  ENABLE_CACHE cfg = true ->
  currentCacheMode w = redis ->
  Tiers.redisClient w = true ->
  faults w = true :: fs ->
  let w' := exec (deleteCache cfg key) w in
  eval (deleteCache cfg key) w = Ok tt /\
  lruCache w' = lruCache w /\
  redis_db w' = redis_db w /\
  upstash_db w' = upstash_db w /\
  console w' = Error "Cache delete error:" (NetworkError "redis") :: console w.
Proof.
  intros Hen Hmode Hclient Hfaults.
  destruct w as [mode client rdb udb lc rows t fs' tr con]. sim. subst.
  unfold_ops. rewrite Hen. sim. done.
Qed.

Lemma deleteCache_redis_error_keeps_lru_witness :
  let w := with_faults (fun _ => [true]) (three_keys cfg_plain redis) in
  let w' := exec (deleteCache cfg_plain "audit:stats:a") w in
  (ENABLE_CACHE cfg_plain = true /\ currentCacheMode w = redis /\
   Tiers.redisClient w = true /\ faults w = [true]) /\
  eval (deleteCache cfg_plain "audit:stats:a") w = Ok tt /\
  lruCache w' = lruCache w /\
  redis_db w' = redis_db w /\
  upstash_db w' = upstash_db w /\
  console w' = Error "Cache delete error:" (NetworkError "redis") :: console w.
Proof.
  split; [done|].
  apply (deleteCache_redis_error_keeps_lru cfg_plain "audit:stats:a"
           (with_faults (fun _ => [true]) (three_keys cfg_plain redis)) []); reflexivity.
Defined.

(** *** [clearAll] *)

Lemma clearAll_returns cfg w : eval (clearAll cfg) w = Ok tt.
Proof.
  unfold_ops. destruct w as [mode client rdb udb lc rows t fs tr con].
  destruct mode, client; sim; steps.
Qed.

(** [clearAll] never touches the HTTP tier: in Fallback mode what the REST
    endpoint holds is still served afterwards, under the keys it is
    asked for as they are. *)
Theorem clearAll_fallback_keeps_rest cfg path_key JSON_parse key s w :
  ENABLE_CACHE cfg = true ->
  rest_configured cfg = true ->
  currentCacheMode w = lru ->
  quiet w ->
  path_key key = Some key ->
  db_get (now w) (upstash_db w) key = Some s ->
  s <> "" ->
  let w' := exec (clearAll cfg) w in
  lruCache w' = [] /\
  upstash_db w' = upstash_db w /\
  eval (getCache cfg path_key JSON_parse key) w' = Ok (default VNull (JSON_parse s)).
Proof.
  intros Hen Hrest Hmode Hq Hpath Hget Hs. cbv zeta.
  assert (truthy_string s = true) as Hne by by destruct s.
  assert (quiet (exec (clearAll cfg) w) /\ lruCache (exec (clearAll cfg) w) = [] /\
          upstash_db (exec (clearAll cfg) w) = upstash_db w /\
          first_hit cfg (exec (clearAll cfg) w) key = Some s) as (Hq' & Hl & Hu & Hhit).
  { unfold clearAll, first_hit. rewrite Hen, Hrest.
    destruct w as [mode client rdb udb lc rows t fs tr con]. sim. subst.
    unfold_ops; sim. rewrite Hget. sim. by rewrite Hne. }
  split; [done|]. split; [done|].
  rewrite getCache_first_hit; [by rewrite Hhit | done | done | by intros _ _].
Qed.

Lemma clearAll_fallback_keeps_rest_witness :
  let w := exec (setCache cfg_rest "audit:stats:a" (VNum 1) (Some 60%Z)) (boot lru []) in
  let w' := exec (clearAll cfg_rest) w in
  (ENABLE_CACHE cfg_rest = true /\ rest_configured cfg_rest = true /\
   currentCacheMode w = lru /\ quiet w /\
   path_key_ref "audit:stats:a" = Some "audit:stats:a" /\
   db_get (now w) (upstash_db w) "audit:stats:a" = Some "1" /\ "1" <> "") /\
  lruCache w' = [] /\
  upstash_db w' = upstash_db w /\
  eval (getCache cfg_rest path_key_ref JSONRef.JSON_parse "audit:stats:a") w'
  = Ok (default VNull (JSONRef.JSON_parse "1")).
Proof.
  assert (quiet (exec (setCache cfg_rest "audit:stats:a" (VNum 1) (Some 60%Z)) (boot lru [])))
    as Hq by constructor.
  split; [by repeat split|].
  apply (clearAll_fallback_keeps_rest cfg_rest path_key_ref JSONRef.JSON_parse "audit:stats:a" "1" _);
    [reflexivity | reflexivity | reflexivity | exact Hq | reflexivity | reflexivity
     | discriminate].
Defined.

(** In Primary mode, after a [clearAll] without failures every key reads
    as null. *)
Theorem clearAll_primary_empties cfg path_key JSON_parse key w :
  currentCacheMode w = redis ->
  Tiers.redisClient w = true ->
  quiet w ->
  let w' := exec (clearAll cfg) w in
  eval (getCache cfg path_key JSON_parse key) w' = Ok VNull /\
  (ENABLE_CACHE cfg = true -> redis_db w' = ∅ /\ lruCache w' = []).
Proof.
  intros Hmode Hclient Hq. cbv zeta.
  destruct (ENABLE_CACHE cfg) eqn:Hen.
  - assert (quiet (exec (clearAll cfg) w) /\ redis_db (exec (clearAll cfg) w) = ∅ /\
            lruCache (exec (clearAll cfg) w) = [] /\
            first_hit cfg (exec (clearAll cfg) w) key = None) as (Hq' & Hr & Hl & Hhit).
    { unfold clearAll, first_hit. rewrite Hen.
      quiet_cases w Hq; sim; subst; unfold_ops; sim;
        rewrite lookup_empty; sim; (split; [by repeat constructor | done]). }
    assert (currentCacheMode (exec (clearAll cfg) w) = redis) as Hmode'.
    { unfold clearAll. rewrite Hen.
      destruct w as [mode client rdb udb lc rows t fs tr con]. sim. subst.
      unfold_ops; sim. by destruct (default false (head fs)). }
    split; [|done].
    rewrite getCache_first_hit; [by rewrite Hhit | done | done |].
    apply own_key_other_mode. by rewrite Hmode'.
  - split; [|done]. unfold getCache, eval. by rewrite Hen.
Qed.

Lemma clearAll_primary_empties_witness :
  let w := three_keys cfg_plain redis in
  let w' := exec (clearAll cfg_plain) w in
  (currentCacheMode w = redis /\ Tiers.redisClient w = true /\ quiet w) /\
  eval (getCache cfg_plain path_key_ref JSONRef.JSON_parse "audit:stats:a") w' = Ok VNull /\
  (ENABLE_CACHE cfg_plain = true -> redis_db w' = ∅ /\ lruCache w' = []).
Proof.
  assert (quiet (three_keys cfg_plain redis)) as Hq by constructor.
  split; [by repeat split|].
  apply (clearAll_primary_empties cfg_plain path_key_ref JSONRef.JSON_parse "audit:stats:a" _);
    [reflexivity | reflexivity | exact Hq].
Defined.

(** *** Nothing the facade does throws *)

Lemma returned_ok {A} (r : result A) :
  match r with Ok _ => True | Throw _ => False end -> exists a, r = Ok a.
Proof. destruct r; [eauto|done]. Qed.

Lemma getCache_returns cfg path_key JSON_parse key w :
  exists v, eval (getCache cfg path_key JSON_parse key) w = Ok v.
Proof.
  apply returned_ok.
  unfold_all. destruct w as [mode client rdb udb lc rows t fs tr con].
  destruct mode, client; sim; steps.
Qed.

Lemma invalidatePattern_returns cfg pattern w :
  exists n, eval (invalidatePattern cfg pattern) w = Ok n.
Proof.
  destruct (currentCacheMode w) eqn:Hmode.
  - apply returned_ok.
    unfold_all. destruct w as [mode client rdb udb lc rows t fs tr con].
    sim. subst. destruct client; sim; steps.
  - destruct (invalidatePattern_lru cfg pattern w Hmode) as [-> _]. eauto.
  - apply returned_ok.
    unfold_all. destruct w as [mode client rdb udb lc rows t fs tr con].
    sim. subst. destruct client; sim; steps.
Qed.

(** Whatever the tiers do, transport failures and unparsable texts
    included, [getCache], [setCache], [deleteCache], [invalidatePattern]
    and [clearAll] return normally: none of them throws. *)
Theorem facade_never_throws cfg path_key JSON_parse key pattern v ttl w :
  (exists r, eval (getCache cfg path_key JSON_parse key) w = Ok r) /\
  eval (setCache cfg key v ttl) w = Ok tt /\
  eval (deleteCache cfg key) w = Ok tt /\
  (exists n, eval (invalidatePattern cfg pattern) w = Ok n) /\
  eval (clearAll cfg) w = Ok tt.
Proof.
  split; [apply getCache_returns|]. split; [apply setCache_returns|].
  split; [apply deleteCache_returns|]. split; [apply invalidatePattern_returns|].
  apply clearAll_returns.
Qed.

(** *** How long an entry lives *)

(** What a [setCache] without failures writes: the text, with the expiry
    [now + ttl] seconds, in the networked tier of the mode, and in the
    in-process tier unless the text is larger than [maxSize]. *)
Lemma setCache_entries cfg key v ttlIn s w :
  ENABLE_CACHE cfg = true ->
  quiet w ->
  JSON_stringify v = Some s ->
  (0 < or_default ttlIn (DEFAULT_TTL cfg))%Z ->
  let ttl := or_default ttlIn (DEFAULT_TTL cfg) in
  let w' := exec (setCache cfg key v ttlIn) w in
  let fresh := {| e_value := s; e_expires := Some (now w + ttl * 1000)%Z |} in
  quiet w' /\ now w' = now w /\
  currentCacheMode w' = currentCacheMode w /\ Tiers.redisClient w' = Tiers.redisClient w /\
  redis_db w' = (if mode_eqb (currentCacheMode w) redis && Tiers.redisClient w
                 then <[key := fresh]> (redis_db w) else redis_db w) /\
  upstash_db w' = (if mode_eqb (currentCacheMode w) lru && rest_configured cfg
                   then <[key := fresh]> (upstash_db w) else upstash_db w) /\
  lruCache w' = (if (lru_maxSize <? Z.of_nat (String.length s))%Z
                 then lru_remove key (lruCache w)
                 else {| l_key := key; l_value := s; l_start := now w; l_ttl := ttl * 1000 |}
                      :: lru_fit (lru_max - 1) (lru_maxSize - Z.of_nat (String.length s))
                                 (lru_remove key (lruCache w))).
Proof.
  intros Hen Hq Hs Httl. cbv zeta.
  pose proof (JSON_stringify_truthy v s Hs) as Hne.
  unfold setCache, restSet, rest_configured in *. rewrite Hen, Hs.
  remember (or_default ttlIn (DEFAULT_TTL cfg)) as ttl eqn:Heqttl. clear Heqttl.
  destruct ttl as [|ttl|ttl]; try lia.
  assert ((Z.of_nat (String.length s) =? 0)%Z = false) as Hsize.
  { destruct s; [done|]. apply Z.eqb_neq. simpl. lia. }
  unfold quiet.
  config_cases cfg; quiet_cases w Hq; destruct mode, client; sim;
    unfold_all; sim; rewrite ?Hsize; sim;
    destruct (lru_maxSize <? Z.of_nat (String.length s))%Z; sim;
    (split; [by repeat constructor | done]).
Qed.

Lemma lru_stale_fresh key s t0 ttl t :
  (0 < ttl)%Z ->
  lru_stale t {| l_key := key; l_value := s; l_start := t0; l_ttl := ttl |}
  = (t0 + ttl <? t)%Z.
Proof.
  intros Httl. unfold lru_stale. cbn [l_ttl l_start].
  destruct (Z.eqb_spec ttl 0); [lia|]. cbn [negb andb].
  destruct (Z.ltb_spec ttl (t - t0)), (Z.ltb_spec (t0 + ttl) t); lia || done.
Qed.




(** In-process operation: what [getCache] does to the entry it returns. *)
Lemma getCache_lru_refresh cfg path_key JSON_parse key e w :
  ENABLE_CACHE cfg = true ->
  currentCacheMode w = lru ->
  rest_configured cfg = false ->
  lru_find key (lruCache w) = Some e ->
  lru_stale (now w) e = false ->
  let w' := exec (getCache cfg path_key JSON_parse key) w in
  lruCache w' = {| l_key := key; l_value := l_value e; l_start := now w; l_ttl := l_ttl e |}
                :: lru_remove key (lruCache w) /\
  now w' = now w /\ currentCacheMode w' = lru /\ faults w' = faults w.
Proof.
  intros Hen Hmode Hrest Hfind Hstale. cbv zeta.
  unfold getCache, restGet, rest_configured in *. rewrite Hen.
  destruct w as [mode client rdb udb lc rows t fs tr con]. sim. subst.
  config_cases cfg; try done; unfold_all; sim; rewrite Hfind, Hstale; sim; steps.
Qed.

(** With the in-process tier alone a read restarts the time to live
    ([updateAgeOnGet]): an entry read at [t1], before it expired, is still
    served at any [t2] up to [t1 + ttl], even when [t2] is past the expiry
    the write gave it. *)
Theorem lru_read_restarts_ttl cfg path_key JSON_parse key v ttlIn s v' w t1 t2 :
  ENABLE_CACHE cfg = true ->
  quiet w ->
  currentCacheMode w = lru ->
  rest_configured cfg = false ->
  JSON_stringify v = Some s ->
  JSON_parse s = Some v' ->
  fits s ->
  (0 < or_default ttlIn (DEFAULT_TTL cfg))%Z ->
  (t1 <= now w + or_default ttlIn (DEFAULT_TTL cfg) * 1000)%Z ->
  (t2 <= t1 + or_default ttlIn (DEFAULT_TTL cfg) * 1000)%Z ->
  let w1 := later t1 (exec (setCache cfg key v ttlIn) w) in
  let w2 := later t2 (exec (getCache cfg path_key JSON_parse key) w1) in
  eval (getCache cfg path_key JSON_parse key) w1 = Ok v' /\
  eval (getCache cfg path_key JSON_parse key) w2 = Ok v'.
Proof.
  intros Hen Hq Hmode Hrest Hs Hparse Hfit Httl Ht1 Ht2. cbv zeta.
  pose proof (JSON_stringify_truthy v s Hs) as Hne.
  destruct (setCache_entries cfg key v ttlIn s w Hen Hq Hs Httl)
    as (Hq' & Hnow & Hmode' & _ & _ & _ & Hl).
  set (ttl := or_default ttlIn (DEFAULT_TTL cfg)) in *.
  assert (0 < ttl * 1000)%Z as Hpos by lia.
  unfold fits in Hfit.
  destruct (Z.ltb_spec lru_maxSize (Z.of_nat (String.length s))) as [|_]; [lia|].
  set (w1 := later t1 (exec (setCache cfg key v ttlIn) w)).
  assert (quiet w1) as Hq1 by done.
  assert (currentCacheMode w1 = lru) as Hm1 by (unfold w1; simpl; congruence).
  assert (lru_find key (lruCache w1)
          = Some {| l_key := key; l_value := s; l_start := now w; l_ttl := ttl * 1000 |})
    as Hfind1 by (unfold w1; simpl; rewrite Hl; apply lru_find_head).
  assert (lru_stale (now w1) {| l_key := key; l_value := s; l_start := now w;
                               l_ttl := ttl * 1000 |} = false) as Hfresh1.
  { rewrite lru_stale_fresh by done. apply Z.ltb_ge. unfold w1. simpl. lia. }
  split.
  - rewrite getCache_first_hit by (done || by apply own_key_no_rest).
    unfold first_hit, hit, lru_peek. rewrite Hm1, Hrest, Hfind1, Hfresh1. simpl.
    rewrite Hne. simpl. by rewrite Hparse.
  - destruct (getCache_lru_refresh cfg path_key JSON_parse key _ w1 Hen Hm1 Hrest Hfind1 Hfresh1)
      as (Hl2 & Hnow2 & Hm2 & Hf2).
    set (w2 := later t2 (exec (getCache cfg path_key JSON_parse key) w1)).
    assert (quiet w2) as Hq2 by (unfold quiet, w2; simpl; by rewrite Hf2).
    rewrite getCache_first_hit by (done || by apply own_key_no_rest).
    unfold first_hit, hit, lru_peek, w2, later. sim. rewrite Hm2, Hrest, Hl2. sim.
    rewrite lru_find_head, lru_stale_fresh by done.
    destruct (Z.ltb_spec (now w1 + ttl * 1000) t2) as [Hlt|_].
    { unfold w1 in Hlt. simpl in Hlt. lia. }
    simpl. rewrite Hne. simpl. by rewrite Hparse.
Qed.

Lemma lru_read_restarts_ttl_witness :
  let w := boot lru [] in
  let t1 := (now w + 50000)%Z in
  let t2 := (now w + 100000)%Z in
  let w1 := later t1 (exec (setCache cfg_plain "audit:stats:a" sample_value (Some 60%Z)) w) in
  let w2 := later t2 (exec (getCache cfg_plain path_key_ref JSONRef.JSON_parse "audit:stats:a") w1) in
  (ENABLE_CACHE cfg_plain = true /\ quiet w /\ currentCacheMode w = lru /\
   rest_configured cfg_plain = false /\
   JSON_stringify sample_value = Some sample_text /\
   JSONRef.JSON_parse sample_text = Some sample_value /\
   fits sample_text /\
   (0 < or_default (Some 60) (DEFAULT_TTL cfg_plain))%Z /\
   (t1 <= now w + or_default (Some 60) (DEFAULT_TTL cfg_plain) * 1000)%Z /\
   (t2 <= t1 + or_default (Some 60) (DEFAULT_TTL cfg_plain) * 1000)%Z /\
   (now w + or_default (Some 60) (DEFAULT_TTL cfg_plain) * 1000 < t2)%Z) /\
  eval (getCache cfg_plain path_key_ref JSONRef.JSON_parse "audit:stats:a") w1 = Ok sample_value /\
  eval (getCache cfg_plain path_key_ref JSONRef.JSON_parse "audit:stats:a") w2 = Ok sample_value.
Proof.
  assert (quiet (boot lru [])) as Hq by constructor.
  assert (fits sample_text) as Hfit by (unfold fits; vm_compute; discriminate).
  split; [repeat split; try reflexivity; try exact Hfit; try exact Hq; vm_compute; discriminate|].
  apply (lru_read_restarts_ttl cfg_plain path_key_ref JSONRef.JSON_parse "audit:stats:a" sample_value
           (Some 60%Z) sample_text sample_value (boot lru [])
           (now (boot lru []) + 50000) (now (boot lru []) + 100000));
    try reflexivity; try exact Hq; try exact Hfit; vm_compute; discriminate.
Defined.

(** *** [withCache], twice *)

(** A value that [withCache] computed and stored is served by the next
    call from the cache: the second call returns the stored value,
    deserialized, and does exactly what [getCache] does, so its own
    computation is not run and nothing is written.  The key is one the
    HTTP tier is asked for as it is. *)
Theorem withCache_memoizes cfg path_key JSON_parse key fetch1 fetch2 ttl data s v' w w2 :
  ENABLE_CACHE cfg = true ->
  eval (getCache cfg path_key JSON_parse key) w = Ok VNull ->
  fetch1 (exec (getCache cfg path_key JSON_parse key) w) = (Ok data, w2) ->
  quiet w2 ->
  own_key cfg path_key (currentCacheMode w2) key ->
  JSON_stringify data = Some s ->
  JSON_parse s = Some v' ->
  v' <> VNull ->
  (0 < ttl)%Z ->
  (currentCacheMode w2 = redis /\ Tiers.redisClient w2 = true) \/
  (currentCacheMode w2 = lru /\ rest_configured cfg = true) \/
  fits s ->
  let w3 := exec (withCache cfg path_key JSON_parse key fetch1 (Some ttl)) w in
  eval (withCache cfg path_key JSON_parse key fetch1 (Some ttl)) w = Ok data /\
  withCache cfg path_key JSON_parse key fetch2 (Some ttl) w3
  = (Ok v', exec (getCache cfg path_key JSON_parse key) w3).
Proof.
  intros Hen Hmiss Hfetch Hq Hown Hs Hparse Hnn Httl Hcase. cbv zeta.
  destruct (withCache_stores cfg path_key JSON_parse key fetch1 (Some ttl) data s w w2
              Hen Hmiss Hfetch Hq Hs) as (Hret & Hq3 & Hhit & Hmode); [by destruct ttl | done |].
  split; [done|]. rewrite <- Hmode in Hown.
  apply withCache_hit; [|done]. by eapply getCache_hit.
Qed.

Lemma withCache_memoizes_witness :
  let w := boot lru [] in
  let fetch1 : M World value := ret sample_value in
  let fetch2 : M World value := throw (Failure "not reached") in
  let w3 := exec (withCache cfg_rest path_key_ref JSONRef.JSON_parse "audit:stats:a" fetch1 (Some 60%Z)) w in
  (ENABLE_CACHE cfg_rest = true /\
   eval (getCache cfg_rest path_key_ref JSONRef.JSON_parse "audit:stats:a") w = Ok VNull /\
   quiet (exec (getCache cfg_rest path_key_ref JSONRef.JSON_parse "audit:stats:a") w) /\
   own_key cfg_rest path_key_ref lru "audit:stats:a" /\
   JSON_stringify sample_value = Some sample_text /\
   JSONRef.JSON_parse sample_text = Some sample_value /\
   sample_value <> VNull /\ (0 < 60)%Z /\ rest_configured cfg_rest = true) /\
  eval (withCache cfg_rest path_key_ref JSONRef.JSON_parse "audit:stats:a" fetch1 (Some 60%Z)) w
  = Ok sample_value /\
  withCache cfg_rest path_key_ref JSONRef.JSON_parse "audit:stats:a" fetch2 (Some 60%Z) w3
  = (Ok sample_value, exec (getCache cfg_rest path_key_ref JSONRef.JSON_parse "audit:stats:a") w3).
Proof.
  assert (quiet (exec (getCache cfg_rest path_key_ref JSONRef.JSON_parse "audit:stats:a") (boot lru [])))
    as Hq by constructor.
  assert (own_key cfg_rest path_key_ref lru "audit:stats:a") as Hown
    by (intros _ _; reflexivity).
  split; [repeat split; try reflexivity; try exact Hq; try exact Hown; discriminate|].
  apply (withCache_memoizes cfg_rest path_key_ref JSONRef.JSON_parse "audit:stats:a"
           (ret sample_value) (throw (Failure "not reached")) 60%Z sample_value
           sample_text sample_value (boot lru [])
           (exec (getCache cfg_rest path_key_ref JSONRef.JSON_parse "audit:stats:a") (boot lru [])));
    try reflexivity; try exact Hq; try exact Hown; try discriminate.
  right. left. split; reflexivity.
Defined.

(** *** [invalidatePattern] in Primary mode *)

Lemma foldr_delete_lookup (db : gmap string entry) keys k :
  foldr delete db keys !! k = if decide (k ∈ keys) then None else db !! k.
Proof.
  induction keys as [|k' keys IH]; cbn [foldr].
  - destruct (decide (k ∈ [])) as [Hin|]; [by apply elem_of_nil in Hin | done].
  - destruct (decide (k ∈ k' :: keys)) as [Hin|Hout].
    + destruct (decide (k = k')) as [->|Hne]; [by rewrite lookup_delete_eq|].
      rewrite lookup_delete_ne by done. rewrite IH.
      apply elem_of_cons in Hin as [?|Hin]; [done|].
      by destruct (decide (k ∈ keys)).
    + apply not_elem_of_cons in Hout as [Hne Hout].
      rewrite lookup_delete_ne by done. rewrite IH.
      by destruct (decide (k ∈ keys)).
Qed.

Lemma db_keys_live t (db : gmap string entry) k :
  k ∈ db_keys t db <-> exists e, db !! k = Some e /\ live t e = true.
Proof.
  unfold db_keys. rewrite list_elem_of_fmap. split.
  - intros ([k' e] & -> & Hin). apply list_elem_of_filter in Hin as [Hlive Hin].
    apply elem_of_map_to_list in Hin. eauto.
  - intros (e & Hk & Hlive). exists (k, e). split; [done|].
    apply list_elem_of_filter. split; [done|]. by apply elem_of_map_to_list.
Qed.

Lemma invalidatePattern_redis_run cfg pattern w :
  ENABLE_CACHE cfg = true ->
  currentCacheMode w = redis ->
  Tiers.redisClient w = true ->
  quiet w ->
  let keys := filter (fun k => glob pattern k = true) (db_keys (now w) (redis_db w)) in
  let w' := exec (invalidatePattern cfg pattern) w in
  eval (invalidatePattern cfg pattern) w = Ok (Z.of_nat (List.length keys)) /\
  redis_db w' = foldr delete (redis_db w) keys /\
  now w' = now w /\
  lruCache w' = lruCache w /\
  upstash_db w' = upstash_db w /\
  currentCacheMode w' = redis /\ Tiers.redisClient w' = true /\ quiet w'.
Proof.
  intros Hen Hmode Hclient Hq. cbv zeta.
  unfold invalidatePattern. rewrite Hen. unfold quiet.
  quiet_cases w Hq; sim; subst; unfold_all; sim.
  all: destruct (filter (fun k => glob pattern k = true) (db_keys t rdb)) as [|k0 keys];
    sim; [by repeat split; repeat constructor|].
  all: try (destruct fs as [|[] fs]; [ | by apply Forall_cons in Hq as [? _] | ]); sim.
  all: repeat split; try done; try by repeat constructor.
  by apply Forall_cons in Hq as [_ ?].
Qed.

(** In Primary mode, without failures, [invalidatePattern] deletes from
    the persistent-connection tier the live keys the pattern matches as a
    glob, returns how many they were, and leaves every other key and the
    whole in-process tier as they were. *)
Theorem invalidatePattern_redis cfg pattern w :
  ENABLE_CACHE cfg = true ->
  currentCacheMode w = redis ->
  Tiers.redisClient w = true ->
  quiet w ->
  let keys := filter (fun k => glob pattern k = true) (db_keys (now w) (redis_db w)) in
  let w' := exec (invalidatePattern cfg pattern) w in
  eval (invalidatePattern cfg pattern) w = Ok (Z.of_nat (List.length keys)) /\
  (forall k, glob pattern k = true -> db_get (now w') (redis_db w') k = None) /\
  (forall k, glob pattern k = false -> redis_db w' !! k = redis_db w !! k) /\
  lruCache w' = lruCache w /\
  upstash_db w' = upstash_db w.
Proof.
  intros Hen Hmode Hclient Hq. cbv zeta.
  destruct (invalidatePattern_redis_run cfg pattern w Hen Hmode Hclient Hq)
    as (Hret & Hdb & Hnow & Hl & Hu & _).
  set (keys := filter (fun k => glob pattern k = true) (db_keys (now w) (redis_db w))) in *.
  assert (forall k, k ∈ keys <->
                    glob pattern k = true /\
                    exists e, redis_db w !! k = Some e /\ live (now w) e = true) as Hkeys.
  { intros k. unfold keys. by rewrite list_elem_of_filter, db_keys_live. }
  split; [done|]. rewrite Hdb, Hnow. split; [|split; [|done]].
  - intros k Hg. unfold db_get. rewrite foldr_delete_lookup.
    destruct (decide (k ∈ keys)) as [|Hout]; [done|].
    destruct (redis_db w !! k) as [e|] eqn:Hk; [|done].
    destruct (live (now w) e) eqn:Hlive; [|done].
    destruct Hout. apply Hkeys. eauto.
  - intros k Hg. rewrite foldr_delete_lookup.
    destruct (decide (k ∈ keys)) as [Hin|]; [|done].
    apply Hkeys in Hin as [Hg' _]. congruence.
Qed.

Lemma invalidatePattern_redis_witness :
  let w := three_keys cfg_plain redis in
  let keys := filter (fun k => glob "audit:stats:*" k = true) (db_keys (now w) (redis_db w)) in
  let w' := exec (invalidatePattern cfg_plain "audit:stats:*") w in
  (ENABLE_CACHE cfg_plain = true /\ currentCacheMode w = redis /\
   Tiers.redisClient w = true /\ quiet w) /\
  eval (invalidatePattern cfg_plain "audit:stats:*") w = Ok (Z.of_nat (List.length keys)) /\
  (forall k, glob "audit:stats:*" k = true -> db_get (now w') (redis_db w') k = None) /\
  (forall k, glob "audit:stats:*" k = false -> redis_db w' !! k = redis_db w !! k) /\
  lruCache w' = lruCache w /\
  upstash_db w' = upstash_db w.
Proof.
  assert (quiet (three_keys cfg_plain redis)) as Hq by constructor.
  split; [by repeat split|].
  apply (invalidatePattern_redis cfg_plain "audit:stats:*" (three_keys cfg_plain redis));
    [reflexivity | reflexivity | reflexivity | exact Hq].
Defined.

(** In Primary mode an invalidation does not reach what this process has
    cached itself: [setCache] also wrote the in-process tier, the
    invalidation deletes from the persistent-connection tier only, and
    [getCache] falls through to the in-process copy.  Whatever the
    pattern, the value is still served. *)
Theorem invalidatePattern_redis_keeps_serving cfg path_key JSON_parse key v ttl s v' pattern w :
  ENABLE_CACHE cfg = true ->
  currentCacheMode w = redis ->
  Tiers.redisClient w = true ->
  quiet w ->
  JSON_stringify v = Some s ->
  JSON_parse s = Some v' ->
  fits s ->
  (0 < ttl)%Z ->
  eval (setCache cfg key v (Some ttl) ;;
        invalidatePattern cfg pattern ;;
        getCache cfg path_key JSON_parse key) w = Ok v'.
Proof.
  intros Hen Hmode Hclient Hq Hs Hparse Hfit Httl.
  pose proof (JSON_stringify_truthy v s Hs) as Hne.
  pose proof (setCache_returns cfg key v (Some ttl) w) as Hret1.
  destruct (setCache_entries cfg key v (Some ttl) s w Hen Hq Hs)
    as (Hq1 & Hnow1 & Hmode1 & Hclient1 & Hr1 & _ & Hl1).
  { by destruct ttl. }
  replace (or_default (Some ttl) (DEFAULT_TTL cfg)) with ttl in * by by destruct ttl.
  set (w1 := exec (setCache cfg key v (Some ttl)) w) in *.
  rewrite Hmode, Hclient in *.
  destruct (invalidatePattern_redis_run cfg pattern w1 Hen)
    as (Hret2 & Hr2 & Hnow2 & Hl2 & _ & Hmode2 & Hclient2 & Hq2); [congruence..|done|].
  set (w2 := exec (invalidatePattern cfg pattern) w1) in *.
  assert (own_key cfg path_key (currentCacheMode w2) key) as Hown
    by (apply own_key_other_mode; by rewrite Hmode2).
  pose proof (getCache_first_hit cfg path_key JSON_parse key w2 Hen Hq2 Hown) as Hget.
  assert (first_hit cfg w2 key = Some s) as Hhit.
  { unfold first_hit, hit, lru_peek, db_get. rewrite Hmode2, Hclient2, Hr2, Hl2, Hl1, Hnow2.
    unfold fits in Hfit.
    destruct (Z.ltb_spec lru_maxSize (Z.of_nat (String.length s))) as [|_]; [lia|].
    rewrite lru_find_head, lru_stale_fresh by lia.
    destruct (Z.ltb_spec (now w + ttl * 1000) (now w1)) as [|_]; [lia|].
    cbn [mode_eqb andb truthy l_value]. rewrite Hne.
    rewrite foldr_delete_lookup.
    destruct (decide (key ∈ _)); [done|].
    rewrite Hr1. cbn [mode_eqb andb]. rewrite lookup_insert_eq.
    unfold live. cbn [e_expires e_value].
    destruct (Z.ltb_spec (now w1) (now w + ttl * 1000)); [|lia].
    cbn [truthy]. by rewrite Hne. }
  rewrite Hhit in Hget. simpl in Hget. rewrite Hparse in Hget. simpl in Hget.
  rewrite (eval_bind _ _ _ _ Hret1). fold w1.
  rewrite (eval_bind _ _ _ _ Hret2). exact Hget.
Qed.

Lemma invalidatePattern_redis_keeps_serving_witness :
  (ENABLE_CACHE cfg_plain = true /\ currentCacheMode (boot redis []) = redis /\
   Tiers.redisClient (boot redis []) = true /\ quiet (boot redis []) /\
   JSON_stringify sample_value = Some sample_text /\
   JSONRef.JSON_parse sample_text = Some sample_value /\
   fits sample_text /\ (0 < 60)%Z) /\
  eval (setCache cfg_plain "audit:stats:a" sample_value (Some 60%Z) ;;
        invalidatePattern cfg_plain "audit:stats:*" ;;
        getCache cfg_plain path_key_ref JSONRef.JSON_parse "audit:stats:a") (boot redis [])
  = Ok sample_value.
Proof.
  assert (fits sample_text) as Hfit by (unfold fits; vm_compute; discriminate).
  assert (quiet (boot redis [])) as Hq by constructor.
  split; [repeat split; try reflexivity; try exact Hfit; exact Hq|].
  apply (invalidatePattern_redis_keeps_serving cfg_plain path_key_ref JSONRef.JSON_parse "audit:stats:a"
           sample_value 60%Z sample_text sample_value "audit:stats:*" (boot redis []));
    try reflexivity; try exact Hfit; exact Hq.
Defined.

End OpsFacts.

(* ===================================================================== *)
(** ** Glob patterns that are a prefix and a star *)
(* ===================================================================== *)

Module GlobFacts.

Import Patterns.

Lemma glob_go_plain_char fuel a p c s :
  plain_char a = true ->
  glob_go (S fuel) (String a p) (String c s) = Ascii.eqb a c && glob_go fuel p s.
Proof.
  unfold plain_char. rewrite negb_true_iff, !orb_false_iff.
  intros [[[H1 H2] H3] H4]. cbn [glob_go]. rewrite H1, H2, H3, H4. by destruct p.
Qed.

Lemma glob_go_plain_nil fuel a p :
  plain_char a = true -> glob_go fuel (String a p) "" = false.
Proof.
  unfold plain_char. rewrite negb_true_iff, !orb_false_iff.
  intros [[[H1 H2] H3] H4]. destruct fuel; [done|]. cbn [glob_go]. by rewrite H1.
Qed.

(** A plain prefix of the pattern matches itself and nothing else. *)
Lemma glob_go_plain l p s fuel :
  plain l = true ->
  glob_go (String.length l + fuel) (l ++ p) s = true <->
  exists s', s = l ++ s' /\ glob_go fuel p s' = true.
Proof.
  revert s. induction l as [|a l IH]; intros s Hl.
  - simpl. split; [eauto|]. by intros (s' & -> & ?).
  - cbn [plain] in Hl. apply andb_true_iff in Hl as [Ha Hl].
    change (String a l ++ p) with (String a (l ++ p)).
    change (String.length (String a l) + fuel) with (S (String.length l + fuel)).
    destruct s as [|c s].
    + rewrite glob_go_plain_nil by done. split; [done|]. by intros (s' & ? & _).
    + rewrite glob_go_plain_char by done. rewrite andb_true_iff, IH by done.
      split.
      * intros [->%Ascii.eqb_eq (s' & -> & Hs')]. by exists s'.
      * intros (s' & [= -> ->] & Hs'). split; [apply Ascii.eqb_refl | by exists s'].
Qed.

Lemma skip_stars_plain p : 
  match p with String a _ => Ascii.eqb a "*" = false | "" => True end -> skip_stars p = p.
Proof. destruct p as [|a p]; [done|]. simpl. by intros ->. Qed.

(** A star followed by something that does not start with a star: the
    rest matches some suffix. *)
Lemma glob_go_star fuel a p s :
  Ascii.eqb a "*" = false ->
  glob_go (S fuel) (String "*" (String a p)) s = true <->
  exists s1 s2, s = s1 ++ s2 /\ glob_go fuel (String a p) s2 = true.
Proof.
  intros Ha. cbn [glob_go]. 
  replace (Ascii.eqb "*" "*") with true by done.
  cbn [skip_stars]. rewrite Ha.
  set (rest := String a p).
  induction s as [|c s IH]; simpl.
  - rewrite orb_false_r. split.
    + intros H. by exists "", "".
    + intros (s1 & s2 & Hs & H). destruct s1; [|done].
      change ("" ++ s2) with s2 in Hs. by subst.
  - rewrite orb_true_iff, IH. split.
    + intros [H|(s1 & s2 & -> & H)].
      * by exists "", (String c s).
      * by exists (String c s1), s2.
    + intros (s1 & s2 & Hs & H). destruct s1 as [|c' s1].
      * left. change ("" ++ s2) with s2 in Hs. by subst.
      * right. change (String c' s1 ++ s2) with (String c' (s1 ++ s2)) in Hs.
        injection Hs as -> ->. eauto.
Qed.

(** A trailing star matches whatever is left. *)
Lemma glob_go_star_end fuel s : glob_go (S fuel) "*" s = true.
Proof. done. Qed.

Lemma length_app (a b : string) :
  String.length (a ++ b) = String.length a + String.length b.
Proof. induction a; simpl; [done|]. by rewrite IHa. Qed.

(** The pattern [prefix*]: the keys that start with the prefix. *)
Lemma glob_prefix l k :
  plain l = true -> l <> "" ->
  glob (l ++ "*") k = true <-> exists rest, k = l ++ rest.
Proof.
  intros Hl Hne. unfold glob.
  destruct k as [|c k].
  - destruct l; [done|]. split; [done|]. by intros [rest ?].
  - rewrite length_app. cbn [String.length].
    replace (S (String.length l + 1)) with (String.length l + 2) by lia.
    rewrite glob_go_plain by done. split.
    + intros (s' & -> & _). eauto.
    + intros (rest & ->). eauto.
Qed.

End GlobFacts.

(* ===================================================================== *)
(** ** Keys of a user *)
(* ===================================================================== *)

Module UserKeyFacts.

Import Cache KeyFacts CacheFacts UserKeys.

Lemma obj_replace_keys o k v : (obj_replace o k v).*1 = o.*1.
Proof.
  induction o as [|[k' v'] o IH]; [done|]. simpl.
  destruct (String.eqb_spec k' k); csimpl; [by subst | by f_equal].
Qed.

Lemma filter_key_out (o : list (string * value)) k :
  k ∉ o.*1 -> filter (fun p => p.1 <> k) o = o.
Proof.
  induction o as [|[k' v'] o IH]; [done|].
  rewrite fmap_cons, not_elem_of_cons. cbn [fst]. intros [Hne Hout].
  rewrite filter_cons_True by (simpl; congruence). by rewrite IH.
Qed.

Lemma obj_replace_perm (o : list (string * value)) k v :
  NoDup o.*1 -> k ∈ o.*1 ->
  obj_replace o k v ≡ₚ filter (fun p => p.1 <> k) o ++ [(k, v)].
Proof.
  induction o as [|[k' v'] o IH]; rewrite ?fmap_cons; cbn [fst]; intros Hnd Hin.
  - by apply elem_of_nil in Hin.
  - apply NoDup_cons in Hnd as [Hk' Hnd]. cbn [obj_replace].
    destruct (String.eqb_spec k' k) as [->|Hne].
    + rewrite filter_cons_False by (simpl; tauto).
      rewrite filter_key_out by done. apply Permutation_cons_append.
    + rewrite filter_cons_True by done.
      apply elem_of_cons in Hin as [?|Hin]; [congruence|].
      rewrite <- app_comm_cons. by rewrite IH.
Qed.

Lemma obj_insert_index_perm n k v o : obj_insert_index n k v o ≡ₚ (k, v) :: o.
Proof.
  induction o as [|[k' v'] o IH]; simpl; [done|].
  destruct (array_index k'); [|done].
  destruct (n0 <? n)%N; [|done]. rewrite IH. apply Permutation_swap.
Qed.

Lemma obj_set_perm (o : list (string * value)) k v :
  NoDup o.*1 -> obj_set o k v ≡ₚ filter (fun p => p.1 <> k) o ++ [(k, v)].
Proof.
  intros Hnd. unfold obj_set. destruct (obj_has o k) eqn:Hhas.
  - apply obj_replace_perm; [done|].
    destruct (decide (k ∈ o.*1)) as [|Hout]; [done|].
    apply obj_has_false in Hout. congruence.
  - apply obj_has_false in Hhas. rewrite filter_key_out by done.
    destruct (array_index k).
    + rewrite obj_insert_index_perm. apply Permutation_cons_append.
    + done.
Qed.

Lemma filter_keys_NoDup (o : list (string * value)) (P : string * value -> Prop) `{!forall p, Decision (P p)} :
  NoDup o.*1 -> NoDup (filter P o).*1.
Proof.
  induction o as [|[k v] o IH]; [done|]. rewrite fmap_cons. cbn [fst].
  intros [Hk Hnd]%NoDup_cons.
  rewrite filter_cons. case_decide; [|by apply IH]. rewrite fmap_cons. cbn [fst].
  apply NoDup_cons. split; [|by apply IH].
  intros Hin. apply Hk. apply list_elem_of_fmap in Hin as (p & -> & Hin).
  apply list_elem_of_filter in Hin as [_ Hin]. by apply (list_elem_of_fmap_2 fst) in Hin.
Qed.

Lemma obj_set_NoDup o k v : NoDup o.*1 -> NoDup (obj_set o k v).*1.
Proof.
  intros Hnd. rewrite (obj_set_perm o k v Hnd), fmap_app. simpl.
  apply NoDup_app. split; [by apply filter_keys_NoDup|]. split; [|apply NoDup_singleton].
  intros k' Hin ->%list_elem_of_singleton.
  apply list_elem_of_fmap in Hin as (p & -> & Hin).
  by apply list_elem_of_filter in Hin as [? _].
Qed.

Lemma obj_spread_NoDup p : NoDup (obj_spread p).*1.
Proof.
  unfold obj_spread. induction p as [|[k v] p IH] using rev_ind; [constructor|].
  rewrite foldl_app. simpl. by apply obj_set_NoDup.
Qed.

(** Copying an object keeps its properties. *)
Lemma obj_spread_perm p : NoDup p.*1 -> obj_spread p ≡ₚ p.
Proof.
  unfold obj_spread. induction p as [|[k v] p IH] using rev_ind; [done|].
  rewrite fmap_app. intros (Hnd & Hk & _)%NoDup_app.
  rewrite foldl_app. simpl.
  rewrite obj_set_perm by apply obj_spread_NoDup. fold (obj_spread p).
  rewrite filter_key_out; [by rewrite IH|].
  unfold obj_spread. rewrite IH by done. intros Hin. apply (Hk k Hin). simpl. left.
Qed.

(** The object [{ ...params, userId, userRole }]. *)
Lemma user_params_perm u r p :
  let P := obj_set (obj_set (obj_spread p) "userId" (VStr u)) "userRole" (VStr r) in
  NoDup P.*1 /\ P ≡ₚ own_params (obj_spread p) ++ user_entries u r.
Proof.
  simpl. split; [apply obj_set_NoDup, obj_set_NoDup, obj_spread_NoDup|].
  rewrite obj_set_perm by apply obj_set_NoDup, obj_spread_NoDup.
  rewrite obj_set_perm by apply obj_spread_NoDup.
  rewrite filter_app, list_filter_filter.
  rewrite (filter_cons_True _ _ []) by done. rewrite filter_nil.
  unfold own_params, user_entries. rewrite <- (assoc_L (++)). simpl.
  apply Permutation_app; [|done].
  rewrite (list_filter_iff _ (fun q : string * value => q.1 <> "userId" /\ q.1 <> "userRole"));
    [done|]. intros q. tauto.
Qed.

(** The key of a user: the namespace, then the parameters other than
    [userId] and [userRole] together with the user's own two, in
    enumeration order. *)
Lemma generateUserCacheKey_normal ns u r p :
  generateUserCacheKey ns u r p
  = "audit:" ++ ns ++ ":" ++
    template (JSON_stringify
                (VObj (property_order (own_params (obj_spread p) ++ user_entries u r)%list))).
Proof.
  unfold generateUserCacheKey, generateCacheKey.
  destruct (user_params_perm u r p) as [Hnd Hp].
  rewrite sortedParams_property_order by done.
  by rewrite (property_order_perm _ _ Hnd Hp).
Qed.

(** *** Two users never share a key *)

Lemma append_assoc (a b c : string) : (a ++ b) ++ c = a ++ b ++ c.
Proof.
  induction a as [|x a IH]; [done|].
  change (String x ((a ++ b) ++ c) = String x (a ++ b ++ c)). by rewrite IH.
Qed.

(** A quoted string ends where its closing quote is: no quoted string is
    the start of another. *)
Lemma quote_prefix_free a b x y : quote a ++ x = quote b ++ y -> a = b /\ x = y.
Proof.
  unfold quote. rewrite !append_assoc. intros H%(inj (String.append dquote)).
  pose proof (string_body_quote_body a x) as Ha.
  pose proof (string_body_quote_body b y) as Hb.
  rewrite H in Ha. rewrite Ha in Hb. by injection Hb.
Qed.

Lemma join_cons sep x xs :
  join sep (x :: xs) = x ++ match xs with [] => "" | _ => sep ++ join sep xs end.
Proof.
  destruct xs; [|done]. simpl. induction x as [|c x IH]; [done|].
  change (String c x = String c (x ++ "")). by rewrite <- IH.
Qed.

Lemma join_same_but_quoted es1 es2 t :
  Forall2 same_but_quoted es1 es2 ->
  join "," es1 ++ t = join "," es2 ++ t ->
  es1 = es2.
Proof.
  induction 1 as [|a b es1 es2 Hab Hes IH]; [done|].
  rewrite !join_cons, !append_assoc. intros Heq.
  assert (a = b /\
          match es1 with [] => "" | _ => "," ++ join "," es1 end ++ t
          = match es2 with [] => "" | _ => "," ++ join "," es2 end ++ t) as [-> Hrest].
  { destruct Hab as [->|(pre & x & y & -> & ->)].
    - split; [done|]. by apply (inj (String.append b)) in Heq.
    - rewrite !append_assoc in Heq. apply (inj (String.append pre)) in Heq.
      apply quote_prefix_free in Heq as [-> ?]. done. }
  f_equal. apply IH.
  destruct Hes as [|a' b' es1 es2 _ _]; [done|].
  rewrite !append_assoc in Hrest. by apply (inj (String.append ",")) in Hrest.
Qed.

Lemma entry_text_as_user u1 r1 u2 r2 (l : list (string * value)) :
  Forall2 same_but_quoted
    (omap entry_text (as_user u1 r1 <$> l)) (omap entry_text (as_user u2 r2 <$> l)).
Proof.
  induction l as [|[k v] l IH]; [constructor|].
  rewrite !fmap_cons. unfold as_user at 1 3. cbn [fst].
  destruct (String.eqb k "userId"); [|destruct (String.eqb k "userRole")].
  - constructor; [|done]. right. exists (quote k ++ ":"), u1, u2.
    by rewrite !append_assoc.
  - constructor; [|done]. right. exists (quote k ++ ":"), r1, r2.
    by rewrite !append_assoc.
  - cbn [omap list_omap]. destruct (entry_text (k, v)); [|done].
    constructor; [by left | done].
Qed.

Lemma as_user_key u r p : (as_user u r p).1 = p.1.
Proof. unfold as_user. by repeat case_match. Qed.

(** The sorted properties of one user are those of the other with the
    two values replaced. *)
Lemma property_order_as_user u1 r1 u2 r2 (rest : list (string * value)) :
  NoDup rest.*1 ->
  Forall (fun q => q.1 <> "userId" /\ q.1 <> "userRole") rest ->
  property_order (rest ++ user_entries u2 r2)%list
  = as_user u2 r2 <$> property_order (rest ++ user_entries u1 r1)%list.
Proof.
  intros Hnd Hrest.
  assert (as_user u2 r2 <$> rest = rest) as Hid.
  { clear Hnd. induction Hrest as [|[k v] rest [H1 H2] _ IH]; [done|].
    rewrite fmap_cons, IH. f_equal. unfold as_user. simpl in *.
    apply String.eqb_neq in H1, H2. by rewrite H1, H2. }
  assert (forall u r, NoDup (rest ++ user_entries u r)%list.*1) as Hnd'.
  { intros u r. rewrite fmap_app. apply NoDup_app. split; [done|]. split.
    - intros k Hin Hk. rewrite Forall_forall in Hrest.
      apply list_elem_of_fmap in Hin as (q & -> & Hin). destruct (Hrest q Hin) as [H1 H2].
      simpl in Hk. apply elem_of_cons in Hk as [?|Hk]; [done|].
      by apply list_elem_of_singleton in Hk.
    - simpl. apply NoDup_cons. split; [|apply NoDup_singleton].
      by intros ?%list_elem_of_singleton. }
  unfold property_order.
  apply StronglySorted_unique_strong with (R := pair_le).
  - intros [k1 v1] [k2 v2] H1 H2 Hle Hge.
    rewrite merge_sort_Permutation in H1.
    apply list_elem_of_fmap in H2 as (q & Hq & H2).
    rewrite merge_sort_Permutation in H2.
    assert ((k2, v2) ∈ (rest ++ user_entries u2 r2)%list) as H2'.
    { rewrite Hq, <- Hid. replace (user_entries u2 r2) with (as_user u2 r2 <$> user_entries u1 r1)
        by done. rewrite <- fmap_app. by apply list_elem_of_fmap_2. }
    assert (k1 = k2) as -> by by apply (anti_symm key_le).
    f_equal.
    rewrite <- (obj_get_elem (rest ++ user_entries u2 r2)%list k2 v1),
            <- (obj_get_elem (rest ++ user_entries u2 r2)%list k2 v2); done.
  - apply StronglySorted_merge_sort; apply _.
  - apply StronglySorted_fmap with (R1 := pair_le).
    + intros x y. unfold pair_le. by rewrite !as_user_key.
    + apply StronglySorted_merge_sort; apply _.
  - rewrite !merge_sort_Permutation, fmap_app, Hid. done.
Qed.

Lemma own_params_spec (p : list (string * value)) :
  Forall (fun q => q.1 <> "userId" /\ q.1 <> "userRole") (own_params p).
Proof. apply Forall_forall. intros q Hin. by apply list_elem_of_filter in Hin as [? _]. Qed.

Lemma JSON_stringify_obj ps :
  JSON_stringify (VObj ps) = Some ("{" ++ join "," (omap entry_text ps) ++ "}").
Proof. done. Qed.

Lemma quote_inj a b : quote a = quote b -> a = b.
Proof.
  intros H. pose proof (JSON_parse_quote a) as Ha. rewrite H, JSON_parse_quote in Ha.
  by injection Ha.
Qed.

Lemma entry_text_user_inj key u1 r1 u2 r2 (l : list (string * value)) :
  key = "userId" \/ key = "userRole" ->
  key ∈ l.*1 ->
  omap entry_text (as_user u1 r1 <$> l) = omap entry_text (as_user u2 r2 <$> l) ->
  (if String.eqb key "userId" then u1 else r1) = (if String.eqb key "userId" then u2 else r2).
Proof.
  intros Hkey. induction l as [|[k v] l IH]; rewrite ?fmap_cons; cbn [fst].
  { by intros ?%elem_of_nil. }
  intros Hin. unfold as_user at 1 3. cbn [fst].
  assert (forall x y : string, Some (quote k ++ ":" ++ quote x) = Some (quote k ++ ":" ++ quote y)
                               -> x = y) as Hinj.
  { intros x y H. apply (inj Some) in H. apply (inj (String.append (quote k))) in H.
    apply (inj (String.append ":")) in H. by apply quote_inj. }
  destruct (String.eqb_spec k "userId") as [->|Hid];
    [|destruct (String.eqb_spec k "userRole") as [->|Hrole]].
  - cbn [omap list_omap entry_text fst snd JSON_stringify]. intros Heq.
    pose proof (f_equal head Heq) as H%Hinj. pose proof (f_equal tail Heq) as Htl.
    cbn [tail] in Htl.
    destruct Hkey as [->| ->]; [done|]. cbn [String.eqb Ascii.eqb Bool.eqb].
    apply elem_of_cons in Hin as [?|Hin]; [done|]. by apply IH.
  - cbn [omap list_omap entry_text fst snd JSON_stringify]. intros Heq.
    pose proof (f_equal head Heq) as H%Hinj. pose proof (f_equal tail Heq) as Htl.
    cbn [tail] in Htl.
    destruct Hkey as [->| ->]; [|done]. cbn [String.eqb Ascii.eqb Bool.eqb].
    apply elem_of_cons in Hin as [?|Hin]; [done|]. by apply IH.
  - apply elem_of_cons in Hin as [?|Hin]; [by destruct Hkey; subst|].
    cbn [omap list_omap]. destruct (entry_text (k, v)).
    + intros Heq. pose proof (f_equal tail Heq) as Htl. by apply IH.
    + by apply IH.
Qed.

Lemma generateUserCacheKey_inj ns u1 r1 u2 r2 params :
  generateUserCacheKey ns u1 r1 params = generateUserCacheKey ns u2 r2 params ->
  u1 = u2 /\ r1 = r2.
Proof.
  rewrite !generateUserCacheKey_normal.
  set (rest := own_params (obj_spread params)).
  assert (NoDup rest.*1) as Hnd by apply filter_keys_NoDup, obj_spread_NoDup.
  pose proof (own_params_spec (obj_spread params)) as Hrest. fold rest in Hrest.
  rewrite (property_order_as_user u1 r1 u2 r2 rest Hnd Hrest).
  rewrite (property_order_as_user u1 r1 u1 r1 rest Hnd Hrest) at 1.
  set (l := property_order (rest ++ user_entries u1 r1)%list).
  rewrite !JSON_stringify_obj. cbn [template default from_option].
  intros H. apply (inj (String.append "audit:")) in H.
  apply (inj (String.append ns)) in H. apply (inj (String.append ":")) in H.
  apply (inj (String.append "{")) in H.
  apply join_same_but_quoted in H; [|apply entry_text_as_user].
  assert (forall key, key = "userId" \/ key = "userRole" -> key ∈ l.*1) as Hin.
  { intros key Hkey. unfold l, property_order. rewrite merge_sort_Permutation, fmap_app.
    apply elem_of_app. right. simpl. destruct Hkey as [->| ->]; set_solver. }
  split.
  - apply (entry_text_user_inj "userId" u1 r1 u2 r2 l); auto.
  - apply (entry_text_user_inj "userRole" u1 r1 u2 r2 l); auto.
Qed.

(** Two users never share a cache key: for one namespace and one set of
    parameters, the keys of two users differ as soon as their ids or their
    roles do, whatever the parameters say about the user. *)
Theorem generateUserCacheKey_isolates ns u1 r1 u2 r2 params :
  u1 <> u2 \/ r1 <> r2 ->
  generateUserCacheKey ns u1 r1 params <> generateUserCacheKey ns u2 r2 params.
Proof.
  intros Hne Heq. apply generateUserCacheKey_inj in Heq as [-> ->]. by destruct Hne.
Qed.

Lemma generateUserCacheKey_isolates_witness :
  generateUserCacheKey "stats" "u-17" "Finance Admin"
    [("serviceName", VStr "finance"); ("userId", VStr "u-18")]
  <> generateUserCacheKey "stats" "u-18" "Finance Admin"
       [("serviceName", VStr "finance"); ("userId", VStr "u-18")].
Proof.
  apply (generateUserCacheKey_isolates "stats" "u-17" "Finance Admin" "u-18" "Finance Admin").
  left. discriminate.
Defined.

(** The key of a user depends on the parameters other than [userId] and
    [userRole] only, and not on their order: the two arguments replace
    whatever the parameters say about the user. *)
Theorem generateUserCacheKey_arguments_win ns u r (p1 p2 : props) :
  NoDup (Object_keys p1) ->
  NoDup (Object_keys p2) ->
  own_params p1 ≡ₚ own_params p2 ->
  generateUserCacheKey ns u r p1 = generateUserCacheKey ns u r p2.
Proof.
  intros Hnd1 Hnd2 Hp. rewrite !generateUserCacheKey_normal.
  assert (own_params (obj_spread p1) ≡ₚ own_params (obj_spread p2)) as Hp'.
  { unfold own_params in *. by rewrite !obj_spread_perm. }
  rewrite (property_order_perm (own_params (obj_spread p1) ++ user_entries u r)%list
                               (own_params (obj_spread p2) ++ user_entries u r)%list);
    [done| |by rewrite Hp'].
  unfold Object_keys. rewrite fmap_app. apply NoDup_app.
  split; [apply filter_keys_NoDup, obj_spread_NoDup|]. split.
  - intros k Hin Hk. apply list_elem_of_fmap in Hin as (q & -> & Hin).
    apply list_elem_of_filter in Hin as [[H1 H2] _]. simpl in Hk.
    apply elem_of_cons in Hk as [?|Hk]; [done|]. by apply list_elem_of_singleton in Hk.
  - simpl. apply NoDup_cons. split; [|apply NoDup_singleton].
    by intros ?%list_elem_of_singleton.
Qed.

Lemma generateUserCacheKey_arguments_win_witness :
  let p1 := [("userId", VStr "mallory"); ("days", VNum 7); ("serviceName", VStr "finance")] in
  let p2 := [("serviceName", VStr "finance"); ("days", VNum 7)] in
  (NoDup (Object_keys p1) /\ NoDup (Object_keys p2) /\ own_params p1 ≡ₚ own_params p2) /\
  generateUserCacheKey "recent" "u-17" "Finance Admin" p1
  = generateUserCacheKey "recent" "u-17" "Finance Admin" p2.
Proof.
  assert (NoDup (Object_keys [("userId", VStr "mallory"); ("days", VNum 7);
                              ("serviceName", VStr "finance")])) as Hnd1.
  { apply (bool_decide_unpack _). reflexivity. }
  assert (NoDup (Object_keys [("serviceName", VStr "finance"); ("days", VNum 7)])) as Hnd2.
  { apply (bool_decide_unpack _). reflexivity. }
  assert (own_params [("userId", VStr "mallory"); ("days", VNum 7);
                      ("serviceName", VStr "finance")]
          ≡ₚ own_params [("serviceName", VStr "finance"); ("days", VNum 7)]) as Hp.
  { apply Permutation_swap. }
  split; [by repeat split|].
  apply (generateUserCacheKey_arguments_win "recent" "u-17" "Finance Admin" _ _ Hnd1 Hnd2 Hp).
Defined.

Example generateUserCacheKey_sample :
  generateUserCacheKey "stats" "u-17" "Finance Admin" [("serviceName", VStr "finance")]
  = js "audit:stats:{'serviceName':'finance','userId':'u-17','userRole':'Finance Admin'}".
Proof. reflexivity. Qed.

End UserKeyFacts.

(* ===================================================================== *)
(** ** Invalidation of a namespace *)
(* ===================================================================== *)

Module NamespaceFacts.

Import Cache CacheOps Patterns UserKeys Run CacheFacts OpsFacts GlobFacts UserKeyFacts.

Lemma invalidatePattern_prefix_cleared cfg prefix w :
  plain prefix = true -> prefix <> "" ->
  ENABLE_CACHE cfg = true ->
  currentCacheMode w = redis ->
  Tiers.redisClient w = true ->
  quiet w ->
  cleared prefix w (exec (invalidatePattern cfg (prefix ++ "*")) w).
Proof.
  intros Hplain Hne Hen Hmode Hclient Hq.
  destruct (invalidatePattern_redis_run cfg (prefix ++ "*") w Hen Hmode Hclient Hq)
    as (_ & Hdb & Hnow & _).
  set (keys := filter (fun k => glob (prefix ++ "*") k = true) (db_keys (now w) (redis_db w)))
    in *.
  assert (forall k, k ∈ keys <->
                    (exists rest, k = prefix ++ rest) /\
                    exists e, redis_db w !! k = Some e /\ live (now w) e = true) as Hkeys.
  { intros k. unfold keys. by rewrite list_elem_of_filter, db_keys_live, glob_prefix. }
  unfold cleared. rewrite Hdb, Hnow. split.
  - intros rest. unfold db_get. rewrite foldr_delete_lookup.
    destruct (decide (prefix ++ rest ∈ keys)) as [|Hout]; [done|].
    destruct (redis_db w !! (prefix ++ rest)) as [e|] eqn:Hk; [|done].
    destruct (live (now w) e) eqn:Hlive; [|done].
    destruct Hout. apply Hkeys. eauto.
  - intros k Hk. rewrite foldr_delete_lookup.
    destruct (decide (k ∈ keys)) as [Hin|]; [|done].
    apply Hkeys in Hin as [[rest ->] _]. by destruct (Hk rest).
Qed.

(** In Primary mode, without failures, [invalidateSummaries],
    [invalidateStats] and [invalidateRecent] each remove from the
    persistent-connection tier exactly the keys of their namespace: the
    keys that start with [audit:summaries:], [audit:stats:] and
    [audit:recent:], among them every key [generateUserCacheKey] makes
    for that namespace. *)
Theorem invalidate_namespace_redis cfg w :
  ENABLE_CACHE cfg = true ->
  currentCacheMode w = redis ->
  Tiers.redisClient w = true ->
  quiet w ->
  cleared "audit:summaries:" w (exec (invalidateSummaries cfg) w) /\
  cleared "audit:stats:" w (exec (invalidateStats cfg) w) /\
  cleared "audit:recent:" w (exec (invalidateRecent cfg) w) /\
  (forall userId userRole params,
     let w' := exec (invalidateStats cfg) w in
     db_get (now w') (redis_db w') (generateUserCacheKey "stats" userId userRole params)
     = None).
Proof.
  intros Hen Hmode Hclient Hq.
  pose proof (invalidatePattern_prefix_cleared cfg "audit:summaries:" w eq_refl) as H1.
  pose proof (invalidatePattern_prefix_cleared cfg "audit:stats:" w eq_refl) as H2.
  pose proof (invalidatePattern_prefix_cleared cfg "audit:recent:" w eq_refl) as H3.
  split; [by apply H1|]. split; [by apply H2|]. split; [by apply H3|].
  intros u r p. cbv zeta. rewrite generateUserCacheKey_normal.
  destruct H2 as [Hgone _]; try done.
  apply (Hgone (_ ++ _)).
Qed.

Lemma invalidate_namespace_redis_witness :
  let w := three_keys cfg_plain redis in
  (ENABLE_CACHE cfg_plain = true /\ currentCacheMode w = redis /\
   Tiers.redisClient w = true /\ quiet w) /\
  cleared "audit:summaries:" w (exec (invalidateSummaries cfg_plain) w) /\
  cleared "audit:stats:" w (exec (invalidateStats cfg_plain) w) /\
  cleared "audit:recent:" w (exec (invalidateRecent cfg_plain) w) /\
  (forall userId userRole params,
     let w' := exec (invalidateStats cfg_plain) w in
     db_get (now w') (redis_db w') (generateUserCacheKey "stats" userId userRole params)
     = None).
Proof.
  assert (quiet (three_keys cfg_plain redis)) as Hq by constructor.
  split; [by repeat split|].
  apply (invalidate_namespace_redis cfg_plain (three_keys cfg_plain redis));
    [reflexivity | reflexivity | reflexivity | exact Hq].
Defined.

End NamespaceFacts.

(* ===================================================================== *)
(** ** The validation utility and role access *)
(* ===================================================================== *)

Module ValidationFacts.

Import Validation.

(** *** [validateCreateAuditLog] *)

Lemma missing_spec data key :
  missing data key = false <-> exists s, member data key = VStr s /\ s <> "".
Proof.
  unfold missing. destruct (member data key) as [| |b|n|s|xs|ps]; simpl;
    rewrite ?orb_true_r, ?orb_false_r; try (split; [done | by intros (? & ? & ?)]).
  destruct s; simpl; split; try done.
  - by intros (? & [= <-] & ?).
  - intros _. eauto.
Qed.

(** A body passes [validateCreateAuditLog] exactly when [moduleName],
    [action] and [performedBy] are non-empty strings; otherwise the
    errors name the offending fields in that order, at most three. *)
Theorem validateCreateAuditLog_accepts data r :
  validateCreateAuditLog data = Ok r ->
  (isValid r = true <->
   exists m a p, member data "moduleName" = VStr m /\ m <> "" /\
                 member data "action" = VStr a /\ a <> "" /\
                 member data "performedBy" = VStr p /\ p <> "") /\
  (isValid r = true <-> errors r = []) /\
  errors r
  = ((if missing data "moduleName" then ["moduleName is required and must be a string"] else [])
     ++ (if missing data "action" then ["action is required and must be a string"] else [])
     ++ (if missing data "performedBy" then ["performedBy is required and must be a string"]
         else []))%list.
Proof.
  intros Hr.
  assert (errors r
          = ((if missing data "moduleName"
              then ["moduleName is required and must be a string"] else [])
             ++ (if missing data "action"
                 then ["action is required and must be a string"] else [])
             ++ (if missing data "performedBy"
                 then ["performedBy is required and must be a string"] else []))%list
          /\ isValid r = (List.length (errors r) =? 0)%nat) as [He Hv].
  { assert (validateCreateAuditLog data
            = Ok (let errors :=
                    ((if missing data "moduleName"
                      then ["moduleName is required and must be a string"] else [])
                     ++ (if missing data "action"
                         then ["action is required and must be a string"] else [])
                     ++ (if missing data "performedBy"
                         then ["performedBy is required and must be a string"] else []))%list in
                  {| isValid := (List.length errors =? 0)%nat; errors := errors |})) as Hdef.
    { unfold validateCreateAuditLog in *. destruct data; try done;
        by destruct (missing _ "moduleName"), (missing _ "action"),
             (missing _ "performedBy"). }
    rewrite Hdef in Hr. by injection Hr as <-. }
  split; [|split; [|done]].
  - rewrite Hv, He.
    pose proof (missing_spec data "moduleName") as H1.
    pose proof (missing_spec data "action") as H2.
    pose proof (missing_spec data "performedBy") as H3.
    destruct (missing data "moduleName"), (missing data "action"),
      (missing data "performedBy"); simpl; split; try done.
    all: try (intros (m & a & p & Hm & ? & Ha & ? & Hp & ?);
              first [ by destruct (proj2 H1); eauto
                    | by destruct (proj2 H2); eauto
                    | by destruct (proj2 H3); eauto ]).
    intros _. destruct (proj1 H1 eq_refl) as (m & ? & ?).
    destruct (proj1 H2 eq_refl) as (a & ? & ?). destruct (proj1 H3 eq_refl) as (p & ? & ?).
    by exists m, a, p.
  - rewrite Hv. destruct (errors r); simpl; split; done.
Qed.

Lemma validateCreateAuditLog_accepts_witness :
  let data := VObj [("moduleName", VStr "payroll"); ("action", VStr "UPDATE");
                    ("performedBy", VNum 17)] in
  let r := {| isValid := false;
              errors := ["performedBy is required and must be a string"] |} in
  validateCreateAuditLog data = Ok r /\
  (isValid r = true <->
   exists m a p, member data "moduleName" = VStr m /\ m <> "" /\
                 member data "action" = VStr a /\ a <> "" /\
                 member data "performedBy" = VStr p /\ p <> "") /\
  (isValid r = true <-> errors r = []) /\
  errors r
  = ((if missing data "moduleName" then ["moduleName is required and must be a string"] else [])
     ++ (if missing data "action" then ["action is required and must be a string"] else [])
     ++ (if missing data "performedBy" then ["performedBy is required and must be a string"]
         else []))%list.
Proof.
  split; [reflexivity|].
  apply (validateCreateAuditLog_accepts
           (VObj [("moduleName", VStr "payroll"); ("action", VStr "UPDATE");
                  ("performedBy", VNum 17)])).
  reflexivity.
Defined.

(** *** [parseInt] and [validatePagination] *)

Lemma digit_value_pretty_char d :
  (d < 10)%N -> digit_value 10 (pretty_N_char d) = Some d.
Proof.
  intros Hd. do 10 (destruct d as [|d] using N.peano_ind; [done|]). lia.
Qed.

Lemma digits_value_pretty_go (x : N) s :
  (0 < x)%N ->
  digits_value 10 None (pretty_N_go x s) = digits_value 10 (Some x) s.
Proof.
  revert s. induction (N.lt_wf_0 x) as [x _ IH]; intros s Hx.
  rewrite pretty_N_go_step by done.
  destruct (decide (x `div` 10 = 0)%N) as [Hz|Hnz].
  - rewrite Hz, pretty_N_go_0. cbn [digits_value].
    rewrite digit_value_pretty_char by (apply N.mod_lt; lia).
    do 2 f_equal. cbn [default from_option]. unfold Datatypes.id.
    pose proof (N.div_mod x 10 ltac:(done)) as H. rewrite Hz in H. lia.
  - rewrite IH; [|apply N.div_lt; lia|by apply N.neq_0_lt_0]. cbn [digits_value].
    rewrite digit_value_pretty_char by (apply N.mod_lt; lia).
    do 2 f_equal. cbn [default from_option]. unfold Datatypes.id.
    pose proof (N.div_mod x 10 ltac:(done)) as H. lia.
Qed.

Lemma pretty_N_go_app x s : pretty_N_go x s = pretty_N_go x "" ++ s.
Proof.
  revert s. induction (N.lt_wf_0 x) as [x _ IH]; intros s.
  destruct (decide (x = 0)%N) as [->|Hx]; [by rewrite !pretty_N_go_0|].
  rewrite !(pretty_N_go_step x) by lia.
  rewrite IH by (apply N.div_lt; lia).
  rewrite (IH (x `div` 10)%N ltac:(apply N.div_lt; lia) (String _ "")).
  by rewrite UserKeyFacts.append_assoc.
Qed.

(** The first digit of a positive number is not 0. *)
Lemma pretty_N_go_head x s :
  (0 < x)%N ->
  exists c t, pretty_N_go x s = String c t /\ is_digit c = true /\ c <> "0"%char.
Proof.
  revert s. induction (N.lt_wf_0 x) as [x _ IH]; intros s Hx.
  rewrite pretty_N_go_step by done.
  destruct (decide (x `div` 10 = 0)%N) as [Hz|Hnz].
  - rewrite Hz, pretty_N_go_0. eexists _, _. split; [done|].
    assert (x < 10)%N as Hlt by (apply N.div_small_iff in Hz; lia).
    rewrite N.mod_small by done.
    do 10 (destruct x as [|x] using N.peano_ind; [done || lia|]). lia.
  - apply IH; [apply N.div_lt; lia | by apply N.neq_0_lt_0].
Qed.

Lemma digits_value_stop radix acc rest :
  starts_with (fun c => bool_decide (is_Some (digit_value radix c))) rest = false ->
  digits_value radix acc rest = acc.
Proof.
  destruct rest as [|c rest]; [done|]. simpl. intros H.
  destruct (digit_value radix c); [|done]. by rewrite bool_decide_true in H.
Qed.

Lemma is_digit_value c : is_digit c = bool_decide (is_Some (digit_value 10 c)).
Proof. by destruct c as [[] [] [] [] [] [] [] []]. Qed.

Lemma starts_digit rest :
  starts_with is_digit rest = false ->
  starts_with (fun c => bool_decide (is_Some (digit_value 10 c))) rest = false.
Proof. destruct rest as [|c rest]; [done|]. simpl. by rewrite is_digit_value. Qed.

(** [parseInt] on a text that starts with a digit and is not a
    hexadecimal literal. *)
Lemma parseInt_unsigned c t (negative : bool) :
  is_digit c = true ->
  (c = "0"%char -> starts_with (fun x => Ascii.eqb x "x" || Ascii.eqb x "X") t = false) ->
  parseInt (VStr ((if negative then "-" else "") ++ String c t))
  = match digits_value 10 None (String c t) with
    | Some n => to_double (if negative then - Z.of_N n else Z.of_N n)
    | None => NaN
    end.
Proof.
  intros Hc Hx. unfold parseInt. cbn [ToString].
  assert (is_space c = false /\ Ascii.eqb c "-" = false /\ Ascii.eqb c "+" = false)
    as (Hsp & Hm & Hp) by by destruct c as [[] [] [] [] [] [] [] []].
  assert (match String c t with
          | String z (String x s') =>
              if Ascii.eqb z "0" && (Ascii.eqb x "x" || Ascii.eqb x "X")
              then (16%N, s') else (10%N, String c t)
          | _ => (10%N, String c t)
          end = (10%N, String c t)) as Hhex.
  { destruct t as [|x t]; [done|].
    destruct (Ascii.eqb_spec c "0") as [->|]; [|done].
    simpl in Hx. by rewrite Hx. }
  destruct negative.
  - change ("-" ++ String c t) with (String "-" (String c t)).
    cbn [span is_space N_of_ascii snd]. 
    replace (is_space "-") with false by done. cbn [snd].
    replace (Ascii.eqb "-" "-") with true by done. by rewrite Hhex.
  - change ("" ++ String c t) with (String c t).
    cbn [span]. rewrite Hsp. cbn [snd]. rewrite Hm, Hp. by rewrite Hhex.
Qed.

Lemma parseInt_digits c t :
  is_digit c = true ->
  (c = "0"%char -> starts_with (fun x => Ascii.eqb x "x" || Ascii.eqb x "X") t = false) ->
  parseInt (VStr (String c t))
  = match digits_value 10 None (String c t) with
    | Some n => to_double (Z.of_N n)
    | None => NaN
    end.
Proof. apply (parseInt_unsigned c t false). Qed.

Lemma parseInt_minus_digits c t :
  is_digit c = true ->
  (c = "0"%char -> starts_with (fun x => Ascii.eqb x "x" || Ascii.eqb x "X") t = false) ->
  parseInt (VStr (String "-" (String c t)))
  = match digits_value 10 None (String c t) with
    | Some n => to_double (- Z.of_N n)
    | None => NaN
    end.
Proof. apply (parseInt_unsigned c t true). Qed.

(** [parseInt] reads back the decimal spelling of an integer, whatever
    follows it, as long as that is not another digit, nor an [x] after a
    lone 0; an integer beyond 2^53 comes back as the nearest double. *)
Lemma parseInt_decimal (z : Z) (rest : string) :
  starts_with is_digit rest = false ->
  (z = 0%Z -> starts_with (fun x => Ascii.eqb x "x" || Ascii.eqb x "X") rest = false) ->
  parseInt (VStr (pretty z ++ rest)) = to_double z.
Proof.
  intros Hrest Hx.
  assert (forall p : positive,
            exists c t, pretty (N.pos p) ++ rest = String c t /\ is_digit c = true /\
                        c <> "0"%char /\
                        digits_value 10 None (String c t) = Some (N.pos p)) as Hpos.
  { intros p. unfold pretty, pretty_N. rewrite decide_False by done.
    rewrite <- pretty_N_go_app.
    destruct (pretty_N_go_head (N.pos p) rest) as (c & t & Heq & Hc & Hnz); [lia|].
    exists c, t. rewrite <- Heq. repeat split; try done.
    rewrite digits_value_pretty_go by lia. by apply digits_value_stop, starts_digit. }
  destruct z as [|p|p].
  - change (pretty 0%Z ++ rest) with (String "0" rest).
    rewrite (parseInt_digits "0" rest) by auto.
    cbn [digits_value digit_value]. 
    replace (digit_value 10 "0") with (Some 0%N) by done.
    by rewrite digits_value_stop by by apply starts_digit.
  - change (pretty (Z.pos p)) with (pretty (N.pos p)).
    destruct (Hpos p) as (c & t & -> & Hc & Hnz & Hd).
    rewrite (parseInt_digits c t) by done. by rewrite Hd.
  - change (pretty (Z.neg p)) with ("-" ++ pretty (N.pos p)).
    rewrite UserKeyFacts.append_assoc.
    destruct (Hpos p) as (c & t & -> & Hc & Hnz & Hd).
    change ("-" ++ String c t) with (String "-" (String c t)).
    rewrite (parseInt_minus_digits c t) by done. by rewrite Hd.
Qed.

Lemma parseInt_decimal_witness :
  (starts_with is_digit "px" = false /\
   (25%Z = 0%Z -> starts_with (fun x => Ascii.eqb x "x" || Ascii.eqb x "X") "px" = false)) /\
  parseInt (VStr "25px") = Int 25.
Proof.
  split; [split; [reflexivity | discriminate]|].
  apply (parseInt_decimal 25 "px"); [reflexivity | discriminate].
Defined.

Example parseInt_samples :
  parseInt VUndefined = NaN /\ parseInt (VStr "") = NaN /\ parseInt (VStr "abc") = NaN /\
  parseInt (VStr "  42") = Int 42 /\ parseInt (VStr "-7") = Int (-7) /\
  parseInt (VStr "0x1F") = Int 31 /\ parseInt (VStr "3.9") = Int 3 /\
  parseInt (VArr [VStr "5"; VStr "6"]) = Int 5 /\
  parseInt (VStr "9007199254740993") = Int 9007199254740992.
Proof. repeat split; vm_compute; reflexivity. Qed.




(** On decimal texts: the page is the number, or 1 when it is 0; the
    limit is the number cut to 100, and 10 when it is 0. *)
Theorem validatePagination_decimal (p l : N) :
  (p < 2 ^ 53)%N ->
  (l < 2 ^ 53)%N ->
  validatePagination (VStr (pretty p)) (VStr (pretty l))
  = {| page := Int (Z.max 1 (Z.of_N p));
       limit := Int (if (l =? 0)%N then 10 else Z.min 100 (Z.of_N l)) |}.
Proof.
  intros Hp Hl.
  assert (forall n : N, (n < 2 ^ 53)%N -> parseInt (VStr (pretty n)) = Int (Z.of_N n)) as Hparse.
  { intros n Hn.
    pose proof (parseInt_decimal (Z.of_N n) "" eq_refl (fun _ => eq_refl)) as H.
    replace (pretty (Z.of_N n) ++ "") with (pretty n) in H.
    - rewrite H. unfold to_double, nearest_double.
      destruct (Z.ltb_spec (Z.abs (Z.of_N n)) (2 ^ 53)) as [|Hge]; [done|]. lia.
    - destruct n as [|q]; [done|]. change (pretty (Z.of_N (N.pos q))) with (pretty (N.pos q)).
      generalize (pretty (N.pos q)). intros t. induction t as [|c t IH]; [done|].
      change (String c t ++ "") with (String c (t ++ "")). by rewrite <- IH. }
  unfold validatePagination. rewrite !Hparse by done. f_equal.
  - destruct p; cbn [num_or Math_max Z.of_N]; [done|]. done.
  - destruct l; cbn [num_or Math_max Math_min Z.of_N N.eqb]; [done|].
    f_equal. lia.
Qed.

Lemma validatePagination_decimal_witness :
  ((3 < 2 ^ 53)%N /\ (250 < 2 ^ 53)%N) /\
  validatePagination (VStr "3") (VStr "250") = {| page := Int 3; limit := Int 100 |}.
Proof.
  split; [split; reflexivity|].
  apply (validatePagination_decimal 3 250); reflexivity.
Defined.

Example validatePagination_samples :
  validatePagination VUndefined VUndefined = {| page := Int 1; limit := Int 10 |} /\
  validatePagination (VStr "0") (VStr "0") = {| page := Int 1; limit := Int 10 |} /\
  validatePagination (VStr "-4") (VStr "-4") = {| page := Int 1; limit := Int 1 |} /\
  validatePagination (VStr "2") (VStr "1000") = {| page := Int 2; limit := Int 100 |}.
Proof. repeat split; vm_compute; reflexivity. Qed.

(** *** [isValidDate] and [sanitizeFilters] *)

(** *** Texts that cannot be a date *)













(** A date given as an array of one string is kept as the array. *)
Example sanitizeFilters_keeps_array :
  option_map f_dateFrom
    (match sanitizeFilters DateRef.Date_valid
             (VObj [("dateFrom", VArr [VStr "2024-02-29"])]) with
     | Ok r => Some r
     | Throw _ => None
     end)
  = Some (Some (VArr [VStr "2024-02-29"])).
Proof. vm_compute. reflexivity. Qed.

Lemma prefix_app (a b : string) : String.prefix a (a ++ b) = true.
Proof.
  induction a as [|c a IH]; [by destruct b|].
  change (String c a ++ b) with (String c (a ++ b)). simpl.
  by destruct (ascii_dec c c).
Qed.

Lemma includes_app pre pat post : includes (pre ++ pat ++ post) pat = true.
Proof.
  induction pre as [|c pre IH].
  - change ("" ++ pat ++ post) with (pat ++ post).
    pose proof (prefix_app pat post) as H.
    destruct (pat ++ post); cbn [includes]; by rewrite H.
  - change (String c pre ++ pat ++ post) with (String c (pre ++ pat ++ post)).
    cbn [includes]. rewrite IH. apply orb_true_r.
Qed.

(** A role that contains the text [Admin] anywhere, [Non-Admin] roles
    included, is a department admin unless it is exactly [SuperAdmin]. *)
Lemma isDepartmentAdmin_contains_Admin pre post :
  isDepartmentAdmin (pre ++ "Admin" ++ post) = negb (isSuperAdmin (pre ++ "Admin" ++ post)) /\
  isDepartmentAdmin (pre ++ "Non-Admin") = true /\
  isDepartmentAdmin "SuperAdmin" = false.
Proof.
  split; [|split; [|done]].
  - unfold isDepartmentAdmin. by rewrite includes_app.
  - unfold isDepartmentAdmin.
    pose proof (includes_app (pre ++ "Non-") "Admin" "") as H.
    rewrite UserKeyFacts.append_assoc in H.
    change (pre ++ "Non-" ++ "Admin" ++ "") with (pre ++ "Non-Admin") in H.
    rewrite H. cbn [andb].
    unfold isSuperAdmin. apply negb_true_iff, String.eqb_neq.
    intros Heq. pose proof (f_equal String.length Heq) as Hl.
    assert (forall a b, String.length (a ++ b) = String.length a + String.length b) as Hlen.
    { intros a b. induction a as [|x a IH]; [done|].
      change (String x a ++ b) with (String x (a ++ b)). simpl. by rewrite IH. }
    rewrite Hlen in Hl. simpl in Hl.
    assert (exists x, pre = String x "") as [x ->].
    { destruct pre as [|x [|y pre]]; simpl in Hl; try lia. eauto. }
    change (String x "" ++ "Non-Admin") with (String x "Non-Admin") in Heq.
    discriminate.
Qed.

Lemma span_spec f s a b :
  span f s = (a, b) -> s = a ++ b /\ all_chars f a = true /\ starts_with f b = false.
Proof.
  revert a b. induction s as [|c s IH]; intros a b; simpl.
  - by intros [= <- <-].
  - destruct (f c) eqn:Hc.
    + destruct (span f s) as [a' b']. intros [= <- <-].
      destruct (IH a' b' eq_refl) as (-> & Ha & Hb). simpl. by rewrite Hc.
    + intros [= <- <-]. simpl. by rewrite Hc.
Qed.

Lemma span_app f a b :
  all_chars f a = true -> starts_with f b = false -> span f (a ++ b) = (a, b).
Proof.
  intros Ha Hb. induction a as [|c a IH].
  - change ("" ++ b) with b. destruct b; [done|]. simpl in *. by rewrite Hb.
  - simpl in Ha. apply andb_true_iff in Ha as [Hc Ha].
    change (String c a ++ b) with (String c (a ++ b)). simpl. by rewrite Hc, IH.
Qed.

Lemma extractDepartmentFromRole_of_parts word space suffix :
  word <> "" -> all_chars is_word word = true ->
  space <> "" -> all_chars is_space space = true ->
  eqb_ignore_case suffix "Admin" = true \/ eqb_ignore_case suffix "Non-Admin" = true ->
  extractDepartmentFromRole (word ++ space ++ suffix) = Some (toLowerCase word).
Proof.
  intros Hw Hword Hs Hspace Hsuf. unfold extractDepartmentFromRole.
  assert (starts_with is_space suffix = false /\ starts_with is_word (space ++ suffix) = false)
    as [H1 H2].
  { split.
    - destruct Hsuf as [H|H]; destruct suffix as [|c suffix]; try done; simpl in *;
        apply andb_true_iff in H as [H _];
        by destruct c as [[] [] [] [] [] [] [] []].
    - destruct space as [|c space]; [done|]. simpl in *.
      apply andb_true_iff in Hspace as [Hc _].
      by destruct c as [[] [] [] [] [] [] [] []]. }
  rewrite (span_app is_word word (space ++ suffix)) by done.
  rewrite (span_app is_space space suffix) by done.
  destruct word; [done|]. destruct space; [done|]. cbn [truthy_string andb].
  by destruct Hsuf as [-> | ->]; rewrite ?orb_true_r.
Qed.

(** [extractDepartmentFromRole] returns a department exactly for the
    roles made of a word, white space and [Admin] or [Non-Admin] in any
    letter case; the department is the word in lower case. *)
Theorem extractDepartmentFromRole_iff role d :
  extractDepartmentFromRole role = Some d <->
  exists word space suffix,
    role = word ++ space ++ suffix /\
    word <> "" /\ all_chars is_word word = true /\
    space <> "" /\ all_chars is_space space = true /\
    (eqb_ignore_case suffix "Admin" = true \/ eqb_ignore_case suffix "Non-Admin" = true) /\
    d = toLowerCase word.
Proof.
  split.
  - unfold extractDepartmentFromRole.
    destruct (span is_word role) as [word rest] eqn:Hw.
    destruct (span is_space rest) as [space suffix] eqn:Hs.
    apply span_spec in Hw as (-> & Hword & _). apply span_spec in Hs as (-> & Hspace & _).
    destruct word as [|c word]; [done|]. destruct space as [|c' space]; [done|].
    cbn [truthy_string andb].
    destruct (eqb_ignore_case suffix "Admin" || eqb_ignore_case suffix "Non-Admin") eqn:Hsuf;
      [|done].
    intros [= <-]. exists (String c word), (String c' space), suffix.
    apply orb_true_iff in Hsuf. done.
  - intros (word & space & suffix & -> & Hw & Hword & Hs & Hspace & Hsuf & ->).
    by apply extractDepartmentFromRole_of_parts.
Qed.

Example extractDepartmentFromRole_samples :
  extractDepartmentFromRole "Finance Admin" = Some "finance" /\
  extractDepartmentFromRole "HR Non-Admin" = Some "hr" /\
  extractDepartmentFromRole "Operations   admin" = Some "operations" /\
  extractDepartmentFromRole "SuperAdmin" = None /\
  extractDepartmentFromRole "Finance Administrator" = None /\
  extractDepartmentFromRole "Human Resources Admin" = None.
Proof. repeat split; vm_compute; reflexivity. Qed.

(** [applyAccessFilter] lifts the restriction for the role [SuperAdmin]
    and for no other.  For a role made of a word, white space and [Admin]
    or [Non-Admin] it filters by the code of the department the word
    names, the same code for both suffixes, and by the user's own id when
    the word names no department. *)
Theorem applyAccessFilter_by_role user serviceName :
  (applyAccessFilter user serviceName = Unrestricted <-> role user = "SuperAdmin") /\
  (forall word space suffix,
     role user = word ++ space ++ suffix ->
     word <> "" -> all_chars is_word word = true ->
     space <> "" -> all_chars is_space space = true ->
     suffix = "Admin" \/ suffix = "Non-Admin" ->
     applyAccessFilter user serviceName
     = match deptCodes (toLowerCase word) with
       | Some code => StartsWith code
       | None => OwnRecords (id user)
       end).
Proof.
  split.
  - unfold applyAccessFilter, isSuperAdmin.
    destruct (String.eqb_spec (role user) "SuperAdmin") as [->|Hne]; [done|].
    split; [|done].
    destruct (isDepartmentAdmin (role user)); [|done].
    by destruct (deptCodes _).
  - intros word space suffix Hrole Hw Hword Hs Hspace Hsuf.
    assert (extractDepartmentFromRole (role user) = Some (toLowerCase word)) as Hdept.
    { rewrite Hrole. apply extractDepartmentFromRole_of_parts; try done.
      by destruct Hsuf as [-> | ->]; [left|right]. }
    assert (includes (role user) "Admin" = true) as Hinc.
    { rewrite Hrole. destruct Hsuf as [-> | ->].
      - pose proof (includes_app (word ++ space) "Admin" "") as H.
        by rewrite UserKeyFacts.append_assoc in H.
      - pose proof (includes_app (word ++ space ++ "Non-") "Admin" "") as H.
        rewrite !UserKeyFacts.append_assoc in H. exact H. }
    assert (isSuperAdmin (role user) = false) as Hsuper.
    { unfold isSuperAdmin. apply String.eqb_neq. rewrite Hrole. intros Heq.
      assert (all_chars is_word (word ++ space ++ suffix) = true) as Hall by by rewrite Heq.
      clear -Hall Hs Hspace. induction word as [|c word IH].
      - change ("" ++ space ++ suffix) with (space ++ suffix) in Hall.
        destruct space as [|c space]; [done|]. simpl in *.
        apply andb_true_iff in Hspace as [Hc _]. apply andb_true_iff in Hall as [Hc' _].
        by destruct c as [[] [] [] [] [] [] [] []].
      - change (String c word ++ space ++ suffix) with (String c (word ++ space ++ suffix))
          in Hall. simpl in Hall. apply andb_true_iff in Hall as [_ Hall]. by apply IH. }
    unfold applyAccessFilter, isDepartmentAdmin. rewrite Hsuper, Hinc, Hdept. cbn [andb negb].
    change (default "" (Some (toLowerCase word))) with (toLowerCase word).
    by destruct (deptCodes (toLowerCase word)).
Qed.

Lemma applyAccessFilter_by_role_witness :
  let user := {| id := "FIN-0042"; username := "ana"; role := "Finance Non-Admin" |} in
  (role user = "Finance" ++ " " ++ "Non-Admin" /\ "Finance" <> "" /\
   all_chars is_word "Finance" = true /\ " " <> "" /\ all_chars is_space " " = true /\
   ("Non-Admin" = "Admin" \/ "Non-Admin" = "Non-Admin")) /\
  applyAccessFilter user None = StartsWith (Code "FIN").
Proof.
  split; [repeat split; try done; by right|].
  apply (proj2 (applyAccessFilter_by_role
                  {| id := "FIN-0042"; username := "ana"; role := "Finance Non-Admin" |} None)
           "Finance" " " "Non-Admin"); try done. by right.
Defined.

End ValidationFacts.

(* ===================================================================== *)
(** ** The dedup guard: unseen events, backfill and expiry *)
(* ===================================================================== *)

Module DedupMore.

Import Dedup CacheOps Scenarios Run DedupFacts OpsFacts.

Lemma find_none_iff {A} (f : A -> bool) (l : list A) :
  List.find f l = None <-> forall x, x ∈ l -> f x = false.
Proof.
  induction l as [|y l IH]; simpl.
  - split; [by intros _ x ?%elem_of_nil | done].
  - destruct (f y) eqn:Hy.
    + split; [done|]. intros H. specialize (H y (list_elem_of_here _ _)). congruence.
    + rewrite IH. split.
      * intros H x [->|Hx]%elem_of_cons; auto.
      * intros H x Hx. apply H. by right.
Qed.

(** [cleanupExpired] when the delete-many call goes through. *)
Lemma cleanupExpired_sweep w :
  default false (head (faults w)) = false ->
  let w' := exec cleanupExpired w in
  (exists n, eval cleanupExpired w = Ok n) /\
  eventDedup w' = filter (fun r => (expiresAt r <? now w)%Z = false) (eventDedup w) /\
  upstash_db w' = upstash_db w /\ now w' = now w.
Proof.
  intros Hok. destruct w as [mode client rdb udb lc rows t fs tr con].
  unfold cleanupExpired. unfold_all; sim. rewrite Hok. sim. eauto.
Qed.

Lemma isDuplicate_not_found cfg id service w :
  List.find (fun r => String.eqb (eventId r) id) (eventDedup w) = None ->
  truthy_decoded (db_get (now w) (upstash_db w) ("audit:dedup:" ++ id)) = false ->
  eval (isDuplicate cfg id service) w = Ok false /\
  eventDedup (exec (isDuplicate cfg id service) w) = eventDedup w.
Proof.
  intros Hfind Hfast.
  unfold isDuplicate, Dedup.redisClient, token.
  destruct w as [mode client rdb udb lc rows t fs tr con]. sim.
  unfold_all; sim. rewrite ?Hfind.
  steps_with ltac:(rewrite ?Hfind, ?Hfast in * ).
Qed.

(** An event that neither tier knows is never reported as a duplicate,
    whatever fails on the way, and [isDuplicate] never writes the table. *)
Theorem isDuplicate_unseen cfg id service w :
  (forall r, r ∈ eventDedup w -> eventId r <> id) ->
  truthy_decoded (db_get (now w) (upstash_db w) ("audit:dedup:" ++ id)) = false ->
  eval (isDuplicate cfg id service) w = Ok false /\
  eventDedup (exec (isDuplicate cfg id service) w) = eventDedup w.
Proof.
  intros Hrows Hfast. apply isDuplicate_not_found; [|done].
  apply find_none_iff. intros r Hr. apply String.eqb_neq. auto.
Qed.

Lemma isDuplicate_unseen_witness :
  let w := boot lru [true; true] in
  ((forall r, r ∈ eventDedup w -> eventId r <> "evt-9") /\
   truthy_decoded (db_get (now w) (upstash_db w) ("audit:dedup:" ++ "evt-9")) = false) /\
  eval (isDuplicate cfg_rest "evt-9" "finance") w = Ok false /\
  eventDedup (exec (isDuplicate cfg_rest "evt-9" "finance") w) = eventDedup w.
Proof.
  assert (forall r, r ∈ eventDedup (boot lru [true; true]) -> eventId r <> "evt-9") as Hrows.
  { intros r Hr. by apply elem_of_nil in Hr. }
  split; [split; [exact Hrows | reflexivity]|].
  apply (isDuplicate_unseen cfg_rest "evt-9" "finance" (boot lru [true; true]) Hrows).
  reflexivity.
Defined.

(** An event that only the durable tier knows: [isDuplicate] reports it
    and copies the marker to the fast tier for an hour, so that the next
    check is answered by the fast tier without a read of the table. *)
Theorem isDuplicate_backfills cfg id service w r :
  id <> "" ->
  Dedup.redisClient cfg = true ->
  truthy (token cfg) = true ->
  quiet w ->
  truthy_decoded (db_get (now w) (upstash_db w) ("audit:dedup:" ++ id)) = false ->
  List.find (fun r => String.eqb (eventId r) id) (eventDedup w) = Some r ->
  let w' := exec (isDuplicate cfg id service) w in
  eval (isDuplicate cfg id service) w = Ok true /\
  upstash_db w' !! ("audit:dedup:" ++ id)
  = Some {| e_value := "1"; e_expires := Some (now w + 3600 * 1000)%Z |} /\
  eval (isDuplicate cfg id service) w' = Ok true /\
  trace (exec (isDuplicate cfg id service) w')
  = Call Rest "get" ("audit:dedup:" ++ id) true :: trace w'.
Proof.
  intros Hid Hfastcfg Htok Hq Hfast Hfind. cbv zeta.
  destruct id as [|c id]; [done|]. set (id' := String c id) in *.
  assert (truthy_string id' = true) as Hne by done. clearbody id'. clear Hid.
  assert (forall t, (t <? t + 3600 * 1000)%Z = true) as Hlive.
  { intros. apply Z.ltb_lt. lia. }
  assert (truthy_decoded (Some "1") = true) as Hone by reflexivity.
  unfold isDuplicate, token in *. rewrite Hfastcfg, Hne. cbn [negb].
  unfold upstash_get, upstash_set. rewrite Htok.
  unfold quiet in Hq.
  pose proof (no_fault_head _ Hq) as Hh1.
  pose proof (no_fault_head _ (no_fault_tail _ Hq)) as Hh2.
  pose proof (no_fault_head _ (no_fault_tail _ (no_fault_tail _ Hq))) as Hh3.
  pose proof (no_fault_head _ (no_fault_tail _ (no_fault_tail _ (no_fault_tail _ Hq)))) as Hh4.
  clear Hq.
  destruct w as [mode client rdb udb lc rows t fs tr con].
  unfold_all; sim.
  steps_with ltac:(rewrite ?lookup_insert_eq, ?Hlive, ?Hone, ?Hh1, ?Hh2, ?Hh3, ?Hh4,
                     ?Hfind, ?Hfast in * ).
Qed.

Lemma isDuplicate_backfills_witness :
  let r := {| eventId := "evt-old"; sourceService := "finance";
              expiresAt := 1699999999999 |} in
  let w := sweep_world in
  let w' := exec (isDuplicate cfg_rest "evt-old" "hr") w in
  ("evt-old" <> "" /\ Dedup.redisClient cfg_rest = true /\ truthy (token cfg_rest) = true /\
   quiet w /\
   truthy_decoded (db_get (now w) (upstash_db w) ("audit:dedup:" ++ "evt-old")) = false /\
   List.find (fun r => String.eqb (eventId r) "evt-old") (eventDedup w) = Some r) /\
  eval (isDuplicate cfg_rest "evt-old" "hr") w = Ok true /\
  upstash_db w' !! ("audit:dedup:" ++ "evt-old")
  = Some {| e_value := "1"; e_expires := Some (now w + 3600 * 1000)%Z |} /\
  eval (isDuplicate cfg_rest "evt-old" "hr") w' = Ok true /\
  trace (exec (isDuplicate cfg_rest "evt-old" "hr") w')
  = Call Rest "get" ("audit:dedup:" ++ "evt-old") true :: trace w'.
Proof.
  assert (quiet sweep_world) as Hq by constructor.
  split; [by repeat split|].
  apply (isDuplicate_backfills cfg_rest "evt-old" "hr" sweep_world
           {| eventId := "evt-old"; sourceService := "finance"; expiresAt := 1699999999999 |});
    [discriminate | reflexivity | reflexivity | exact Hq | reflexivity | reflexivity].
Defined.

(** What a [markAsProcessed] whose tier operations all succeed leaves in
    the table. *)
Lemma markAsProcessed_clean_table cfg id service w :
  id <> "" ->
  clean w (exec (markAsProcessed cfg id service) w) ->
  eventDedup (exec (markAsProcessed cfg id service) w)
  = (eventDedup w ++ [{| eventId := id; sourceService := service;
                         expiresAt := (now w + 7 * 86400000)%Z |}])%list.
Proof.
  intros Hid.
  destruct id as [|c id]; [done|]. set (id' := String c id) in *.
  assert (truthy_string id' = true) as Hne by done. clearbody id'. clear Hid.
  unfold markAsProcessed, Dedup.redisClient, token, addDays, upstash_set.
  rewrite Hne. cbn [negb].
  destruct w as [mode client rdb udb lc rows t fs tr con].
  intros Hc.
  unfold_all; sim; steps_with ltac:(try (by not_clean Hc)).
Qed.

(** Marking the same event a second time changes nothing: the insert is
    refused, the error is logged, and neither the record, with its expiry,
    nor the marker in the fast tier is renewed. *)
Theorem markAsProcessed_twice cfg id service1 service2 w :
  id <> "" ->
  let w1 := exec (markAsProcessed cfg id service1) w in
  clean w w1 ->
  default false (head (faults w1)) = false ->
  let w2 := exec (markAsProcessed cfg id service2) w1 in
  eval (markAsProcessed cfg id service2) w1 = Ok tt /\
  eventDedup w2 = eventDedup w1 /\
  upstash_db w2 = upstash_db w1 /\
  console w2
  = Error "[Dedup] Error marking event as processed:" (PrismaError "P2002") :: console w1.
Proof.
  intros Hid w1 Hc Hok. cbv zeta.
  apply markAsProcessed_duplicate_insert; [done|done|].
  unfold w1. rewrite markAsProcessed_clean_table by done.
  rewrite existsb_app. cbn [existsb eventId]. by rewrite String.eqb_refl, orb_true_r.
Qed.

Lemma markAsProcessed_twice_witness :
  let w := boot lru [] in
  let w1 := exec (markAsProcessed cfg_rest "evt-1" "finance") w in
  let w2 := exec (markAsProcessed cfg_rest "evt-1" "hr") w1 in
  ("evt-1" <> "" /\ clean w w1 /\ default false (head (faults w1)) = false) /\
  eval (markAsProcessed cfg_rest "evt-1" "hr") w1 = Ok tt /\
  eventDedup w2 = eventDedup w1 /\
  upstash_db w2 = upstash_db w1 /\
  console w2
  = Error "[Dedup] Error marking event as processed:" (PrismaError "P2002") :: console w1.
Proof.
  assert (clean (boot lru []) (exec (markAsProcessed cfg_rest "evt-1" "finance") (boot lru [])))
    as Hc.
  { exists [Call Rest "set" "audit:dedup:evt-1" true; Call Db "create" "evt-1" true].
    split; [reflexivity | repeat constructor]. }
  split; [by repeat split|].
  apply (markAsProcessed_twice cfg_rest "evt-1" "finance" "hr" (boot lru []));
    [discriminate | exact Hc | reflexivity].
Defined.

(** [isDuplicate] does not look at [expiresAt]: a record past its expiry
    still makes its event a duplicate, until [cleanupExpired] has removed
    it. *)
Theorem expired_record_counts_until_swept cfg id service w :
  id <> "" ->
  (Dedup.redisClient cfg = true -> truthy (token cfg) = true) ->
  quiet w ->
  truthy_decoded (db_get (now w) (upstash_db w) ("audit:dedup:" ++ id)) = false ->
  (exists r, r ∈ eventDedup w /\ eventId r = id) ->
  (forall r, r ∈ eventDedup w -> eventId r = id -> (expiresAt r < now w)%Z) ->
  eval (isDuplicate cfg id service) w = Ok true /\
  eval (cleanupExpired ;; isDuplicate cfg id service) w = Ok false.
Proof.
  intros Hid Htok Hq Hfast (r & Hr & Hrid) Hexp.
  assert (exists r', List.find (fun r => String.eqb (eventId r) id) (eventDedup w) = Some r')
    as [r' Hfind].
  { destruct (List.find _ (eventDedup w)) eqn:Hf; [eauto|].
    rewrite find_none_iff in Hf. specialize (Hf r Hr). apply String.eqb_neq in Hf. done. }
  split.
  - destruct id as [|c id]; [done|]. set (id' := String c id) in *.
    assert (truthy_string id' = true) as Hne by done. clearbody id'. clear Hid.
    unfold quiet in Hq.
    pose proof (no_fault_head _ Hq) as Hh1.
    pose proof (no_fault_head _ (no_fault_tail _ Hq)) as Hh2.
    pose proof (no_fault_head _ (no_fault_tail _ (no_fault_tail _ Hq))) as Hh3.
    clear Hq Hexp Hr.
    unfold isDuplicate, upstash_get, upstash_set.
    rewrite Hne. cbn [negb].
    destruct (Dedup.redisClient cfg); [rewrite Htok by done|].
    all: destruct w as [mode client rdb udb lc rows t fs tr con].
    all: unfold_all; sim.
    all: steps_with ltac:(rewrite ?Hh1, ?Hh2, ?Hh3, ?Hfind, ?Hfast in * ).
  - pose proof (no_fault_head _ Hq) as Hh1.
    destruct (cleanupExpired_sweep w Hh1) as ([n Hret] & Hrows & Hu & Hnow).
    rewrite (eval_bind _ _ _ _ Hret).
    apply isDuplicate_not_found.
    + apply find_none_iff. intros x Hx. apply String.eqb_neq. intros Hxid.
      rewrite Hrows in Hx. apply list_elem_of_filter in Hx as [Hlive Hx].
      specialize (Hexp x Hx Hxid). apply Z.ltb_ge in Hlive. lia.
    + by rewrite Hu, Hnow.
Qed.

Lemma expired_record_counts_until_swept_witness :
  let w := sweep_world in
  ("evt-old" <> "" /\
   (Dedup.redisClient cfg_rest = true -> truthy (token cfg_rest) = true) /\
   quiet w /\
   truthy_decoded (db_get (now w) (upstash_db w) ("audit:dedup:" ++ "evt-old")) = false /\
   (exists r, r ∈ eventDedup w /\ eventId r = "evt-old") /\
   (forall r, r ∈ eventDedup w -> eventId r = "evt-old" -> (expiresAt r < now w)%Z)) /\
  eval (isDuplicate cfg_rest "evt-old" "finance") w = Ok true /\
  eval (cleanupExpired ;; isDuplicate cfg_rest "evt-old" "finance") w = Ok false.
Proof.
  assert (quiet sweep_world) as Hq by constructor.
  assert (exists r, r ∈ eventDedup sweep_world /\ eventId r = "evt-old") as Hex.
  { eexists. split; [apply list_elem_of_here | reflexivity]. }
  assert (forall r, r ∈ eventDedup sweep_world -> eventId r = "evt-old" ->
                    (expiresAt r < now sweep_world)%Z) as Hexp.
  { intros r Hr Hid. simpl in Hr.
    repeat (apply elem_of_cons in Hr as [->|Hr]; [by (reflexivity || discriminate)|]).
    by apply elem_of_nil in Hr. }
  split; [by repeat split|].
  apply (expired_record_counts_until_swept cfg_rest "evt-old" "finance" sweep_world);
    [discriminate | reflexivity | exact Hq | reflexivity | exact Hex | exact Hexp].
Defined.

(** With the REST URL configured and no token, every read of the fast
    tier is refused, the error is swallowed, and [isDuplicate] answers
    false for every event, recorded or not. *)
Theorem isDuplicate_without_token cfg id service w :
  Dedup.redisClient cfg = true ->
  truthy (token cfg) = false ->
  eval (isDuplicate cfg id service) w = Ok false /\
  (id <> "" ->
   exists e, console (exec (isDuplicate cfg id service) w)
             = Error "[Dedup] Error checking duplicate:" e :: console w).
Proof.
  intros Hfast Htok.
  unfold isDuplicate, upstash_get. rewrite Hfast, Htok.
  destruct w as [mode client rdb udb lc rows t fs tr con].
  destruct id as [|c id]; [by split|]. cbn [truthy_string negb].
  unfold_all; sim. destruct (default false (head fs)); sim; split; eauto.
Qed.

Lemma isDuplicate_without_token_witness :
  (Dedup.redisClient cfg_no_token = true /\ truthy (token cfg_no_token) = false) /\
  eval (isDuplicate cfg_no_token "evt-old" "finance") sweep_world = Ok false /\
  ("evt-old" <> "" ->
   exists e, console (exec (isDuplicate cfg_no_token "evt-old" "finance") sweep_world)
             = Error "[Dedup] Error checking duplicate:" e :: console sweep_world).
Proof.
  split; [split; reflexivity|].
  apply (isDuplicate_without_token cfg_no_token "evt-old" "finance" sweep_world); reflexivity.
Defined.

End DedupMore.

(* ===================================================================== *)
(** ** API keys *)
(* ===================================================================== *)

Module ApiKeyFacts.

Import ApiKeys.

Ltac unfold_api :=
  unfold validateApiKeyMiddleware, requireWritePermission, validateApiKey, revokeApiKey,
    deleteApiKey, findUnique_keyHash, findUnique_id, update_id, delete_id, query, invalid,
    try_catch, bind, ret, throw, gets, modify, exec, eval in *.

Ltac sim_api :=
  cbn [fst snd negb andb orb from_option head tail
       apiKey clock outages printed with_apiKey with_printed
       isValid v_apiKey error] in *.

Lemma find_existsb {A} (f : A -> bool) (l : list A) x :
  List.find f l = Some x -> existsb f l = true.
Proof.
  induction l as [|y l IH]; simpl; [done|].
  destruct (f y); [done|]. apply IH.
Qed.

Lemma find_some_holds {A} (f : A -> bool) (l : list A) x :
  List.find f l = Some x -> f x = true.
Proof.
  induction l as [|y l IH]; simpl; [done|].
  destruct (f y) eqn:Hy; [by intros [= <-]|]. apply IH.
Qed.

Lemma validateApiKey_run hashValue rawKey s :
  eval (validateApiKey hashValue rawKey) s
  = Ok (let found := List.find (fun k => String.eqb (k_keyHash k) (hashValue rawKey))
                               (apiKey s) in
        if default false (head (outages s)) then invalid "Validation failed"
        else if isValid (verdict (clock s) found)
                && default false (head (tail (outages s)))
             then invalid "Validation failed"
             else verdict (clock s) found).
Proof.
  destruct s as [rows t fs con]. unfold_api; sim_api. unfold verdict, invalid.
  destruct (default false (head fs)); sim_api; [done|].
  destruct (List.find _ rows) as [k|] eqn:Hfind; sim_api; [|done].
  destruct (k_isActive k); sim_api; [|done].
  destruct (match k_expiresAt k with Some x => (x <? t)%Z | None => false end); sim_api; [done|].
  destruct (default false (head (tail fs))); sim_api; [done|].
  pose proof (find_some_holds _ _ _ Hfind) as Hk. cbv beta in Hk.
  assert (existsb (fun k0 => (k_id k0 =? k_id k)%Z) rows = true) as Hex.
  { clear -Hfind. induction rows as [|y rows IH]; simpl in *; [done|].
    destruct (String.eqb (k_keyHash y) _).
    - injection Hfind as ->. by rewrite Z.eqb_refl.
    - rewrite IH by done. apply orb_true_r. }
  by rewrite Hex.
Qed.

Lemma validateApiKey_returns hashValue rawKey s :
  exists r s', validateApiKey hashValue rawKey s = (Ok r, s') /\
               eval (validateApiKey hashValue rawKey) s = Ok r.
Proof.
  pose proof (validateApiKey_run hashValue rawKey s) as H. unfold eval in *.
  destruct (validateApiKey hashValue rawKey s) as [[r|e] s']; [|done]. eauto.
Qed.

Lemma verdict_valid t found :
  isValid (verdict t found) = true <-> exists k, found = Some k /\ usable t k = true.
Proof.
  unfold verdict, usable, invalid. destruct found as [k|].
  - split.
    + intros H. exists k. split; [done|]. revert H.
      destruct (k_isActive k), (k_expiresAt k) as [x|]; try destruct (x <? t)%Z; done.
    + intros (k0 & [= <-] & H). revert H.
      destruct (k_isActive k), (k_expiresAt k) as [x|]; try destruct (x <? t)%Z; done.
  - simpl. split; [done | by intros (? & ? & ?)].
Qed.

Lemma verdict_info t k :
  usable t k = true ->
  verdict t (Some k)
  = {| isValid := true;
       v_apiKey := Some {| i_id := k_id k; i_serviceName := k_serviceName k;
                           i_canWrite := k_canWrite k; i_canRead := k_canRead k;
                           i_allowedModules :=
                             if truthy (k_allowedModules k) then k_allowedModules k
                             else None |};
       error := None |}.
Proof.
  unfold verdict, usable.
  destruct (k_isActive k), (k_expiresAt k) as [x|]; try destruct (x <? t)%Z; simpl; done.
Qed.

(** An accepted key has a usable record under its hash, and the answer
    describes that record. *)
Lemma validateApiKey_sound hashValue rawKey s r :
  eval (validateApiKey hashValue rawKey) s = Ok r ->
  isValid r = true ->
  exists k, List.find (fun k => String.eqb (k_keyHash k) (hashValue rawKey)) (apiKey s) = Some k /\
            usable (clock s) k = true /\
            r = verdict (clock s) (Some k).
Proof.
  rewrite validateApiKey_run. cbv zeta. intros [= <-].
  set (found := List.find _ (apiKey s)).
  destruct (default false (head (outages s))); [done|].
  destruct (isValid (verdict (clock s) found)) eqn:Hv; cbn [andb].
  - destruct (default false (head (tail (outages s)))); [done|]. intros _.
    apply verdict_valid in Hv as (k & Hk & Hu). exists k. by rewrite <- Hk.
  - by rewrite Hv.
Qed.

(** [validateApiKey] never throws.  It accepts a key only when the table
    holds a record under the hash of the key that is active and not past
    its expiry, and then it reports the id, the service and the
    permissions of that record; when the two calls to the database go
    through it accepts every such key. *)
Theorem validateApiKey_accepts_usable hashValue rawKey s :
  let found := List.find (fun k => String.eqb (k_keyHash k) (hashValue rawKey)) (apiKey s) in
  exists r,
    eval (validateApiKey hashValue rawKey) s = Ok r /\
    (isValid r = true ->
     exists k, found = Some k /\ usable (clock s) k = true /\
               exists info, v_apiKey r = Some info /\
                            i_id info = k_id k /\ i_serviceName info = k_serviceName k /\
                            i_canWrite info = k_canWrite k /\ i_canRead info = k_canRead k) /\
    (default false (head (outages s)) = false ->
     default false (head (tail (outages s))) = false ->
     forall k, found = Some k -> usable (clock s) k = true -> isValid r = true).
Proof.
  cbv zeta. destruct (validateApiKey_returns hashValue rawKey s) as (r & s' & _ & Hr).
  exists r. split; [done|]. split.
  - intros Hv. destruct (validateApiKey_sound _ _ _ _ Hr Hv) as (k & Hk & Hu & ->).
    exists k. do 2 (split; [done|]). rewrite (verdict_info _ _ Hu). eexists. by split.
  - intros H1 H2 k Hk Hu. rewrite validateApiKey_run in Hr. cbv zeta in Hr.
    rewrite H1, H2, andb_false_r, Hk in Hr.
    assert (r = verdict (clock s) (Some k)) as -> by congruence.
    by rewrite (verdict_info _ _ Hu).
Qed.

Lemma validateApiKey_accepts_usable_witness :
  exists r,
    eval (validateApiKey sample_hash "finance_key") (sample_store []) = Ok r /\
    isValid r = true /\
    option_map i_serviceName (v_apiKey r) = Some "finance".
Proof.
  destruct (validateApiKey_accepts_usable sample_hash "finance_key" (sample_store []))
    as (r & Hr & Hsound & Hcomplete).
  exists r. split; [exact Hr|].
  assert (isValid r = true) as Hv.
  { eapply Hcomplete; [reflexivity | reflexivity | reflexivity | reflexivity]. }
  split; [exact Hv|].
  destruct (Hsound Hv) as (k & Hk & _ & info & -> & _ & Hname & _).
  vm_compute in Hk. injection Hk as <-. cbn [option_map]. by rewrite Hname.
Defined.

Lemma find_map_same {A} (f : A -> bool) (g : A -> A) (l : list A) :
  (forall x, f (g x) = f x) ->
  List.find f (map g l) = option_map g (List.find f l).
Proof.
  intros Hfg. induction l as [|y l IH]; simpl; [done|].
  rewrite Hfg. by destruct (f y).
Qed.

Lemma revokeApiKey_run id by_ s :
  eval (revokeApiKey id by_) s = Ok tt ->
  exec (revokeApiKey id by_) s
  = {| apiKey :=
         map (fun k => if (k_id k =? id)%Z
                       then {| k_id := k_id k; k_keyHash := k_keyHash k;
                               k_serviceName := k_serviceName k; k_canWrite := k_canWrite k;
                               k_canRead := k_canRead k;
                               k_allowedModules := k_allowedModules k;
                               k_isActive := false; k_expiresAt := k_expiresAt k;
                               k_lastUsedAt := k_lastUsedAt k;
                               k_revokedAt := Some (clock s);
                               k_revokedBy := match by_ with
                                              | Some b => Some b
                                              | None => k_revokedBy k
                                              end |}
                       else k) (apiKey s);
       clock := clock s; outages := tail (outages s); printed := printed s |}.
Proof.
  destruct s as [rows t fs con]. unfold_api; sim_api.
  destruct (default false (head fs)); sim_api; [done|].
  destruct (existsb _ rows); sim_api; done.
Qed.

(** Once [revokeApiKey id] has succeeded, the key whose record has that
    id is rejected: [validateApiKey] answers that it has been revoked,
    or that the validation failed when the database cannot be reached. *)
Theorem revokeApiKey_locks_out hashValue id by_ rawKey k s :
  eval (revokeApiKey id by_) s = Ok tt ->
  List.find (fun k => String.eqb (k_keyHash k) (hashValue rawKey)) (apiKey s) = Some k ->
  k_id k = id ->
  let s' := exec (revokeApiKey id by_) s in
  eval (validateApiKey hashValue rawKey) s'
  = Ok (invalid (if default false (head (outages s')) then "Validation failed"
                 else "API key has been revoked")).
Proof.
  intros Hok Hfind Hid. cbv zeta.
  rewrite (revokeApiKey_run _ _ _ Hok), validateApiKey_run. cbv zeta.
  cbn [apiKey clock outages].
  rewrite find_map_same by (intros x; by destruct (k_id x =? id)%Z).
  rewrite Hfind. cbn [option_map]. rewrite Hid, Z.eqb_refl.
  destruct (default false (head (tail (outages s)))); [done|].
  unfold verdict. by cbn [k_isActive negb isValid invalid andb].
Qed.

Lemma revokeApiKey_locks_out_witness :
  eval (validateApiKey sample_hash "finance_key") (sample_store []) 
  = Ok (verdict 1700000000000 (head (apiKey (sample_store [])))) /\
  eval (validateApiKey sample_hash "finance_key")
       (exec (revokeApiKey 1 (Some "root")) (sample_store []))
  = Ok (invalid "API key has been revoked").
Proof.
  split; [reflexivity|].
  eapply (revokeApiKey_locks_out sample_hash 1 (Some "root") "finance_key" _
            (sample_store [])); reflexivity.
Defined.

Lemma deleteApiKey_run id s :
  eval (deleteApiKey id) s = Ok tt ->
  exec (deleteApiKey id) s
  = {| apiKey := List.filter (fun k => negb (k_id k =? id)%Z) (apiKey s);
       clock := clock s; outages := tail (outages s); printed := printed s |}.
Proof.
  destruct s as [rows t fs con]. unfold_api; sim_api.
  destruct (default false (head fs)); sim_api; [done|].
  destruct (existsb _ rows); sim_api; done.
Qed.

Lemma find_some_in {A} (f : A -> bool) (l : list A) x :
  List.find f l = Some x -> In x l.
Proof.
  induction l as [|y l IH]; simpl; [done|].
  destruct (f y); [intros [= <-]; by left | right; by apply IH].
Qed.

Lemma verdict_info_valid t found info :
  v_apiKey (verdict t found) = Some info -> isValid (verdict t found) = true.
Proof.
  unfold verdict, invalid. destruct found as [k|]; [|done].
  destruct (negb (k_isActive k)); [done|].
  by destruct (match k_expiresAt k with Some x => _ | None => _ end).
Qed.

(** Only an accepting answer carries a record. *)
Lemma validateApiKey_info_valid hashValue rawKey s r info :
  eval (validateApiKey hashValue rawKey) s = Ok r ->
  v_apiKey r = Some info -> isValid r = true.
Proof.
  rewrite validateApiKey_run. cbv zeta. intros [= <-].
  destruct (default false (head (outages s))); [done|].
  destruct (isValid (verdict _ _) && _); [done|]. apply verdict_info_valid.
Qed.

(** Once [deleteApiKey id] has succeeded, [validateApiKey] never again
    answers with the record [id], whatever key it is given. *)
Theorem deleteApiKey_forgets hashValue id rawKey s :
  eval (deleteApiKey id) s = Ok tt ->
  exists r,
    eval (validateApiKey hashValue rawKey) (exec (deleteApiKey id) s) = Ok r /\
    forall info, v_apiKey r = Some info -> i_id info <> id.
Proof.
  intros Hok. rewrite (deleteApiKey_run _ _ Hok).
  set (s' := {| apiKey := _ |}).
  destruct (validateApiKey_returns hashValue rawKey s') as (r & s'' & _ & Hr).
  exists r. split; [done|]. intros info Hinfo.
  pose proof (validateApiKey_info_valid _ _ _ _ _ Hr Hinfo) as Hv.
  destruct (validateApiKey_sound _ _ _ _ Hr Hv) as (k & Hk & Hu & ->).
  rewrite (verdict_info _ _ Hu) in Hinfo. cbn [v_apiKey] in Hinfo.
  injection Hinfo as <-. cbn [i_id].
  apply find_some_in in Hk. unfold s' in Hk. cbn [apiKey] in Hk.
  apply filter_In in Hk as [_ Hk]. by apply negb_true_iff, Z.eqb_neq in Hk.
Qed.

Lemma deleteApiKey_forgets_witness :
  exists r,
    eval (validateApiKey sample_hash "finance_key") (exec (deleteApiKey 1) (sample_store []))
    = Ok r /\
    forall info, v_apiKey r = Some info -> i_id info <> 1%Z.
Proof.
  apply (deleteApiKey_forgets sample_hash 1 "finance_key" (sample_store [])).
  reflexivity.
Defined.

(** *** The middleware *)

(** With authentication on, [requireWritePermission] never throws.  It
    lets a request through only when the request carries a key whose
    record is usable and may write, and it then names the service and the
    id of that record in the request; every other request is answered
    with status 401. *)
Theorem requireWritePermission_guard hashValue TEST_SERVICE_NAME req s :
  exists reply,
    eval (requireWritePermission hashValue false TEST_SERVICE_NAME req) s = Ok reply /\
    match reply with
    | Next req' =>
        exists rawKey k,
          x_api_key req = Some rawKey /\ rawKey <> "" /\
          List.find (fun k => String.eqb (k_keyHash k) (hashValue rawKey)) (apiKey s) = Some k /\
          usable (clock s) k = true /\ k_canWrite k = true /\
          req' = {| x_api_key := x_api_key req;
                    serviceName := Some (k_serviceName k);
                    apiKeyId := Some (k_id k) |}
    | Send res => status res = 401%Z
    end.
Proof.
  unfold requireWritePermission, eval, try_catch, bind, ret.
  destruct (x_api_key req) as [rawKey|] eqn:Hkey; cbn [truthy negb]; [|by eexists].
  destruct (truthy_string rawKey) eqn:Hraw; cbn [negb]; [|by eexists].
  change (default "" (Some rawKey)) with rawKey.
  destruct (validateApiKey_returns hashValue rawKey s) as (r & s' & -> & Hr).
  destruct (isValid r) eqn:Hv; [|by eexists].
  destruct (validateApiKey_sound _ _ _ _ Hr Hv) as (k & Hk & Hu & ->).
  rewrite (verdict_info _ _ Hu). cbn [v_apiKey i_canWrite].
  destruct (k_canWrite k) eqn:Hw; cbn [negb]; [|by eexists].
  eexists. split; [done|]. exists rawKey, k.
  split; [done|]. split; [by destruct rawKey|].
  unfold identified. cbn [i_serviceName i_id]. by rewrite Hkey.
Qed.

(** With authentication on, [validateApiKeyMiddleware] never throws.  It
    lets a request through only when the request carries a key whose
    record is usable, and it then names the service and the id of that
    record in the request; every other request is answered with status
    401. *)
Theorem validateApiKeyMiddleware_guard hashValue TEST_SERVICE_NAME req s :
  exists reply,
    eval (validateApiKeyMiddleware hashValue false TEST_SERVICE_NAME req) s = Ok reply /\
    match reply with
    | Next req' =>
        exists rawKey k,
          x_api_key req = Some rawKey /\ rawKey <> "" /\
          List.find (fun k => String.eqb (k_keyHash k) (hashValue rawKey)) (apiKey s) = Some k /\
          usable (clock s) k = true /\
          req' = {| x_api_key := x_api_key req;
                    serviceName := Some (k_serviceName k);
                    apiKeyId := Some (k_id k) |}
    | Send res => status res = 401%Z
    end.
Proof.
  unfold validateApiKeyMiddleware, eval, try_catch, bind, ret.
  destruct (x_api_key req) as [rawKey|] eqn:Hkey; cbn [truthy negb]; [|by eexists].
  destruct (truthy_string rawKey) eqn:Hraw; cbn [negb]; [|by eexists].
  change (default "" (Some rawKey)) with rawKey.
  destruct (validateApiKey_returns hashValue rawKey s) as (r & s' & -> & Hr).
  destruct (isValid r) eqn:Hv; [|by eexists].
  destruct (validateApiKey_sound _ _ _ _ Hr Hv) as (k & Hk & Hu & ->).
  rewrite (verdict_info _ _ Hu). cbn [v_apiKey].
  eexists. split; [done|]. exists rawKey, k.
  split; [done|]. split; [by destruct rawKey|].
  unfold identified. cbn [i_serviceName i_id]. by rewrite Hkey.
Qed.

End ApiKeyFacts.
